(** * The apply pipeline of the integration toolkit, embedded and verified

    Source: [internal/cmd/integrations/apply.go].  The Go code walks the
    sub-folders of a scaffold folder, asks the platform whether each
    resource exists, creates the missing ones, and finally creates, tests
    and publishes one integration version.

    The embedding keeps the shape of the source:
    - byte slices and Go strings are [string] (a sequence of 8-bit
      characters);
    - a Go [error] is a value of [Go.error], [nil] is [None];
    - the file system is a read-only tree with a working directory; the
      names the command is given are strings, joined and cleaned as
      [path.Join] and [path.Clean] do and resolved as [os.Stat] does,
      and the places the walks visit are lists of components;
    - the remote platform is an abstract state [W] with one function per
      client call; lookups read the state, creations may change it;
    - every client call and every log line is recorded in a trace. *)

From Stdlib Require Import Ascii String ZArith NArith List Sorted Lia.
From stdpp Require Import base strings list gmap.

#[global] Set Warnings "-register-all".

Local Open Scope string_scope.
Local Open Scope list_scope.

(** ** Go standard library functions used by the source *)

Module Go.

(** A Go [error] value.  Only the errors that the source builds itself
    carry their message; [nil] is [None : option error]. *)
Inductive error :=
| errors_New (msg : string)
| fmt_Errorf_w (msg : string) (wrapped : option error)
| json_SyntaxError
| json_UnmarshalTypeError
| fs_PathError (op : string) (p : list string) (reason : string)
| client_error (msg : string).

Definition bytes_of (s : string) : list ascii := list_ascii_of_string s.
Definition string_of (l : list ascii) : string := string_of_list_ascii l.

(** The double quote character, and a text between double quotes. *)
Definition dquote : ascii := "034"%char.
Definition quoted (s : string) : string := String dquote (s +:+ String dquote "").

Definition is_sep (c : ascii) : bool := Ascii.eqb c "/".
Definition is_dot (c : ascii) : bool := Ascii.eqb c ".".

(** [strings.TrimSuffix]: [s] without the trailing [suffix], or [s] itself
    when it does not end with it. *)
Fixpoint strings_TrimSuffix (s suffix : string) : string :=
  if String.eqb s suffix then ""
  else match s with
       | "" => ""
       | String c s' => String c (strings_TrimSuffix s' suffix)
       end.

(** [filepath.Ext]: the loop runs from the last byte towards the first,
    stops at a path separator and returns the text from the first dot it
    meets.  [ext_scan r acc] has the bytes still to visit, last first, in
    [r], and the bytes already visited in [acc]. *)
Fixpoint ext_scan (r acc : list ascii) : string :=
  match r with
  | [] => ""
  | c :: r' =>
      if is_sep c then ""
      else if is_dot c then string_of (c :: acc)
      else ext_scan r' (c :: acc)
  end.

Definition filepath_Ext (path : string) : string :=
  ext_scan (rev (bytes_of path)) [].

(** [filepath.Base] on a slash-separated path. *)
Fixpoint drop_seps (r : list ascii) : list ascii :=
  match r with
  | c :: r' => if is_sep c then drop_seps r' else r
  | [] => []
  end.

Fixpoint take_elem (r acc : list ascii) : list ascii :=
  match r with
  | c :: r' => if is_sep c then acc else take_elem r' (c :: acc)
  | [] => acc
  end.

Definition filepath_Base (path : string) : string :=
  match path with
  | "" => "."
  | _ =>
      match take_elem (drop_seps (rev (bytes_of path))) [] with
      | [] => "/"
      | l => string_of l
      end
  end.

(** *** UTF-8 decoding, as [utf8.DecodeRuneInString] does it

    Only the width of the first rune and whether it is ASCII are needed:
    an invalid or truncated sequence decodes as [RuneError] of width 1. *)

Definition byte_val (c : ascii) : N := N_of_ascii c.

Definition in_range (lo hi : N) (c : ascii) : bool :=
  (lo <=? byte_val c)%N && (byte_val c <=? hi)%N.

Definition is_cont (c : ascii) : bool := in_range 128 191 c.

(** Width announced by the first byte and the accepted range of the
    second byte; [None] for a byte that cannot start a sequence. *)
Definition utf8_first (c : ascii) : option (nat * N * N) :=
  let b := byte_val c in
  if (b <? 128)%N then Some (1, 0%N, 0%N)
  else if (b <? 194)%N then None
  else if (b <? 224)%N then Some (2, 128%N, 191%N)
  else if (b =? 224)%N then Some (3, 160%N, 191%N)
  else if (b =? 237)%N then Some (3, 128%N, 159%N)
  else if (b <? 240)%N then Some (3, 128%N, 191%N)
  else if (b =? 240)%N then Some (4, 144%N, 191%N)
  else if (b <? 244)%N then Some (4, 128%N, 191%N)
  else if (b =? 244)%N then Some (4, 128%N, 143%N)
  else None.

(** Width in bytes of the first rune of a non-empty input. *)
Definition rune_width (l : list ascii) : nat :=
  match l with
  | [] => 0
  | c :: l' =>
      match utf8_first c with
      | Some (2, lo, hi) =>
          match l' with
          | c1 :: _ => if in_range lo hi c1 then 2 else 1
          | _ => 1
          end
      | Some (3, lo, hi) =>
          match l' with
          | c1 :: c2 :: _ => if in_range lo hi c1 && is_cont c2 then 3 else 1
          | _ => 1
          end
      | Some (4, lo, hi) =>
          match l' with
          | c1 :: c2 :: c3 :: _ =>
              if in_range lo hi c1 && is_cont c2 && is_cont c3 then 4 else 1
          | _ => 1
          end
      | _ => 1
      end
  end.

(** A decoded rune, as far as the patterns of the source can tell runes
    apart: an ASCII character, or anything else (a character outside
    ASCII, or [RuneError]). *)
Inductive rune :=
| RAscii (c : ascii)
| ROther.

(** [runes_from skip l]: the runes of [l]; [skip] is the number of bytes
    of the current rune still to pass over. *)
Fixpoint runes_from (skip : nat) (l : list ascii) : list rune :=
  match l with
  | [] => []
  | c :: l' =>
      match skip with
      | S k => runes_from k l'
      | 0 =>
          (if (byte_val c <? 128)%N then RAscii c else ROther)
            :: runes_from (rune_width l - 1) l'
      end
  end.

Definition runes (s : string) : list rune := runes_from 0 (bytes_of s).

(** The pieces of [l], one per rune ([strings.explode]). *)
Fixpoint explode_from (skip : nat) (cur : list ascii) (l : list ascii)
  : list (list ascii) :=
  match l with
  | [] => match cur with [] => [] | _ => [rev cur] end
  | c :: l' =>
      match skip with
      | S k => explode_from k (c :: cur) l'
      | 0 =>
          match cur with
          | [] => explode_from (rune_width l - 1) [c] l'
          | _ => rev cur :: explode_from (rune_width l - 1) [c] l'
          end
      end
  end.

Definition explode (s : string) : list string :=
  map string_of (explode_from 0 [] (bytes_of s)).

(** [strings.Split]: the pieces of [s] between the occurrences of [sep],
    found left to right without overlap.  [split_from sep skip cur s]:
    [cur] is the piece being collected, [skip] the number of bytes of a
    separator still to pass over. *)
Fixpoint split_from (sep : string) (skip : nat) (cur : string) (s : string)
  : list string :=
  match s with
  | "" => [cur]
  | String c s' =>
      match skip with
      | S k => split_from sep k cur s'
      | 0 =>
          if String.prefix sep s
          then cur :: split_from sep (String.length sep - 1) "" s'
          else split_from sep 0 (cur +:+ String c "") s'
      end
  end.

Definition strings_Split (s sep : string) : list string :=
  match sep with
  | "" => explode s
  | _ => split_from sep 0 "" s
  end.

(** [strings.ReplaceAll]: every occurrence of [old], found left to right
    without overlap, replaced by [new]; an empty [old] matches before
    every rune and at the end. *)
Fixpoint replace_from (old new : string) (skip : nat) (s : string) : string :=
  match s with
  | "" => ""
  | String c s' =>
      match skip with
      | S k => replace_from old new k s'
      | 0 =>
          if String.prefix old s
          then new +:+ replace_from old new (String.length old - 1) s'
          else String c (replace_from old new 0 s')
      end
  end.

Definition strings_ReplaceAll (s old new : string) : string :=
  match old with
  | "" => fold_right (fun piece acc => new +:+ piece +:+ acc) new (explode s)
  | _ => replace_from old new 0 s
  end.

(** *** [path]: names with slashes *)

(** The elements of a name: what stands between its slashes, the empty
    texts included. *)
Fixpoint elements (name : string) : list string :=
  match name with
  | "" => [""]
  | String c rest =>
      if is_sep c then "" :: elements rest
      else match elements rest with
           | e :: es => String c e :: es
           | [] => [String c ""]
           end
  end.

(** [path[0] == '/'] *)
Definition is_rooted (name : string) : bool :=
  match name with
  | String c _ => is_sep c
  | "" => false
  end.

(** [out.w > dotdot] in [path.Clean]: something was written after the
    leading slash or the leading [..] elements.  [out] holds the elements
    written so far, the last one first. *)
Definition can_backtrack (out : list string) : bool :=
  match out with
  | l :: _ => negb (String.eqb l "..")
  | [] => false
  end.

(** The loop of [path.Clean], element by element: an empty element and
    [.] are dropped; [..] removes the element written last, or is
    written itself when there is none and the name is not rooted; any
    other element is written. *)
Fixpoint clean_elements (rooted : bool) (out : list string) (elems : list string)
  : list string :=
  match elems with
  | [] => rev out
  | e :: es =>
      if String.eqb e "" || String.eqb e "." then clean_elements rooted out es
      else if String.eqb e ".." then
        if can_backtrack out then clean_elements rooted (tl out) es
        else if negb rooted then clean_elements rooted (e :: out) es
        else clean_elements rooted out es
      else clean_elements rooted (e :: out) es
  end.

(** [path.Clean] *)
Definition path_Clean (name : string) : string :=
  if String.eqb name "" then "."
  else
    let out := clean_elements (is_rooted name) [] (elements name) in
    if is_rooted name then "/" +:+ String.concat "/" out
    else match out with
         | [] => "."
         | _ => String.concat "/" out
         end.

(** [path.Join] of names: the names that are not empty, with a slash
    between them, cleaned; the empty text when there is none. *)
Definition path_Join_names (elem : list string) : string :=
  if Nat.eqb (list_sum (map String.length elem)) 0 then ""
  else
    path_Clean
      (fold_left
         (fun buf e =>
            if (0 <? String.length buf)%nat then buf +:+ "/" +:+ e
            else if negb (String.eqb e "") then e
            else buf)
         elem "").

(** *** Regular expressions

    The patterns of the source use literals, [\S], [\d], [.], [*] and
    [{1,2}].  Matching is by derivatives over the runes of the input;
    [MatchString] asks for a match anywhere in the input. *)

Inductive regex :=
| Nul
| Eps
| Chr (p : rune -> bool)
| Cat (r1 r2 : regex)
| Alt (r1 r2 : regex)
| Star (r : regex).

Fixpoint nullable (r : regex) : bool :=
  match r with
  | Nul => false
  | Eps => true
  | Chr _ => false
  | Cat r1 r2 => nullable r1 && nullable r2
  | Alt r1 r2 => nullable r1 || nullable r2
  | Star _ => true
  end.

Fixpoint deriv (a : rune) (r : regex) : regex :=
  match r with
  | Nul => Nul
  | Eps => Nul
  | Chr p => if p a then Eps else Nul
  | Cat r1 r2 =>
      if nullable r1 then Alt (Cat (deriv a r1) r2) (deriv a r2)
      else Cat (deriv a r1) r2
  | Alt r1 r2 => Alt (deriv a r1) (deriv a r2)
  | Star r1 => Cat (deriv a r1) (Star r1)
  end.

(** Derivatives are kept small: a concatenation or alternative with the
    empty language is dropped. *)
Fixpoint norm (r : regex) : regex :=
  match r with
  | Cat r1 r2 =>
      match norm r1, norm r2 with
      | Nul, _ => Nul
      | _, Nul => Nul
      | Eps, r2' => r2'
      | r1', r2' => Cat r1' r2'
      end
  | Alt r1 r2 =>
      match norm r1, norm r2 with
      | Nul, r2' => r2'
      | r1', Nul => r1'
      | r1', r2' => Alt r1' r2'
      end
  | _ => r
  end.

Fixpoint full_match (r : regex) (l : list rune) : bool :=
  match l with
  | [] => nullable r
  | a :: l' => full_match (norm (deriv a r)) l'
  end.

Definition any_rune : regex := Chr (fun _ => true).

(** [.]: any rune but a newline. *)
Definition dot : regex :=
  Chr (fun a => match a with RAscii c => negb (Ascii.eqb c "010") | ROther => true end).

(** [\d] *)
Definition digit : regex :=
  Chr (fun a => match a with RAscii c => in_range 48 57 c | ROther => false end).

(** [\S]: anything but tab, newline, form feed, carriage return, space. *)
Definition non_space : regex :=
  Chr (fun a =>
         match a with
         | RAscii c =>
             negb (Ascii.eqb c "009" || Ascii.eqb c "010" || Ascii.eqb c "012"
                   || Ascii.eqb c "013" || Ascii.eqb c " ")
         | ROther => true
         end).

Definition chr (c : ascii) : regex :=
  Chr (fun a => match a with RAscii c' => Ascii.eqb c c' | ROther => false end).

Fixpoint lit (s : string) : regex :=
  match s with
  | "" => Eps
  | String c s' => Cat (chr c) (lit s')
  end.

(** [r{1,2}] *)
Definition rep_1_2 (r : regex) : regex := Cat r (Alt r Eps).

(** [regexp.MatchString] *)
Definition MatchString (r : regex) (s : string) : bool :=
  full_match (Cat (Star any_rune) (Cat r (Star any_rune))) (runes s).

(** *** [encoding/json]: decoding a document into Go values *)

Module Json.

Inductive value :=
| Null
| Bool (b : bool)
| Number (literal : string)
| Str (s : string)
| Arr (elems : list value)
| Obj (members : list (string * value)).

Definition is_ws (c : ascii) : bool :=
  Ascii.eqb c " " || Ascii.eqb c "009" || Ascii.eqb c "010" || Ascii.eqb c "013".

Fixpoint skip_ws (l : list ascii) : list ascii :=
  match l with
  | c :: l' => if is_ws c then skip_ws l' else l
  | [] => []
  end.

Definition is_digit (c : ascii) : bool := in_range 48 57 c.

Definition hex_val (c : ascii) : option N :=
  if in_range 48 57 c then Some (byte_val c - 48)%N
  else if in_range 97 102 c then Some (byte_val c - 87)%N
  else if in_range 65 70 c then Some (byte_val c - 55)%N
  else None.

(** [getu4]: the code unit of a [\uXXXX] escape at the head of the input. *)
Definition getu4 (l : list ascii) : option N :=
  match l with
  | bs :: u :: a :: b :: c :: d :: _ =>
      if Ascii.eqb bs "\" && Ascii.eqb u "u" then
        match hex_val a, hex_val b, hex_val c, hex_val d with
        | Some a, Some b, Some c, Some d => Some (a * 4096 + b * 256 + c * 16 + d)%N
        | _, _, _, _ => None
        end
      else None
  | _ => None
  end.

Definition byte (n : N) : ascii := ascii_of_N n.

(** [utf8.EncodeRune] *)
Definition EncodeRune (r : N) : list ascii :=
  if (r <? 128)%N then [byte r]
  else if (r <? 2048)%N then [byte (192 + r / 64); byte (128 + r mod 64)]
  else if (r <? 65536)%N then
    [byte (224 + r / 4096); byte (128 + (r / 64) mod 64); byte (128 + r mod 64)]
  else
    [byte (240 + r / 262144); byte (128 + (r / 4096) mod 64);
     byte (128 + (r / 64) mod 64); byte (128 + r mod 64)].

Definition ReplacementChar : N := 65533.

Definition is_surrogate (r : N) : bool := (55296 <=? r)%N && (r <? 57344)%N.

(** [utf16.DecodeRune] *)
Definition utf16_DecodeRune (r1 r2 : N) : N :=
  if (55296 <=? r1)%N && (r1 <? 56320)%N && (56320 <=? r2)%N && (r2 <? 57344)%N
  then ((r1 - 55296) * 1024 + (r2 - 56320) + 65536)%N
  else ReplacementChar.

Definition simple_escape (c : ascii) : option ascii :=
  if Ascii.eqb c dquote then Some dquote
  else if Ascii.eqb c "\" then Some "\"%char
  else if Ascii.eqb c "/" then Some "/"%char
  else if Ascii.eqb c "b" then Some "008"%char
  else if Ascii.eqb c "f" then Some "012"%char
  else if Ascii.eqb c "n" then Some "010"%char
  else if Ascii.eqb c "r" then Some "013"%char
  else if Ascii.eqb c "t" then Some "009"%char
  else None.

(** The text of a string literal after its opening quote, unquoted, and
    the input after its closing quote.  [skip] is the number of bytes of
    an escape or of a rune still to pass over; [acc] is the unquoted text
    so far, last byte first. *)
Fixpoint string_body (skip : nat) (acc : list ascii) (l : list ascii)
  : option (string * list ascii) :=
  match l with
  | [] => None
  | c :: l' =>
      match skip with
      | S k => string_body k acc l'
      | 0 =>
          if Ascii.eqb c dquote then Some (string_of (rev acc), l')
          else if (byte_val c <? 32)%N then None
          else if Ascii.eqb c "\" then
            match l' with
            | [] => None
            | e :: l'' =>
                if Ascii.eqb e "u" then
                  match getu4 l with
                  | None => None
                  | Some rr =>
                      if is_surrogate rr then
                        match getu4 (skipn 6 l) with
                        | Some rr1 =>
                            if (utf16_DecodeRune rr rr1 =? ReplacementChar)%N
                            then string_body 5 (rev (EncodeRune ReplacementChar) ++ acc) l'
                            else string_body 11
                                   (rev (EncodeRune (utf16_DecodeRune rr rr1)) ++ acc) l'
                        | None =>
                            string_body 5 (rev (EncodeRune ReplacementChar) ++ acc) l'
                        end
                      else string_body 5 (rev (EncodeRune rr) ++ acc) l'
                  end
                else
                  match simple_escape e with
                  | Some b => string_body 1 (b :: acc) l'
                  | None => None
                  end
            end
          else if (byte_val c <? 128)%N then string_body 0 (c :: acc) l'
          else
            match rune_width l with
            | 1 => string_body 0 (rev (EncodeRune ReplacementChar) ++ acc) l'
            | w => string_body (w - 1) (rev (firstn w l) ++ acc) l'
            end
      end
  end.

(** A number literal: an optional minus sign; a zero, or a non-zero digit
    and further digits; optionally a dot and digits; optionally an
    exponent mark, a sign and digits. *)
Fixpoint span_digits (l : list ascii) : list ascii * list ascii :=
  match l with
  | c :: l' =>
      if is_digit c then let '(d, r) := span_digits l' in (c :: d, r) else ([], l)
  | [] => ([], [])
  end.

Definition opt_sign (l : list ascii) : list ascii * list ascii :=
  match l with
  | c :: l' => if Ascii.eqb c "-" || Ascii.eqb c "+" then ([c], l') else ([], l)
  | [] => ([], [])
  end.

Definition number_literal (l : list ascii) : option (list ascii * list ascii) :=
  let '(sign, l1) :=
    match l with
    | c :: l' => if Ascii.eqb c "-" then ([c], l') else ([], l)
    | [] => ([], [])
    end in
  let '(int, l2) :=
    match l1 with
    | c :: l' => if Ascii.eqb c "0" then ([c], l') else span_digits l1
    | [] => ([], [])
    end in
  match int with
  | [] => None
  | _ =>
      let frac :=
        match l2 with
        | c :: l' =>
            if Ascii.eqb c "." then
              match span_digits l' with
              | ([], _) => None
              | (d, r) => Some (c :: d, r)
              end
            else Some ([], l2)
        | [] => Some ([], [])
        end in
      match frac with
      | None => None
      | Some (fr, l3) =>
          let exp :=
            match l3 with
            | c :: l' =>
                if Ascii.eqb c "e" || Ascii.eqb c "E" then
                  let '(sg, l4) := opt_sign l' in
                  match span_digits l4 with
                  | ([], _) => None
                  | (d, r) => Some (c :: sg ++ d, r)
                  end
                else Some ([], l3)
            | [] => Some ([], [])
            end in
          match exp with
          | None => None
          | Some (ex, l5) => Some (sign ++ int ++ fr ++ ex, l5)
          end
      end
  end.

Definition maxNestingDepth : N := 10000.

Definition expect (word : string) (l : list ascii) : option (list ascii) :=
  if String.prefix word (string_of l)
  then Some (skipn (String.length word) l) else None.

(** The value at the head of the input and the input after it.  [fuel]
    bounds the number of nested calls; every call is made on a strictly
    shorter input, so the length of the input plus one is enough. *)
Fixpoint parse_value (fuel : nat) (depth : N) (l : list ascii)
  : option (value * list ascii) :=
  match fuel with
  | 0 => None
  | S f =>
      match skip_ws l with
      | [] => None
      | c :: l' =>
          if Ascii.eqb c "{" then
            if (maxNestingDepth <? depth + 1)%N then None
            else
              match skip_ws l' with
              | c1 :: l1 =>
                  if Ascii.eqb c1 "}" then Some (Obj [], l1)
                  else parse_members f (depth + 1)%N [] l'
              | [] => None
              end
          else if Ascii.eqb c "[" then
            if (maxNestingDepth <? depth + 1)%N then None
            else
              match skip_ws l' with
              | c1 :: l1 =>
                  if Ascii.eqb c1 "]" then Some (Arr [], l1)
                  else parse_elems f (depth + 1)%N [] l'
              | [] => None
              end
          else if Ascii.eqb c dquote then
            match string_body 0 [] l' with
            | Some (s, r) => Some (Str s, r)
            | None => None
            end
          else if Ascii.eqb c "t" then
            option_map (fun r => (Bool true, r)) (expect "true" (c :: l'))
          else if Ascii.eqb c "f" then
            option_map (fun r => (Bool false, r)) (expect "false" (c :: l'))
          else if Ascii.eqb c "n" then
            option_map (fun r => (Null, r)) (expect "null" (c :: l'))
          else
            match number_literal (c :: l') with
            | Some (n, r) => Some (Number (string_of n), r)
            | None => None
            end
      end
  end
with parse_members (fuel : nat) (depth : N) (acc : list (string * value))
       (l : list ascii) : option (value * list ascii) :=
  match fuel with
  | 0 => None
  | S f =>
      match skip_ws l with
      | q :: l1 =>
          if Ascii.eqb q dquote then
            match string_body 0 [] l1 with
            | Some (k, l2) =>
                match skip_ws l2 with
                | colon :: l3 =>
                    if Ascii.eqb colon ":" then
                      match parse_value f depth l3 with
                      | Some (v, l4) =>
                          match skip_ws l4 with
                          | c :: l5 =>
                              if Ascii.eqb c "," then
                                parse_members f depth (acc ++ [(k, v)]) l5
                              else if Ascii.eqb c "}" then
                                Some (Obj (acc ++ [(k, v)]), l5)
                              else None
                          | [] => None
                          end
                      | None => None
                      end
                    else None
                | [] => None
                end
            | None => None
            end
          else None
      | [] => None
      end
  end
with parse_elems (fuel : nat) (depth : N) (acc : list value) (l : list ascii)
       : option (value * list ascii) :=
  match fuel with
  | 0 => None
  | S f =>
      match parse_value f depth l with
      | Some (v, l1) =>
          match skip_ws l1 with
          | c :: l2 =>
              if Ascii.eqb c "," then parse_elems f depth (acc ++ [v]) l2
              else if Ascii.eqb c "]" then Some (Arr (acc ++ [v]), l2)
              else None
          | [] => None
          end
      | None => None
      end
  end.

(** A whole document: one value, then only white space. *)
Definition parse (data : string) : option value :=
  let l := bytes_of data in
  match parse_value (S (length l)) 0%N l with
  | Some (v, r) => match skip_ws r with [] => Some v | _ => None end
  | None => None
  end.

(** *** Numbers: [strconv.ParseFloat] rejects a literal whose value rounds
    to infinity, that is, a value of at least [(2^54 - 1) * 2^970]. *)

Definition digits_val (l : list ascii) : Z :=
  fold_left (fun acc c => (acc * 10 + Z.of_N (byte_val c - 48))%Z) l 0%Z.

Definition float64_limit : Z := ((2 ^ 54 - 1) * 2 ^ 970)%Z.

Definition number_in_range (literal : string) : bool :=
  let l := bytes_of literal in
  let l := match l with c :: l' => if Ascii.eqb c "-" then l' else l | [] => [] end in
  let '(int, l1) := span_digits l in
  let '(fr, l2) :=
    match l1 with
    | c :: l' => if Ascii.eqb c "." then span_digits l' else ([], l1)
    | [] => ([], [])
    end in
  let ex : Z :=
    match l2 with
    | _ :: l' =>
        let '(sg, l3) := opt_sign l' in
        let v := digits_val (fst (span_digits l3)) in
        match sg with
        | c :: _ => if Ascii.eqb c "-" then (- v)%Z else v
        | [] => v
        end
    | [] => 0%Z
    end in
  let m := digits_val (int ++ fr) in
  let e := (ex - Z.of_nat (length fr))%Z in
  if (0 <=? e)%Z then (m * 10 ^ e <? float64_limit)%Z
  else (m <? float64_limit * 10 ^ (- e))%Z.

Fixpoint numbers_in_range (v : value) : bool :=
  match v with
  | Number n => number_in_range n
  | Arr l => forallb numbers_in_range l
  | Obj l => forallb (fun kv => numbers_in_range (snd kv)) l
  | _ => true
  end.

(** The Go map built from the members of an object: a later member
    replaces an earlier one with the same key. *)
Definition to_map {A} (l : list (string * A)) : gmap string A :=
  fold_left (fun m kv => <[fst kv := snd kv]> m) l ∅.

(** [json.Unmarshal(data, &m)] for [m : map[string]interface{}], starting
    from the nil map.  A member whose value is [null] is stored as the nil
    interface, which is also what reading an absent key gives: both are
    [Null] here, and the map holds the other members. *)
Definition Unmarshal_any (data : string) : error + gmap string value :=
  match parse data with
  | None => inl json_SyntaxError
  | Some Null => inr ∅
  | Some (Obj l) =>
      if forallb (fun kv => numbers_in_range (snd kv)) l
      then inr (to_map l) else inl json_UnmarshalTypeError
  | Some _ => inl json_UnmarshalTypeError
  end.

(** Reading [m[key]] from a [map[string]interface{}]. *)
Definition index_any (m : gmap string value) (key : string) : value :=
  default Null (m !! key).

(** [json.Unmarshal(data, &m)] for [m : map[string]string]: a string
    member is stored, a [null] member is stored as the empty string, any
    other member is a type error. *)
Definition string_member (v : value) : option string :=
  match v with
  | Str s => Some s
  | Null => Some ""
  | _ => None
  end.

Definition Unmarshal_strings (data : string) : error + gmap string string :=
  match parse data with
  | None => inl json_SyntaxError
  | Some Null => inr ∅
  | Some (Obj l) =>
      match mapM (fun kv => pair (fst kv) <$> string_member (snd kv)) l with
      | Some l' => inr (to_map l')
      | None => inl json_UnmarshalTypeError
      end
  | Some _ => inl json_UnmarshalTypeError
  end.

(** Reading [m[key]] from a [map[string]string]. *)
Definition index_string (m : gmap string string) (key : string) : string :=
  default "" (m !! key).

End Json.

End Go.

Import Go.

(** ** The file system

    A scaffold folder is a tree.  The entries of a directory are listed in
    the order in which [filepath.Walk] visits them (it reads the names and
    sorts them); names are those of one directory, hence distinct.  There
    are no symbolic links, and a directory that cannot be listed cannot
    be entered either. *)

Definition path : Type := list string.

Inductive node :=
| File (content : error + string)        (* what reading the file gives *)
| Dir (entries : list (string * node))
| BadDir (e : error)                     (* a directory that cannot be listed *)
| NoStat (e : error).                    (* an entry whose [lstat] fails *)

Fixpoint lookup_entry (name : string) (es : list (string * node)) : option node :=
  match es with
  | [] => None
  | (n, c) :: es' => if String.eqb n name then Some c else lookup_entry name es'
  end.

(** The node at path [p] below [n]; [op] and [full] only label the error. *)
Fixpoint resolve (op : string) (full : path) (n : node) (p : path) : error + node :=
  match p with
  | [] => match n with NoStat e => inl e | _ => inr n end
  | name :: p' =>
      match n with
      | Dir es =>
          match lookup_entry name es with
          | Some c => resolve op full c p'
          | None => inl (fs_PathError op full "no such file or directory")
          end
      | File _ => inl (fs_PathError op full "not a directory")
      | BadDir e => inl e
      | NoStat e => inl e
      end
  end.

(** [fs.FileInfo], as far as the source looks at it. *)
Record FileInfo := { IsDir : bool }.

Definition info_of (n : node) : FileInfo :=
  {| IsDir := match n with Dir _ | BadDir _ => true | _ => false end |}.

Definition os_Stat (root : node) (p : path) : error + FileInfo :=
  match resolve "stat" p root p with
  | inl e => inl e
  | inr n => inr (info_of n)
  end.

(** Modelled from the spec: [utils.ReadFile] of [internal/cmd/utils], which
    is not among the sources.  The spec has the creator "read file bytes"
    and counts "unreadable files" among the file system errors: the
    content of a regular file, or an error. *)
Definition utils_ReadFile (root : node) (p : path) : error + string :=
  match resolve "open" p root p with
  | inl e => inl e
  | inr (File c) => c
  | inr _ => inl (fs_PathError "read" p "is a directory")
  end.

(** [path.Join] of a folder that was found in the tree and the names of
    entries below it. *)
Definition path_Join (p : path) (names : list string) : path := p ++ names.

(** The file system as the command finds it: the tree below the root
    directory, and the working directory, below which a name that is not
    rooted is looked for. *)
Record filesystem := {
  fs_root : node;
  fs_cwd : path;
}.

(** The directory in which the first element of a name is looked for. *)
Definition start_of (fs : filesystem) (name : string) : path :=
  if is_rooted name then [] else fs_cwd fs.

(** How the system follows a name, element by element, from the
    directory at [cur]: [.], [..] and an empty element want a directory
    where they stand, and [..] goes up from it, the root directory being
    its own parent; any other element is an entry of the directory
    reached so far.  The result is the place that was reached. *)
Fixpoint follow (root : node) (cur : path) (elems : list string) : error + path :=
  match elems with
  | [] => inr cur
  | e :: es =>
      if String.eqb e "" || String.eqb e "." || String.eqb e ".." then
        match resolve "stat" cur root cur with
        | inl err => inl err
        | inr (File _) => inl (fs_PathError "stat" cur "not a directory")
        | inr _ => follow root (if String.eqb e ".." then removelast cur else cur) es
        end
      else follow root (cur ++ [e]) es
  end.

(** [os.Stat] of a name as the command holds it, cleaned or not. *)
Definition os_Stat_name (fs : filesystem) (name : string) : error + FileInfo :=
  if String.eqb name "" then inl (fs_PathError "stat" [] "no such file or directory")
  else
    match follow (fs_root fs) (start_of fs name) (elements name) with
    | inl err => inl err
    | inr p => os_Stat (fs_root fs) p
    end.

(** Where a name lies when its elements are read as [path.Clean] reads
    them, without a look at the tree. *)
Fixpoint lexical (cur : path) (elems : list string) : path :=
  match elems with
  | [] => cur
  | e :: es =>
      lexical
        (if String.eqb e "" || String.eqb e "." then cur
         else if String.eqb e ".." then removelast cur
         else cur ++ [e])
        es
  end.

(** The place of a folder name: every [path.Join] of the source cleans
    the name, and the entries joined to it are looked for below that
    place. *)
Definition place (fs : filesystem) (name : string) : path :=
  lexical (start_of fs name) (elements name).

(** [filepath.Base] of a path that [filepath.Walk] hands to its callback:
    its last component. *)
Definition path_Base (p : path) : string := List.last p ".".

(** One call of the callback of [filepath.Walk]. *)
Record visit := {
  v_path : path;
  v_info : option FileInfo;
  v_err : option error;
}.

(** The calls that [filepath.Walk] makes for the tree at [p], in order,
    as long as the callback returns [nil]. *)
Fixpoint walk_node (p : path) (n : node) : list visit :=
  match n with
  | File _ => [ {| v_path := p; v_info := Some (info_of n); v_err := None |} ]
  | Dir es =>
      {| v_path := p; v_info := Some (info_of n); v_err := None |}
        :: (fix children (es : list (string * node)) : list visit :=
              match es with
              | [] => []
              | (name, c) :: es' => walk_node (p ++ [name]) c ++ children es'
              end) es
  | BadDir e => [ {| v_path := p; v_info := Some (info_of n); v_err := Some e |} ]
  | NoStat e => [ {| v_path := p; v_info := None; v_err := Some e |} ]
  end.

Definition visits (root : node) (p : path) : list visit :=
  match resolve "lstat" p root p with
  | inl e => [ {| v_path := p; v_info := None; v_err := Some e |} ]
  | inr n => walk_node p n
  end.

(** ** Flags of the command (package-level variables of the source) *)

Record flags := {
  folder : string;
  pipeline : string;
  release : string;
  outputGCSPath : string;
  userLabel : string;
  serviceAccountName : string;
  serviceAccountProject : string;
  encryptionKey : string;
  env : string;
  grantPermission : bool;
  createSecret : bool;
  wait : bool;
  skipConnectors : bool;
  skipAuthconfigs : bool;
  useUnderscore : bool;
}.

(** Modelled from the spec: the two file splitters of [internal/cmd/utils],
    which is not among the sources.  The spec names "a default
    multi-character splitter" and "a legacy single-underscore splitter";
    the help text of the [use-underscore] flag gives the default as two
    underscores. *)
Definition utils_DefaultFileSplitter : string := "__".
Definition utils_LegacyFileSplitter : string := "_".

(** ** Client calls and the trace *)

Abbreviation CodeMap := (gmap string (gmap string string)).

Inductive call :=
| apiclient_GetCloudDeployGCSLocations (pipeline release : string)
| apiclient_ExtractTgz (uri : string)
| apiclient_DisableCmdPrintHttpResponse
| authconfigs_Find (name pageToken : string)
| authconfigs_Create (content : string)
| connections_FindEndpoint (name : string)
| connections_CreateEndpoint (name serviceAttachment description : string) (wait : bool)
| connections_GetZone (name : string) (minimal : bool)
| connections_CreateZone (name content : string)
| connections_Get (name view : string) (minimal overrides : bool)
| connections_Create (name content serviceAccountName serviceAccountProject
                        encryptionKey : string)
                     (grantPermission createSecret wait : bool)
| connections_GetCustomVersion (name version : string) (overrides : bool)
| connections_CreateCustomWithVersion (name version content serviceAccountName
                                         serviceAccountProject : string)
| sfdc_GetInstance (name : string) (minimal : bool)
| sfdc_CreateInstanceFromContent (content : string)
| sfdc_FindChannel (name instance : string)
| sfdc_CreateChannelFromContent (version content : string)
| integrations_CreateVersion (name content overrides snapshot userlabel : string)
                             (grantPermission : bool)
| integrations_CreateTestCase (name version content : string)
| integrations_Publish (name version configVars : string)
| apiclient_WriteResultsFile (gcsPath status : string).

Inductive level := Info | Warning.

(** An argument of a log line: a string, or a path of the file system. *)
Inductive logarg :=
| AStr (s : string)
| APath (p : path).

(** A [Printf] carries its format as the literal is written in the
    source, and the arguments unformatted. *)
Inductive event :=
| Call (c : call)
| Printf (l : level) (format : string) (args : list logarg).

(** The client packages ([internal/apiclient], [internal/client/...]) seen
    from the command: lookups read the state of the platform, the other
    calls may change it.  Results that the source discards are left out. *)
Record Client (W : Type) := {
  do_GetCloudDeployGCSLocations : W -> string -> string -> (error + string) * W;
  do_ExtractTgz : W -> string -> (error + string) * W;
  do_authconfigs_Find : W -> string -> string -> string * option error;
  do_authconfigs_Create : W -> string -> option error * W;
  do_FindEndpoint : W -> string -> bool;
  do_CreateEndpoint : W -> string -> string -> string -> bool -> option error * W;
  do_GetZone : W -> string -> bool -> option error;
  do_CreateZone : W -> string -> string -> option error * W;
  do_connections_Get : W -> string -> string -> bool -> bool -> option error;
  do_connections_Create :
    W -> string -> string -> string -> string -> string -> bool -> bool -> bool
    -> option error * W;
  do_GetCustomVersion : W -> string -> string -> bool -> option error;
  do_CreateCustomWithVersion :
    W -> string -> string -> string -> string -> string -> option error * W;
  do_GetInstance : W -> string -> bool -> option error;
  do_CreateInstanceFromContent : W -> string -> option error * W;
  do_FindChannel : W -> string -> string -> string * option error;
  do_CreateChannelFromContent : W -> string -> string -> option error * W;
  do_SetCode : string -> CodeMap -> error + string;
  do_CreateVersion :
    W -> string -> string -> string -> string -> string -> bool
    -> (error + string) * W;
  do_CreateTestCase : W -> string -> string -> string -> option error * W;
  do_Publish : W -> string -> string -> string -> option error * W;
  do_WriteResultsFile : W -> string -> string -> option error * W;
}.

Arguments do_GetCloudDeployGCSLocations {W}.
Arguments do_ExtractTgz {W}.
Arguments do_authconfigs_Find {W}.
Arguments do_authconfigs_Create {W}.
Arguments do_FindEndpoint {W}.
Arguments do_CreateEndpoint {W}.
Arguments do_GetZone {W}.
Arguments do_CreateZone {W}.
Arguments do_connections_Get {W}.
Arguments do_connections_Create {W}.
Arguments do_GetCustomVersion {W}.
Arguments do_CreateCustomWithVersion {W}.
Arguments do_GetInstance {W}.
Arguments do_CreateInstanceFromContent {W}.
Arguments do_FindChannel {W}.
Arguments do_CreateChannelFromContent {W}.
Arguments do_SetCode {W}.
Arguments do_CreateVersion {W}.
Arguments do_CreateTestCase {W}.
Arguments do_Publish {W}.
Arguments do_WriteResultsFile {W}.

(** ** The monad of the command: platform state, trace, early return *)

Definition M (W A : Type) : Type := W -> list event * W * (error + A).

Definition ret {W A} (a : A) : M W A := fun w => ([], w, inr a).

(** [return err] *)
Definition throw {W A} (e : error) : M W A := fun w => ([], w, inl e).

Definition bind {W A B} (m : M W A) (k : A -> M W B) : M W B :=
  fun w =>
    match m w with
    | (t1, w1, inl e) => (t1, w1, inl e)
    | (t1, w1, inr a) =>
        match k a w1 with
        | (t2, w2, r) => (t1 ++ t2, w2, r)
        end
    end.

Declare Scope go_scope.
Delimit Scope go_scope with go.
Notation "x <- m ;;; k" := (bind m (fun x => k))
  (at level 100, m at next level, right associativity) : go_scope.
Notation "m ;;; k" := (bind m (fun _ => k))
  (at level 100, right associativity) : go_scope.
Local Open Scope go_scope.

(** The error of a computation as a value: [err := f()]. *)
Definition catch {W A} (m : M W A) : M W (error + A) :=
  fun w => match m w with (t, w1, r) => (t, w1, inr r) end.

(** [if err != nil { return err }] *)
Definition check {W} (err : option error) : M W unit :=
  match err with
  | Some e => throw e
  | None => ret tt
  end.

Definition lift {W A} (r : error + A) : M W A :=
  match r with
  | inl e => throw e
  | inr a => ret a
  end.

Definition emit {W} (ev : event) : M W unit := fun w => ([ev], w, inr tt).

Definition clilog_Info {W} (format : string) (args : list logarg) : M W unit :=
  emit (Printf Info format args).

Definition clilog_Warning {W} (format : string) (args : list logarg) : M W unit :=
  emit (Printf Warning format args).

(** A lookup: the call is recorded, the state is read. *)
Definition query {W A} (c : call) (f : W -> A) : M W A :=
  fun w => ([Call c], w, inr (f w)).

(** Any other call: recorded, and the state moves on. *)
Definition invoke {W A} (c : call) (f : W -> A * W) : M W A :=
  fun w => match f w with (a, w1) => ([Call c], w1, inr a) end.

(** [filepath.Walk]: the callback is run on the visits in order until it
    returns an error, which [Walk] returns.  [s] stands for the variables
    that the callback captures and appends to; every callback of the
    source appends only on a path that returns [nil], so the value before
    a failing visit is the one that the caller sees.  The sentinels
    [SkipDir] and [SkipAll] are never returned by these callbacks. *)
Fixpoint walk_visits {W S} (fn : visit -> S -> M W S) (vs : list visit) (s : S)
  : M W (S * option error) :=
  match vs with
  | [] => ret (s, None)
  | v :: vs' =>
      r <- catch (fn v s) ;;;
      match r with
      | inl e => ret (s, Some e)
      | inr s' => walk_visits fn vs' s'
      end
  end.

Definition filepath_Walk {W S} (root : node) (p : path)
    (fn : visit -> S -> M W S) (s : S) : M W (S * option error) :=
  walk_visits fn (visits root p) s.

(** [info.IsDir()] in a callback, after its [err] was found [nil]. *)
Definition v_IsDir (v : visit) : bool :=
  match v_info v with
  | Some i => IsDir i
  | None => false
  end.

(** ** The source, function by function *)

Definition getFilenameWithoutExtension (filname : string) : string :=
  strings_TrimSuffix filname (filepath_Ext filname).

(** The pattern for JSON files: any run of non-space characters, a
    group in the source, then a literal [.json]. *)
Definition rJSONFiles : regex := Cat (Star non_space) (lit ".json").

(** [javascript_\d{1,2}.js] *)
Definition rJavaScriptFiles : regex :=
  Cat (lit "javascript_") (Cat (rep_1_2 digit) (Cat dot (lit "js"))).

(** [datatransformer_\d{1,2}.jsonnet] *)
Definition rJsonnetFiles : regex :=
  Cat (lit "datatransformer_") (Cat (rep_1_2 digit) (Cat dot (lit "jsonnet"))).

(** [fmt.Sprintf("%s", v)] for a value decoded into [interface{}]; the text
    for a number, a boolean, an array or an object is left to [other]. *)
Definition fmt_Sprintf_s (other : Json.value -> string) (v : Json.value) : string :=
  match v with
  | Json.Str s => s
  | Json.Null => "%!s(<nil>)"
  | _ => other v
  end.

(** [v == ""] for an interface value [v]: a string, and empty. *)
Definition iface_is_empty_string (v : Json.value) : bool :=
  match v with
  | Json.Str "" => true
  | _ => false
  end.

Definition getVersion (other : Json.value -> string) (respBody : string)
  : error + string :=
  match Json.Unmarshal_any respBody with
  | inl err => inl err
  | inr jsonMap =>
      if iface_is_empty_string (Json.index_any jsonMap "name")
      then inl (errors_New "version not found")
      else
        let version :=
          filepath_Base (fmt_Sprintf_s other (Json.index_any jsonMap "name")) in
        if String.eqb version "" then inl (errors_New "version not found")
        else inr version
  end.

Definition getServiceAttachment (respBody : string) : error + string :=
  match Json.Unmarshal_strings respBody with
  | inl err => inl err
  | inr jsonMap =>
      if String.eqb (Json.index_string jsonMap "serviceAttachment") ""
      then inl (errors_New "serviceAttachment not found")
      else inr (Json.index_string jsonMap "serviceAttachment")
  end.

(** [stat, err = os.Stat(folder); err == nil && stat.IsDir()] *)
Definition is_folder (root : node) (p : path) : bool :=
  match os_Stat root p with
  | inr i => IsDir i
  | inl _ => false
  end.

(** [_, err = os.Stat(file); err == nil] *)
Definition stat_ok (root : node) (p : path) : bool :=
  match os_Stat root p with
  | inr _ => true
  | inl _ => false
  end.

Definition fileSplitter (fl : flags) : string :=
  if useUnderscore fl then utils_LegacyFileSplitter else utils_DefaultFileSplitter.

Section Apply.

Context {W : Type}.
Variable cl : Client W.
Variable Sprintf_other : Json.value -> string.
Variable fl : flags.
Variable root : node.

Local Abbreviation Run := (M W).

(** The function literal that [processAuthConfigs] hands to [filepath.Walk]. *)
Definition processAuthConfigs_fn (v : visit) (_ : unit)
  : Run unit :=
  check (v_err v) ;;;
  if negb (v_IsDir v) then
    let authConfigFile := path_Base (v_path v) in
    if MatchString rJSONFiles authConfigFile then
      clilog_Info "Found configuration for authconfig: %s\n" [AStr authConfigFile] ;;;
      found <- query (authconfigs_Find (getFilenameWithoutExtension authConfigFile) "")
                 (fun w => do_authconfigs_Find cl w
                             (getFilenameWithoutExtension authConfigFile) "") ;;;
      if String.eqb (fst found) "" then
        authConfigBytes <- lift (utils_ReadFile root (v_path v)) ;;;
        clilog_Info "Creating authconfig: %s\n" [AStr authConfigFile] ;;;
        err <- invoke (authconfigs_Create authConfigBytes)
                 (fun w => do_authconfigs_Create cl w authConfigBytes) ;;;
        check err
      else
        clilog_Info "Authconfig %s already exists\n" [AStr authConfigFile]
    else ret tt
  else ret tt.

Definition processAuthConfigs (authconfigFolder : path) : Run unit :=
  if is_folder root authconfigFolder then
    r <- filepath_Walk root authconfigFolder processAuthConfigs_fn tt ;;;
    check (snd r)
  else ret tt.

(** The function literal that [processEndpoints] hands to [filepath.Walk]. *)
Definition processEndpoints_fn (v : visit) (_ : unit)
  : Run unit :=
  check (v_err v) ;;;
  if negb (v_IsDir v) then
    let endpointFile := path_Base (v_path v) in
    (if MatchString rJSONFiles endpointFile then
       clilog_Info "Found configuration for endpoint attachment: %s\n"
         [AStr endpointFile]
     else ret tt) ;;;
    found <- query (connections_FindEndpoint (getFilenameWithoutExtension endpointFile))
               (fun w => do_FindEndpoint cl w
                           (getFilenameWithoutExtension endpointFile)) ;;;
    if negb found then
      endpointBytes <- lift (utils_ReadFile root (v_path v)) ;;;
      serviceAccountName <- lift (getServiceAttachment endpointBytes) ;;;
      err <- invoke (connections_CreateEndpoint
                       (getFilenameWithoutExtension endpointFile)
                       serviceAccountName "" false)
               (fun w => do_CreateEndpoint cl w
                           (getFilenameWithoutExtension endpointFile)
                           serviceAccountName "" false) ;;;
      check err
    else
      clilog_Info "Endpoint %s already exists\n" [AStr endpointFile]
  else ret tt.

Definition processEndpoints (endpointsFolder : path) : Run unit :=
  if is_folder root endpointsFolder then
    r <- filepath_Walk root endpointsFolder processEndpoints_fn tt ;;;
    check (snd r)
  else ret tt.

(** The function literal that [processManagedZones] hands to [filepath.Walk]. *)
Definition processManagedZones_fn (v : visit) (_ : unit)
  : Run unit :=
  check (v_err v) ;;;
  if negb (v_IsDir v) then
    let zoneFile := path_Base (v_path v) in
    (if MatchString rJSONFiles zoneFile then
       clilog_Info "Found configuration for managed zone: %s\n" [AStr zoneFile]
     else ret tt) ;;;
    err <- query (connections_GetZone (getFilenameWithoutExtension zoneFile) true)
             (fun w => do_GetZone cl w (getFilenameWithoutExtension zoneFile) true) ;;;
    match err with
    | Some _ =>
        zoneBytes <- lift (utils_ReadFile root (v_path v)) ;;;
        err <- invoke (connections_CreateZone
                         (getFilenameWithoutExtension zoneFile) zoneBytes)
                 (fun w => do_CreateZone cl w
                             (getFilenameWithoutExtension zoneFile) zoneBytes) ;;;
        check err
    | None =>
        clilog_Info "Zone %s already exists\n" [AStr zoneFile]
    end
  else ret tt.

Definition processManagedZones (zonesFolder : path) : Run unit :=
  if is_folder root zonesFolder then
    r <- filepath_Walk root zonesFolder processManagedZones_fn tt ;;;
    check (snd r)
  else ret tt.

(** The function literal that [processConnectors] hands to [filepath.Walk]. *)
Definition processConnectors_fn
    (grantPermission createSecret wait : bool) (v : visit) (_ : unit)
  : Run unit :=
  check (v_err v) ;;;
  if negb (v_IsDir v) then
    let connectionFile := path_Base (v_path v) in
    if MatchString rJSONFiles connectionFile then
      clilog_Info "Found configuration for connection: %s\n" [AStr connectionFile] ;;;
      err <- query (connections_Get (getFilenameWithoutExtension connectionFile)
                      "" true false)
               (fun w => do_connections_Get cl w
                           (getFilenameWithoutExtension connectionFile)
                           "" true false) ;;;
      match err with
      | Some _ =>
          connectionBytes <- lift (utils_ReadFile root (v_path v)) ;;;
          clilog_Info "Creating connector: %s\n" [AStr connectionFile] ;;;
          err <- invoke (connections_Create
                           (getFilenameWithoutExtension connectionFile)
                           connectionBytes (serviceAccountName fl)
                           (serviceAccountProject fl) (encryptionKey fl)
                           grantPermission createSecret wait)
                   (fun w => do_connections_Create cl w
                               (getFilenameWithoutExtension connectionFile)
                               connectionBytes (serviceAccountName fl)
                               (serviceAccountProject fl) (encryptionKey fl)
                               grantPermission createSecret wait) ;;;
          check err
      | None =>
          clilog_Info "Connector %s already exists\n" [AStr connectionFile]
      end
    else ret tt
  else ret tt.

Definition processConnectors (connectorsFolder : path)
    (grantPermission createSecret wait : bool) : Run unit :=
  if is_folder root connectorsFolder then
    r <- filepath_Walk root connectorsFolder (processConnectors_fn grantPermission createSecret wait) tt ;;;
    check (snd r)
  else ret tt.

(** The function literal that [processCustomConnectors] hands to [filepath.Walk]. *)
Definition processCustomConnectors_fn (v : visit) (_ : unit)
  : Run unit :=
  check (v_err v) ;;;
  if negb (v_IsDir v) then
    let customConnectionFile := path_Base (v_path v) in
    if MatchString rJSONFiles customConnectionFile then
      let customConnectionDetails :=
        strings_Split
          (strings_TrimSuffix customConnectionFile (filepath_Ext customConnectionFile))
          (fileSplitter fl) in
      match customConnectionDetails with
      | [name; version] =>
          clilog_Info "Found configuration for custom connection: %v\n"
            [AStr customConnectionFile] ;;;
          contents <- lift (utils_ReadFile root (v_path v)) ;;;
          clilog_Info "Creating custom connector: %s\n" [AStr customConnectionFile] ;;;
          err <- query (connections_GetCustomVersion name version false)
                   (fun w => do_GetCustomVersion cl w name version false) ;;;
          match err with
          | Some _ =>
              err <- invoke (connections_CreateCustomWithVersion name version contents
                               (serviceAccountName fl) (serviceAccountProject fl))
                       (fun w => do_CreateCustomWithVersion cl w name version contents
                                   (serviceAccountName fl)
                                   (serviceAccountProject fl)) ;;;
              check err
          | None =>
              clilog_Info "Custom Connector %s already exists\n"
                [AStr customConnectionFile]
          end
      | _ => ret tt
      end
    else ret tt
  else ret tt.

(** The error of [filepath.Walk] is assigned to [err] and never looked at:
    the function ends with [return nil]. *)
Definition processCustomConnectors (customConnectorsFolder : path) : Run unit :=
  if is_folder root customConnectorsFolder then
    _ <- filepath_Walk root customConnectorsFolder processCustomConnectors_fn tt ;;;
    ret tt
  else ret tt.

(** The function literal that [processSfdcInstances] hands to [filepath.Walk]. *)
Definition processSfdcInstances_fn (v : visit) (_ : unit)
  : Run unit :=
  check (v_err v) ;;;
  if negb (v_IsDir v) then
    let instanceFile := path_Base (v_path v) in
    if MatchString rJSONFiles instanceFile then
      clilog_Info "Found configuration for sfdc instance: %s\n" [AStr instanceFile] ;;;
      err <- query (sfdc_GetInstance (getFilenameWithoutExtension instanceFile) true)
               (fun w => do_GetInstance cl w
                           (getFilenameWithoutExtension instanceFile) true) ;;;
      match err with
      | Some _ =>
          instanceBytes <- lift (utils_ReadFile root (v_path v)) ;;;
          clilog_Info "Creating sfdc instance: %s\n" [AStr instanceFile] ;;;
          err <- invoke (sfdc_CreateInstanceFromContent instanceBytes)
                   (fun w => do_CreateInstanceFromContent cl w instanceBytes) ;;;
          match err with
          | Some _ => ret tt
          | None => ret tt
          end
      | None =>
          clilog_Info "sfdc instance %s already exists\n" [AStr instanceFile]
      end
    else ret tt
  else ret tt.

(** When [sfdc.CreateInstanceFromContent] fails the callback ends with
    [return nil]. *)
Definition processSfdcInstances (sfdcinstancesFolder : path) : Run unit :=
  if is_folder root sfdcinstancesFolder then
    r <- filepath_Walk root sfdcinstancesFolder processSfdcInstances_fn tt ;;;
    check (snd r)
  else ret tt.

Definition sfdcNamingConvention : nat := 2.

(** The function literal that [processSfdcChannels] hands to [filepath.Walk]. *)
Definition processSfdcChannels_fn (v : visit) (_ : unit)
  : Run unit :=
  check (v_err v) ;;;
  if negb (v_IsDir v) then
    let channelFile := path_Base (v_path v) in
    if MatchString rJSONFiles channelFile then
      clilog_Info "Found configuration for sfdc channel: %s\n" [AStr channelFile] ;;;
      let sfdcNames :=
        strings_Split (getFilenameWithoutExtension channelFile) (fileSplitter fl) in
      if negb (Nat.eqb (length sfdcNames) sfdcNamingConvention) then
        clilog_Warning
          "sfdc chanel file %s does not follow the naming convention instanceName_channelName.json\n"
          [AStr channelFile]
      else
        found <- query (sfdc_FindChannel (nth 1 sfdcNames "") (nth 0 sfdcNames ""))
                   (fun w => do_FindChannel cl w
                               (nth 1 sfdcNames "") (nth 0 sfdcNames "")) ;;;
        match snd found with
        | Some _ =>
            channelBytes <- lift (utils_ReadFile root (v_path v)) ;;;
            clilog_Info "Creating sfdc channel: %s\n" [AStr channelFile] ;;;
            err <- invoke (sfdc_CreateChannelFromContent (fst found) channelBytes)
                     (fun w => do_CreateChannelFromContent cl w
                                 (fst found) channelBytes) ;;;
            match err with
            | Some _ => ret tt
            | None => ret tt
            end
        | None =>
            clilog_Info "sfdc channel %s already exists\n" [AStr channelFile]
        end
    else ret tt
  else ret tt.

(** When [sfdc.CreateChannelFromContent] fails the callback ends with
    [return nil]. *)
Definition processSfdcChannels (sfdcchannelsFolder : path) : Run unit :=
  if is_folder root sfdcchannelsFolder then
    r <- filepath_Walk root sfdcchannelsFolder processSfdcChannels_fn tt ;;;
    check (snd r)
  else ret tt.

(** [for _, name := range names { ... }] with early return. *)
Fixpoint for_each {A S} (l : list A) (body : A -> S -> Run S) (s : S) : Run S :=
  match l with
  | [] => ret s
  | a :: l' => s' <- body a s ;;; for_each l' body s'
  end.

(** The callback shared by the three walks that only collect names. *)
Definition collect (r : regex) (format : string) (extra : list logarg)
    (v : visit) (names : list string) : Run (list string) :=
  check (v_err v) ;;;
  if negb (v_IsDir v) then
    let file := path_Base (v_path v) in
    if MatchString r file then
      clilog_Info format (AStr file :: extra) ;;;
      ret (names ++ [file])
    else ret names
  else ret names.

(** [codeMap[task][key] = code] *)
Definition set_code (task key code : string) (codeMap : CodeMap) : CodeMap :=
  <[task := <[key := code]> (default ∅ (codeMap !! task))]> codeMap.

Definition processCodeFolders (javascriptFolder jsonnetFolder : path) : Run CodeMap :=
  let codeMap : CodeMap := ∅ in
  let codeMap := <["JavaScriptTask" := ∅]> codeMap in
  let codeMap := <["JsonnetMapperTask" := ∅]> codeMap in
  r <- filepath_Walk root javascriptFolder
         (collect rJavaScriptFiles "Found JavaScript file for integration: %s\n" []) [] ;;;
  let javascriptNames := fst r in
  codeMap <- for_each javascriptNames (fun javascriptName codeMap =>
    javascriptBytes <- lift (utils_ReadFile root (path_Join javascriptFolder [javascriptName])) ;;;
    ret (set_code "JavaScriptTask"
           (strings_ReplaceAll (getFilenameWithoutExtension javascriptName) "javascript_" "")
           (strings_ReplaceAll javascriptBytes (String "010" "") "\n")
           codeMap)) codeMap ;;;
  r <- filepath_Walk root jsonnetFolder
         (collect rJsonnetFiles "Found Jsonnet file for integration: %s\n" []) [] ;;;
  let jsonnetNames := fst r in
  codeMap <- for_each jsonnetNames (fun jsonnetName codeMap =>
    jsonnetBytes <- lift (utils_ReadFile root (path_Join jsonnetFolder [jsonnetName])) ;;;
    ret (set_code "JsonnetMapperTask"
           (strings_ReplaceAll (getFilenameWithoutExtension jsonnetName) "datatransformer_" "")
           (strings_ReplaceAll jsonnetBytes (String "010" "") "\n")
           codeMap)) codeMap ;;;
  ret codeMap.

Definition processTestCases (testCasesFolder : path) (integrationName version : string)
  : Run unit :=
  r <- filepath_Walk root testCasesFolder
         (collect rJSONFiles "Found test case file %s for integration: %s\n"
            [AStr integrationName]) [] ;;;
  let testCaseFiles := fst r in
  for_each testCaseFiles (fun testCaseFile (_ : unit) =>
    testCaseBytes <- lift (utils_ReadFile root (path_Join testCasesFolder [testCaseFile])) ;;;
    err <- invoke (integrations_CreateTestCase integrationName version testCaseBytes)
             (fun w => do_CreateTestCase cl w integrationName version testCaseBytes) ;;;
    check err) tt.

Definition processIntegration (overridesFile integrationFolder configVarsFolder : path)
    (pipeline : string) (grantPermission : bool) : Run unit :=
  let javascriptFolder := path_Join integrationFolder ["javascript"] in
  let jsonnetFolder := path_Join integrationFolder ["datatransformer"] in
  overridesBytes <-
    (if stat_ok root overridesFile then lift (utils_ReadFile root overridesFile)
     else ret "") ;;;
  (if (0 <? String.length overridesBytes)%nat then
     clilog_Info "Found overrides file %s\n" [APath overridesFile]
   else ret tt) ;;;
  r <- filepath_Walk root integrationFolder
         (collect rJSONFiles "Found configuration for integration: %s\n" []) [] ;;;
  let integrationNames := fst r in
  match integrationNames with
  | first :: _ =>
      integrationBytes <- lift (utils_ReadFile root (path_Join integrationFolder [first])) ;;;
      codeMap <- processCodeFolders javascriptFolder jsonnetFolder ;;;
      integrationBytes <-
        (if (0 <? size codeMap)%nat then lift (do_SetCode cl integrationBytes codeMap)
         else ret integrationBytes) ;;;
      clilog_Info "Create integration %s\n" [AStr (getFilenameWithoutExtension first)] ;;;
      resp <- invoke (integrations_CreateVersion (getFilenameWithoutExtension first)
                        integrationBytes overridesBytes "" (userLabel fl) grantPermission)
                (fun w => do_CreateVersion cl w (getFilenameWithoutExtension first)
                            integrationBytes overridesBytes "" (userLabel fl)
                            grantPermission) ;;;
      respBody <- lift resp ;;;
      version <- lift (getVersion Sprintf_other respBody) ;;;
      processTestCases integrationFolder (getFilenameWithoutExtension first) version ;;;
      clilog_Info "Publish integration %s with version %s\n"
        [AStr (getFilenameWithoutExtension first); AStr version] ;;;
      let configVarsFile :=
        path_Join configVarsFolder [getFilenameWithoutExtension first +:+ "-config.json"] in
      configVarBytes <-
        (if stat_ok root configVarsFile then lift (utils_ReadFile root configVarsFile)
         else ret "") ;;;
      err <- invoke (integrations_Publish (getFilenameWithoutExtension first) version
                       configVarBytes)
               (fun w => do_Publish cl w (getFilenameWithoutExtension first) version
                           configVarBytes) ;;;
      check err ;;;
      if negb (String.eqb pipeline "") then
        err <- invoke (apiclient_WriteResultsFile (outputGCSPath fl) "SUCCEEDED")
                 (fun w => do_WriteResultsFile cl w (outputGCSPath fl) "SUCCEEDED") ;;;
        check err
      else ret tt
  | [] =>
      clilog_Warning "No integration files were found\n" []
  end.

End Apply.

Section Command.

Context {W : Type}.
Variable cl : Client W.
Variable Sprintf_other : Json.value -> string.
Variable fl : flags.

(** [disk f] is the file system as it is while the command walks it,
    when the scaffold is in the folder named [f]: the folder given by the
    [folder] flag, or the one into which [apiclient.ExtractTgz] has
    unpacked the release. *)
Variable disk : string -> filesystem.

Local Abbreviation Run := (M W).

(** The eight steps of [RunE], after the folder is known: [srcFolder] and
    [folder] are the places of the two names that [RunE] holds then. *)
Definition apply_steps (root : node) (srcFolder folder : path) : Run unit :=
  let integrationFolder := path_Join srcFolder ["src"] in
  let authconfigFolder := path_Join folder ["authconfigs"] in
  let connectorsFolder := path_Join folder ["connectors"] in
  let customConnectorsFolder := path_Join folder ["custom-connectors"] in
  let configVarsFolder := path_Join folder ["config-variables"] in
  let overridesFile := path_Join folder ["overrides"; "overrides.json"] in
  let sfdcinstancesFolder := path_Join folder ["sfdcinstances"] in
  let sfdcchannelsFolder := path_Join folder ["sfdcchannels"] in
  let endpointsFolder := path_Join folder ["endpoints"] in
  let zonesFolder := path_Join folder ["zones"] in
  invoke apiclient_DisableCmdPrintHttpResponse (fun w => (tt, w)) ;;;
  (if negb (skipAuthconfigs fl) then
     processAuthConfigs cl root authconfigFolder
   else
     clilog_Info "Skipping applying authconfigs configuration\n" []) ;;;
  processEndpoints cl root endpointsFolder ;;;
  processManagedZones cl root zonesFolder ;;;
  (if negb (skipConnectors fl) then
     processCustomConnectors cl fl root customConnectorsFolder ;;;
     processConnectors cl fl root connectorsFolder
       (grantPermission fl) (createSecret fl) (wait fl)
   else
     clilog_Info "Skipping applying connector configuration\n" []) ;;;
  processSfdcInstances cl root sfdcinstancesFolder ;;;
  processSfdcChannels cl fl root sfdcchannelsFolder ;;;
  processIntegration cl Sprintf_other fl root overridesFile integrationFolder
    configVarsFolder (pipeline fl) (grantPermission fl).

(** [ApplyCmd.RunE] *)
Definition RunE : Run unit :=
  folder <-
    (if String.eqb (folder fl) "" then
       r <- invoke (apiclient_GetCloudDeployGCSLocations (pipeline fl) (release fl))
              (fun w => do_GetCloudDeployGCSLocations cl w (pipeline fl) (release fl)) ;;;
       skaffoldConfigUri <- lift r ;;;
       r <- invoke (apiclient_ExtractTgz skaffoldConfigUri)
              (fun w => do_ExtractTgz cl w skaffoldConfigUri) ;;;
       lift r
     else ret (folder fl)) ;;;
  let fs := disk folder in
  let srcFolder := folder in
  let folder :=
    if negb (String.eqb (env fl) "") then path_Join_names [folder; env fl] else folder in
  match os_Stat_name fs folder with
  | inl err => throw (fmt_Errorf_w "problem with supplied path, %w" (Some err))
  | inr stat =>
      if negb (IsDir stat)
      then throw (fmt_Errorf_w "problem with supplied path, %w" None)
      else apply_steps (fs_root fs) (place fs srcFolder) (place fs folder)
  end.

End Command.

(** ** The check of the flags: [ApplyCmd.Args] *)

(** The two settings of the client that [Args] makes. *)
Inductive setting :=
| apiclient_SetRegion (region : string)
| apiclient_SetProjectID (project : string).

(** [fmt.Errorf] with a format that has no verb. *)
Definition fmt_Errorf (msg : string) : error := fmt_Errorf_w msg None.

(** The empty text, written as a test *)
Definition is_empty (s : string) : bool := String.eqb s "".

(** [ApplyCmd.Args]: the settings made, in order, and the error returned.
    [SetRegion] and [SetProjectID] stand for the two functions of
    [apiclient], of which the source uses the error only. *)
Definition Args (SetRegion SetProjectID : string -> option error)
    (cmdRegion cmdProject : string) (fl : flags) : list setting * option error :=
  match SetRegion cmdRegion with
  | Some err => ([apiclient_SetRegion cmdRegion], Some err)
  | None =>
      if is_empty (folder fl)
         && (is_empty (pipeline fl) || is_empty (release fl) || is_empty (outputGCSPath fl))
      then ([apiclient_SetRegion cmdRegion],
            Some (fmt_Errorf
                    "atleast one of folder or pipeline, release and outputGCSPath must be supplied"))
      else if negb (is_empty (folder fl))
              && (negb (is_empty (pipeline fl)) || negb (is_empty (release fl))
                  || negb (is_empty (outputGCSPath fl)))
      then ([apiclient_SetRegion cmdRegion],
            Some (fmt_Errorf
                    "both folder and pipeline, release and outputGCSPath cannot be supplied"))
      else if (negb (is_empty (pipeline fl))
               && (is_empty (release fl) || is_empty (outputGCSPath fl)))
              || (negb (is_empty (release fl))
                  && (is_empty (pipeline fl) && is_empty (outputGCSPath fl)))
              || (negb (is_empty (outputGCSPath fl))
                  && (is_empty (pipeline fl) && is_empty (release fl)))
      then ([apiclient_SetRegion cmdRegion],
            Some (fmt_Errorf "release, pipeline and outputGCSPath must be set"))
      else ([apiclient_SetRegion cmdRegion; apiclient_SetProjectID cmdProject],
            SetProjectID cmdProject)
  end.

(** ** Reading a run *)

Definition trace_of {W A} (o : list event * W * (error + A)) : list event := fst (fst o).
Definition world_of {W A} (o : list event * W * (error + A)) : W := snd (fst o).
Definition result_of {W A} (o : list event * W * (error + A)) : error + A := snd o.

(** The client calls of a trace, log lines left out. *)
Definition calls (t : list event) : list call :=
  omap (fun ev => match ev with Call c => Some c | Printf _ _ _ => None end) t.

(** The resource kinds, in the order of the steps. *)
Inductive kind :=
| AuthConfig | Endpoint | ManagedZone | CustomConnector | Connector
| SfdcInstance | SfdcChannel | Integration.

Definition rank (k : kind) : nat :=
  match k with
  | AuthConfig => 0 | Endpoint => 1 | ManagedZone => 2 | CustomConnector => 3
  | Connector => 4 | SfdcInstance => 5 | SfdcChannel => 6 | Integration => 7
  end.

(** The kind that a call works on; the calls that prepare the run have
    none. *)
Definition kind_of (c : call) : option kind :=
  match c with
  | apiclient_GetCloudDeployGCSLocations _ _ => None
  | apiclient_ExtractTgz _ => None
  | apiclient_DisableCmdPrintHttpResponse => None
  | authconfigs_Find _ _ | authconfigs_Create _ => Some AuthConfig
  | connections_FindEndpoint _ | connections_CreateEndpoint _ _ _ _ => Some Endpoint
  | connections_GetZone _ _ | connections_CreateZone _ _ => Some ManagedZone
  | connections_Get _ _ _ _ | connections_Create _ _ _ _ _ _ _ _ => Some Connector
  | connections_GetCustomVersion _ _ _
  | connections_CreateCustomWithVersion _ _ _ _ _ => Some CustomConnector
  | sfdc_GetInstance _ _ | sfdc_CreateInstanceFromContent _ => Some SfdcInstance
  | sfdc_FindChannel _ _ | sfdc_CreateChannelFromContent _ _ => Some SfdcChannel
  | integrations_CreateVersion _ _ _ _ _ _
  | integrations_CreateTestCase _ _ _
  | integrations_Publish _ _ _
  | apiclient_WriteResultsFile _ _ => Some Integration
  end.

(** The calls that ask whether a resource exists. *)
Definition is_probe (c : call) : bool :=
  match c with
  | authconfigs_Find _ _ | connections_FindEndpoint _ | connections_GetZone _ _
  | connections_Get _ _ _ _ | connections_GetCustomVersion _ _ _
  | sfdc_GetInstance _ _ | sfdc_FindChannel _ _ => true
  | _ => false
  end.

(** The calls that create something on the platform. *)
Definition is_create (c : call) : bool :=
  match c with
  | authconfigs_Create _ | connections_CreateEndpoint _ _ _ _
  | connections_CreateZone _ _ | connections_Create _ _ _ _ _ _ _ _
  | connections_CreateCustomWithVersion _ _ _ _ _
  | sfdc_CreateInstanceFromContent _ | sfdc_CreateChannelFromContent _ _
  | integrations_CreateVersion _ _ _ _ _ _
  | integrations_CreateTestCase _ _ _ => true
  | _ => false
  end.

(** The creations of the seven kinds that are guarded by a lookup. *)
Definition is_guarded_create (c : call) : bool :=
  match c with
  | authconfigs_Create _ | connections_CreateEndpoint _ _ _ _
  | connections_CreateZone _ _ | connections_Create _ _ _ _ _ _ _ _
  | connections_CreateCustomWithVersion _ _ _ _ _
  | sfdc_CreateInstanceFromContent _ | sfdc_CreateChannelFromContent _ _ => true
  | _ => false
  end.

(** ** A small platform to run the command against

    The state is the list of the resources that exist, one key per
    resource.  A lookup succeeds when the key is there; a creation adds
    the key, or fails and changes nothing when [ok] is [false].  The
    calls that receive only the content of a file take the name of the
    resource from the [name] member of that content. *)

Module Sim.

Definition state : Type := list string.

Definition has (w : state) (key : string) : bool := existsb (String.eqb key) w.

Definition not_found : error := client_error "not found".
Definition refused : error := client_error "creation refused".

Definition lookup (w : state) (key : string) : option error :=
  if has w key then None else Some not_found.

Definition create (ok : bool) (key : string) (w : state) : option error * state :=
  if ok then (None, w ++ [key]) else (Some refused, w).

Definition member (content key : string) : string :=
  match Json.Unmarshal_strings content with
  | inr m => Json.index_string m key
  | inl _ => ""
  end.

Definition show_code (codeMap : CodeMap) : string :=
  String.concat ""
    (flat_map (fun '(task, codes) =>
                 map (fun '(k, code) => task +:+ "[" +:+ k +:+ "]=" +:+ code +:+ ";")
                   (map_to_list codes))
       (map_to_list codeMap)).

Definition version_name (name : string) : string :=
  "{" +:+ quoted "name" +:+ ":"
      +:+ quoted ("projects/p/locations/l/integrations/" +:+ name +:+ "/versions/42")
      +:+ "}".

Definition client (ok : bool) : Client state := {|
  do_GetCloudDeployGCSLocations := fun w pipeline release =>
    (inr ("gs://" +:+ pipeline +:+ "/" +:+ release), w);
  do_ExtractTgz := fun w uri => (inr uri, w);
  do_authconfigs_Find := fun w name _ =>
    if has w ("authconfig/" +:+ name) then ("1", None) else ("", Some not_found);
  do_authconfigs_Create := fun w content =>
    create ok ("authconfig/" +:+ member content "name") w;
  do_FindEndpoint := fun w name => has w ("endpoint/" +:+ name);
  do_CreateEndpoint := fun w name _ _ _ => create ok ("endpoint/" +:+ name) w;
  do_GetZone := fun w name _ => lookup w ("zone/" +:+ name);
  do_CreateZone := fun w name _ => create ok ("zone/" +:+ name) w;
  do_connections_Get := fun w name _ _ _ => lookup w ("connector/" +:+ name);
  do_connections_Create := fun w name _ _ _ _ _ _ _ =>
    create ok ("connector/" +:+ name) w;
  do_GetCustomVersion := fun w name version _ =>
    lookup w ("custom/" +:+ name +:+ "/" +:+ version);
  do_CreateCustomWithVersion := fun w name version _ _ _ =>
    create ok ("custom/" +:+ name +:+ "/" +:+ version) w;
  do_GetInstance := fun w name _ => lookup w ("instance/" +:+ name);
  do_CreateInstanceFromContent := fun w content =>
    create ok ("instance/" +:+ member content "name") w;
  do_FindChannel := fun w name instance =>
    if has w ("channel/" +:+ instance +:+ "/" +:+ name)
    then (instance, None) else (instance, Some not_found);
  do_CreateChannelFromContent := fun w instance content =>
    create ok ("channel/" +:+ instance +:+ "/" +:+ member content "name") w;
  do_SetCode := fun content codeMap => inr (content +:+ show_code codeMap);
  do_CreateVersion := fun w name _ _ _ _ _ =>
    if ok then (inr (version_name name), w ++ ["integration/" +:+ name])
    else (inl refused, w);
  do_CreateTestCase := fun w name version _ =>
    create ok ("testcase/" +:+ name +:+ "/" +:+ version) w;
  do_Publish := fun w name version _ =>
    create true ("published/" +:+ name +:+ "/" +:+ version) w;
  do_WriteResultsFile := fun w _ _ => (None, w);
|}.

(** Values that are not strings are not printed by this platform. *)
Definition other (_ : Json.value) : string := "%!s(?)".

Definition plain_flags : flags := {|
  folder := "scaffold"; pipeline := ""; release := ""; outputGCSPath := "";
  userLabel := ""; serviceAccountName := ""; serviceAccountProject := "";
  encryptionKey := ""; env := "";
  grantPermission := false; createSecret := false; wait := false;
  skipConnectors := false; skipAuthconfigs := false; useUnderscore := false;
|}.

Definition text (s : string) : node := File (inr s).

End Sim.

(** ** Vocabulary of the properties *)

(** A visit of a regular file that [filepath.Walk] could stat. *)
Definition file_visit (v : visit) : Prop := v_err v = None ∧ v_IsDir v = false.

Definition v_file (v : visit) : string := path_Base (v_path v).

(** No call of [t] is one of [bad]. *)
Definition avoids (bad : call -> bool) (t : list event) : Prop :=
  existsb bad (calls t) = false.

Definition is_nil (err : option error) : bool :=
  match err with
  | None => true
  | Some _ => false
  end.

(** The names that a collecting walk appends, in order: the matching
    regular files met before the first visit that carries an error. *)
Fixpoint found_names (r : regex) (vs : list visit) : list string :=
  match vs with
  | [] => []
  | v :: vs' =>
      match v_err v with
      | Some _ => []
      | None =>
          (if negb (v_IsDir v) && MatchString r (v_file v) then [v_file v] else [])
            ++ found_names r vs'
      end
  end.

(** The key under which [processCodeFolders] stores a code file. *)
Definition code_key (pre name : string) : string :=
  strings_ReplaceAll (getFilenameWithoutExtension name) pre "".

(** The text that [processCodeFolders] stores for a content. *)
Definition inlined (content : string) : string :=
  strings_ReplaceAll content (String "010" "") "\n".

Definition has_newline (s : string) : bool :=
  existsb (Ascii.eqb "010") (bytes_of s).

(** One or two decimal digits. *)
Definition ordinals : list string :=
  let ds := ["0"; "1"; "2"; "3"; "4"; "5"; "6"; "7"; "8"; "9"] in
  ds ++ flat_map (fun a => map (fun b => a +:+ b) ds) ds.

(** The folder of each guarded kind below [folder]. *)
Definition kind_folder (folder : path) (k : kind) : path :=
  path_Join folder
    [match k with
     | AuthConfig => "authconfigs"
     | Endpoint => "endpoints"
     | ManagedZone => "zones"
     | CustomConnector => "custom-connectors"
     | Connector => "connectors"
     | SfdcInstance => "sfdcinstances"
     | SfdcChannel => "sfdcchannels"
     | Integration => "src"
     end].

Section Lookups.

Context {W : Type}.
Variable cl : Client W.
Variable fl : flags.
Variable root : node.

(** Whether the step of kind [k] reaches its lookup for the file of visit
    [v]: the name matches where the step asks for it, splits in two where
    the step splits it, and, for a custom connector, the file was read. *)
Definition looked_up (k : kind) (v : visit) : bool :=
  let file := v_file v in
  let segments :=
    strings_Split (getFilenameWithoutExtension file) (fileSplitter fl) in
  match k with
  | AuthConfig | Connector | SfdcInstance => MatchString rJSONFiles file
  | Endpoint | ManagedZone => true
  | CustomConnector =>
      MatchString rJSONFiles file && Nat.eqb (length segments) 2
      && match utils_ReadFile root (v_path v) with inr _ => true | inl _ => false end
  | SfdcChannel => MatchString rJSONFiles file && Nat.eqb (length segments) 2
  | Integration => false
  end.

(** What the lookup of kind [k] answers for the file of visit [v] in the
    state [w]: [true] when it reports the resource as existing. *)
Definition reported_existing (k : kind) (w : W) (v : visit) : bool :=
  let file := v_file v in
  let name := getFilenameWithoutExtension file in
  let segments := strings_Split name (fileSplitter fl) in
  match k with
  | AuthConfig => negb (String.eqb (fst (do_authconfigs_Find cl w name "")) "")
  | Endpoint => do_FindEndpoint cl w name
  | ManagedZone => is_nil (do_GetZone cl w name true)
  | Connector => is_nil (do_connections_Get cl w name "" true false)
  | CustomConnector =>
      is_nil (do_GetCustomVersion cl w (nth 0 segments "") (nth 1 segments "") false)
  | SfdcInstance => is_nil (do_GetInstance cl w name true)
  | SfdcChannel =>
      is_nil (snd (do_FindChannel cl w (nth 1 segments "") (nth 0 segments "")))
  | Integration => false
  end.

(** The callbacks of the seven guarded steps. *)
Definition guarded_steps : list (kind * (visit -> unit -> M W unit)) :=
  [ (AuthConfig, processAuthConfigs_fn cl root);
    (Endpoint, processEndpoints_fn cl root);
    (ManagedZone, processManagedZones_fn cl root);
    (CustomConnector, processCustomConnectors_fn cl fl root);
    (Connector, processConnectors_fn cl fl root
                  (grantPermission fl) (createSecret fl) (wait fl));
    (SfdcInstance, processSfdcInstances_fn cl root);
    (SfdcChannel, processSfdcChannels_fn cl fl root) ].

End Lookups.

(** A text without a slash. *)
Definition no_sep (e : string) : Prop := Forall (fun c => is_sep c = false) (bytes_of e).

(** A name of one entry: not empty, neither [.] nor [..], without a slash. *)
Definition entry_name (e : string) : Prop :=
  e <> "" /\ e <> "." /\ e <> ".." /\ no_sep e.

(** The elements that [path.Clean] writes. *)
Definition written (e : string) : Prop := e <> "" /\ e <> ".".

(** The start of [RunE]: the folder of the flag, or the one into which the
    release is unpacked. *)
Definition scaffold_folder {W} (cl : Client W) (fl : flags) : M W string :=
  if String.eqb (folder fl) "" then
    r <- invoke (apiclient_GetCloudDeployGCSLocations (pipeline fl) (release fl))
           (fun w => do_GetCloudDeployGCSLocations cl w (pipeline fl) (release fl)) ;;;
    skaffoldConfigUri <- lift r ;;;
    r <- invoke (apiclient_ExtractTgz skaffoldConfigUri)
           (fun w => do_ExtractTgz cl w skaffoldConfigUri) ;;;
    lift r
  else ret (folder fl).

(** The name of the folder that a run on the scaffold folder [f] applies:
    [f] itself, or [env] joined to it. *)
Definition env_name (fl : flags) (f : string) : string :=
  if negb (String.eqb (env fl) "") then path_Join_names [f; env fl] else f.

(** The folder below which the kind folders are looked for. *)
Definition env_folder (fl : flags) (fs : filesystem) (f : string) : path :=
  place fs (env_name fl f).

(** [os.Stat] finds the name, and finds a directory. *)
Definition is_folder_name (fs : filesystem) (name : string) : bool :=
  match os_Stat_name fs name with
  | inr i => IsDir i
  | inl _ => false
  end.

(** [os.Stat] finds the name. *)
Definition stat_ok_name (fs : filesystem) (name : string) : bool :=
  match os_Stat_name fs name with
  | inr _ => true
  | inl _ => false
  end.

(** The kinds that the calls of a trace work on, in order. *)
Definition kinds (t : list event) : list kind := omap kind_of (calls t).

Definition rank_le (a b : kind) : Prop := rank a <= rank b.

(** The calls of [t] work on kinds of [S] only, and never go back to a
    kind of lower rank. *)
Definition through (S : list kind) (t : list event) : Prop :=
  StronglySorted rank_le (kinds t) ∧ Forall (fun k => In k S) (kinds t).

(** A property of the trace of a computation, from any state. *)
Definition always {W A} (P : list event -> Prop) (m : M W A) : Prop :=
  forall w, P (trace_of (m w)).

(** The steps that a run goes through under its skip flags. *)
Definition plan (fl : flags) : list kind :=
  (if skipAuthconfigs fl then [] else [AuthConfig])
    ++ [Endpoint; ManagedZone]
    ++ (if skipConnectors fl then [] else [CustomConnector; Connector])
    ++ [SfdcInstance; SfdcChannel; Integration].

(** Two runs that differ in their log lines at most. *)
Definition same_run {W A} (o1 o2 : list event * W * (error + A)) : Prop :=
  calls (trace_of o1) = calls (trace_of o2)
  ∧ world_of o1 = world_of o2
  ∧ result_of o1 = result_of o2.

(** Whether a call works on one of the kinds [ks]. *)
Definition works_on (ks : list kind) (c : call) : bool :=
  match kind_of c with
  | Some k => existsb (fun k' => Nat.eqb (rank k) (rank k')) ks
  | None => false
  end.

(** The error that ends a walk: that of the first visit that carries
    one, for a callback that returns no error of its own. *)
Fixpoint first_error (vs : list visit) : option error :=
  match vs with
  | [] => None
  | v :: vs' =>
      match v_err v with
      | Some e => Some e
      | None => first_error vs'
      end
  end.

(** The content of a file, empty when it cannot be read. *)
Definition file_text (root : node) (p : path) : string :=
  match utils_ReadFile root p with
  | inr content => content
  | inl _ => ""
  end.

(** What one round of the loops of [processCodeFolders] does to the map. *)
Definition add_code (root : node) (task pre : string) (folder : path)
    (codeMap : CodeMap) (name : string) : CodeMap :=
  set_code task (code_key pre name) (inlined (file_text root (path_Join folder [name])))
    codeMap.

(** [codeMap[task][key]], when both are there. *)
Definition code_at (codeMap : CodeMap) (task key : string) : option string :=
  match codeMap !! task with
  | Some bucket => bucket !! key
  | None => None
  end.

(** A text with each newline character replaced by a backslash and the
    letter n, in the words of the specification. *)
Fixpoint newline_escaped (s : string) : string :=
  match s with
  | "" => ""
  | String c s' =>
      if Ascii.eqb c "010" then String "\" (String "n" (newline_escaped s'))
      else String c (newline_escaped s')
  end.

(** No other name of [names] is stored under the key of [name]. *)
Definition sole_key (pre : string) (names : list string) (name : string) : Prop :=
  forall other, In other names -> code_key pre other = code_key pre name -> other = name.

(** Every name of [names] can be read below [folder]. *)
Definition all_readable (root : node) (folder : path) (names : list string) : Prop :=
  Forall (fun n => exists c, utils_ReadFile root (path_Join folder [n]) = inr c) names.

(** The loops of [processCodeFolders] as a function of the files: the map
    after the names were stored, or the first error of reading one. *)
Fixpoint stored_codes (root : node) (task pre : string) (folder : path)
    (names : list string) (codeMap : CodeMap) : error + CodeMap :=
  match names with
  | [] => inr codeMap
  | name :: names' =>
      match utils_ReadFile root (path_Join folder [name]) with
      | inl err => inl err
      | inr content =>
          stored_codes root task pre folder names'
            (set_code task (code_key pre name) (inlined content) codeMap)
      end
  end.

Section Existing_resources.

Context {W : Type}.
Variable cl : Client W.
Variable fl : flags.
Variable root : node.

(** From the state [w], [m] leaves the platform as it is and makes no
    call of [bad]. *)
Definition quiet {A} (bad : call -> bool) (w : W) (m : M W A) : Prop :=
  world_of (m w) = w /\ avoids bad (trace_of (m w)).

(** What a guarded callback does with a visit whose lookup, if it is
    reached, reports the resource as existing: the platform is left as it
    is and nothing is created; and when the lookup is reached the callback
    returns [nil] after that one call. *)
Definition leaves_alone (k : kind) (fn : visit -> unit -> M W unit) : Prop :=
  forall (v : visit) (w : W),
    (file_visit v -> looked_up fl root k v = true ->
     reported_existing cl fl k w v = true) ->
    let o := fn v tt w in
    world_of o = w /\ existsb is_create (calls (trace_of o)) = false /\
    (file_visit v -> looked_up fl root k v = true ->
     result_of o = inr tt /\ exists c, calls (trace_of o) = [c] /\ is_probe c = true).

(** The lookups of the step of kind [k] report every file below [p] that
    they are asked about as existing. *)
Definition all_existing (k : kind) (p : path) (w : W) : Prop :=
  forall v, In v (visits root p) -> file_visit v ->
            looked_up fl root k v = true -> reported_existing cl fl k w v = true.

End Existing_resources.

(** ** Vocabulary of the steps and of their lookups *)

(** A visit of a regular file that [filepath.Walk] could stat, as a test. *)
Definition regular (v : visit) : bool := is_nil (v_err v) && negb (v_IsDir v).

(** The visits of the walk that a step makes on [p]: none when [p] is no
    folder. *)
Definition walked (root : node) (p : path) : list visit :=
  if is_folder root p then visits root p else [].

(** The lookup that a file of the folder of kind [k] is due, by its name. *)
Definition lookup_of (fl : flags) (k : kind) (file : string) : option call :=
  let name := getFilenameWithoutExtension file in
  match k with
  | AuthConfig => Some (authconfigs_Find name "")
  | Endpoint => Some (connections_FindEndpoint name)
  | ManagedZone => Some (connections_GetZone name true)
  | CustomConnector =>
      match strings_Split name (fileSplitter fl) with
      | [connector; version] => Some (connections_GetCustomVersion connector version false)
      | _ => None
      end
  | Connector => Some (connections_Get name "" true false)
  | SfdcInstance => Some (sfdc_GetInstance name true)
  | SfdcChannel =>
      match strings_Split name (fileSplitter fl) with
      | [instanceSegment; channelSegment] =>
          Some (sfdc_FindChannel channelSegment instanceSegment)
      | _ => None
      end
  | Integration => None
  end.

(** The lookup that the step of kind [k] owes to one visit: the one due
    to the name of a regular file that the step takes up. *)
Definition lookup_due (fl : flags) (root : node) (k : kind) (v : visit) : option call :=
  if regular v && looked_up fl root k v then lookup_of fl k (v_file v) else None.

(** The lookups that the step of kind [k] owes to the visits [vs], in
    their order. *)
Definition lookups_due (fl : flags) (root : node) (k : kind) (vs : list visit) : list call :=
  omap (lookup_due fl root k) vs.

(** The lookups on the kind [k] among the calls of a trace. *)
Definition is_lookup_on (k : kind) (c : call) : bool := is_probe c && works_on [k] c.

Definition lookups_on (k : kind) (t : list event) : list call :=
  List.filter (is_lookup_on k) (calls t).

Definition is_ok {A} (r : error + A) : bool :=
  match r with
  | inr _ => true
  | inl _ => false
  end.

(** The calls of the outcome [o] that [sel] picks are the first of [due],
    in order; where [full] is set and [o] has returned without an error
    they are all of [due]. *)
Definition meets {W A} (full : bool) (sel : call -> bool) (due : list call)
    (o : list event * W * (error + A)) : Prop :=
  List.filter sel (calls (trace_of o)) `prefix_of` due
  /\ (full = true -> is_ok (result_of o) = true ->
      List.filter sel (calls (trace_of o)) = due).

(** No call of the trace is one that [sel] picks. *)
Definition none_of (sel : call -> bool) (t : list event) : Prop :=
  List.filter sel (calls t) = [].

(** [sel] picks calls on the kind [k] only. *)
Definition picks_on (k : kind) (sel : call -> bool) : Prop :=
  forall c, sel c = true -> kind_of c = Some k.

(** The kinds whose step returns the error of its walk. *)
Definition is_checked (k : kind) : bool :=
  match k with
  | CustomConnector | Integration => false
  | _ => true
  end.

Section Plan.

Context {W : Type}.
Variable cl : Client W.
Variable Sprintf_other : Json.value -> string.
Variable fl : flags.

(** The step of a kind, on the folders of a run. *)
Definition step_of (root : node) (srcFolder folder : path) (k : kind) : M W unit :=
  match k with
  | AuthConfig => processAuthConfigs cl root (kind_folder folder AuthConfig)
  | Endpoint => processEndpoints cl root (kind_folder folder Endpoint)
  | ManagedZone => processManagedZones cl root (kind_folder folder ManagedZone)
  | CustomConnector =>
      processCustomConnectors cl fl root (kind_folder folder CustomConnector)
  | Connector =>
      processConnectors cl fl root (kind_folder folder Connector)
        (grantPermission fl) (createSecret fl) (wait fl)
  | SfdcInstance => processSfdcInstances cl root (kind_folder folder SfdcInstance)
  | SfdcChannel => processSfdcChannels cl fl root (kind_folder folder SfdcChannel)
  | Integration =>
      processIntegration cl Sprintf_other fl root
        (path_Join folder ["overrides"; "overrides.json"])
        (kind_folder srcFolder Integration)
        (path_Join folder ["config-variables"])
        (pipeline fl) (grantPermission fl)
  end.

(** The steps of the kinds [ks], one after the other, up to the first
    that returns an error. *)
Fixpoint in_turn (steps : kind -> M W unit) (ks : list kind) : M W unit :=
  match ks with
  | [] => ret tt
  | k :: ks' => steps k ;;; in_turn steps ks'
  end.

(** A run in the words of the specification: once the folder to apply is
    known to be a directory, the steps of the plan in their fixed order.
    This is the second definition of a run, to set beside [RunE]. *)
Definition planned_run (disk : string -> filesystem) : M W unit :=
  f <- scaffold_folder cl fl ;;;
  let fs := disk f in
  match os_Stat_name fs (env_name fl f) with
  | inl err => throw (fmt_Errorf_w "problem with supplied path, %w" (Some err))
  | inr stat =>
      if negb (IsDir stat)
      then throw (fmt_Errorf_w "problem with supplied path, %w" None)
      else
        invoke apiclient_DisableCmdPrintHttpResponse (fun w => (tt, w)) ;;;
        in_turn (step_of (fs_root fs) (place fs f) (env_folder fl fs f)) (plan fl)
  end.

End Plan.

(** The lookup of a channel, from the name of its file: the two segments
    of the name stand for the instance and the channel, in that order,
    and [sfdc.FindChannel] is to get them the other way round. *)
Definition channel_lookup (fl : flags) (v : visit) : option call :=
  if regular v && MatchString rJSONFiles (v_file v) then
    match strings_Split (getFilenameWithoutExtension (v_file v)) (fileSplitter fl) with
    | [instanceSegment; channelSegment] =>
        Some (sfdc_FindChannel channelSegment instanceSegment)
    | _ => None
    end
  else None.

Definition is_channel_lookup (c : call) : bool :=
  match c with
  | sfdc_FindChannel _ _ => true
  | _ => false
  end.

(** The calls of [sfdc.FindChannel] of a trace. *)
Definition channel_lookups (t : list event) : list call :=
  List.filter is_channel_lookup (calls t).

(** A version of the integration [name] is created, with the label and
    the permission of the flags and without a snapshot. *)
Definition creates_version (fl : flags) (name : string) (t : list event) : Prop :=
  exists content overrides,
    In (integrations_CreateVersion name content overrides "" (userLabel fl)
          (grantPermission fl)) (calls t).

(** The client that answers as [cl] does, but for the lookup of an auth
    config, of which it returns the version and never an error. *)
Definition without_lookup_error {W} (cl : Client W) : Client W := {|
  do_GetCloudDeployGCSLocations := do_GetCloudDeployGCSLocations cl;
  do_ExtractTgz := do_ExtractTgz cl;
  do_authconfigs_Find := fun w name pageToken =>
    (fst (do_authconfigs_Find cl w name pageToken), None);
  do_authconfigs_Create := do_authconfigs_Create cl;
  do_FindEndpoint := do_FindEndpoint cl;
  do_CreateEndpoint := do_CreateEndpoint cl;
  do_GetZone := do_GetZone cl;
  do_CreateZone := do_CreateZone cl;
  do_connections_Get := do_connections_Get cl;
  do_connections_Create := do_connections_Create cl;
  do_GetCustomVersion := do_GetCustomVersion cl;
  do_CreateCustomWithVersion := do_CreateCustomWithVersion cl;
  do_GetInstance := do_GetInstance cl;
  do_CreateInstanceFromContent := do_CreateInstanceFromContent cl;
  do_FindChannel := do_FindChannel cl;
  do_CreateChannelFromContent := do_CreateChannelFromContent cl;
  do_SetCode := do_SetCode cl;
  do_CreateVersion := do_CreateVersion cl;
  do_CreateTestCase := do_CreateTestCase cl;
  do_Publish := do_Publish cl;
  do_WriteResultsFile := do_WriteResultsFile cl;
|}.

(** What the callback of the auth configs does for a file whose lookup
    has returned the empty version: the two log lines and the two calls
    of a creation. *)
Definition creation_attempt (file content : string) : list event :=
  [Printf Info "Found configuration for authconfig: %s\n" [AStr file];
   Call (authconfigs_Find (getFilenameWithoutExtension file) "");
   Printf Info "Creating authconfig: %s\n" [AStr file];
   Call (authconfigs_Create content)].

(** ** Sample folders *)

Module Sample.

Import Sim.

(** A JSON object with one member. *)
Definition object1 (key value : string) : string :=
  "{" +:+ quoted key +:+ ":" +:+ quoted value +:+ "}".

Definition named (name : string) : node := text (object1 "name" name).

(** The file system in which the scaffold folder [scaffold] of the sample
    flags holds [root], seen from the directory above it. *)
Definition on_disk (root : node) : string -> filesystem :=
  fun _ => {| fs_root := Dir [("scaffold", root)]; fs_cwd := [] |}.

Definition file_at (p : path) : visit :=
  {| v_path := p; v_info := Some {| IsDir := false |}; v_err := None |}.

Definition dir_at (p : path) : visit :=
  {| v_path := p; v_info := Some {| IsDir := true |}; v_err := None |}.

(** One custom connector, one SFDC instance, one SFDC channel. *)
Definition refused_folder : node := Dir [
  ("custom-connectors", Dir [("cc__1.json", text "{}")]);
  ("sfdcchannels", Dir [("i1__ch1.json", named "ch1")]);
  ("sfdcinstances", Dir [("i1.json", named "i1")])].

(** A file that is no JSON file in the endpoints and in the zones folder. *)
Definition notes_folder : node := Dir [
  ("endpoints", Dir [("notes.txt", text (object1 "serviceAttachment" "sa"))]);
  ("zones", Dir [("notes.txt", text "zone notes")])].

(** One integration with one JavaScript file, nothing else. *)
Definition integration_folder : node := Dir [
  ("src", Dir [("javascript", Dir [("javascript_1.js", text "return 1;")]);
               ("sample.json", text "{}")])].

(** One connector and one integration. *)
Definition connector_folder : node := Dir [
  ("connectors", Dir [("c1.json", text "{}")]);
  ("src", Dir [("sample.json", text "{}")])].

(** One file of each guarded kind, and a channel file and a custom
    connector file whose names do not split in two. *)
Definition full_folder : node := Dir [
  ("authconfigs", Dir [("a1.json", named "a1")]);
  ("connectors", Dir [("c1.json", text "{}")]);
  ("custom-connectors", Dir [("cc__1.json", text "{}"); ("plain.json", text "{}")]);
  ("endpoints", Dir [("e1.json", text (object1 "serviceAttachment" "sa"))]);
  ("sfdcchannels", Dir [("i1__ch1.json", named "ch1"); ("plain.json", named "x")]);
  ("sfdcinstances", Dir [("i1.json", named "i1")]);
  ("zones", Dir [("z1.json", text "{}")])].

(** A code folder whose only file has a longer name than the pattern. *)
Definition prefixed_code_folder : node := Dir [
  ("javascript", Dir [("xjavascript_1.js", text "return 1;")])].

(** A code folder with a script of two lines. *)
Definition code_folder : node := Dir [
  ("datatransformer", Dir [("datatransformer_2.jsonnet", text "local x = 1; x")]);
  ("javascript", Dir [("javascript_1.js",
                       text ("let a = 1;" +:+ String "010" "return a;"))])].

End Sample.

(** ** Vocabulary of the further properties *)

(** The flags name one source of the scaffold: a folder and nothing of a
    release, or a release in full and no folder. *)
Definition one_source (fl : flags) : Prop :=
  (folder fl <> "" /\ pipeline fl = "" /\ release fl = "" /\ outputGCSPath fl = "")
  \/ (folder fl = "" /\ pipeline fl <> "" /\ release fl <> "" /\ outputGCSPath fl <> "").

(** The calls that fetch a release or report on it. *)
Definition is_release_call (c : call) : bool :=
  match c with
  | apiclient_GetCloudDeployGCSLocations _ _ | apiclient_ExtractTgz _
  | apiclient_WriteResultsFile _ _ => true
  | _ => false
  end.

(** A text without a dot and without a slash. *)
Definition plain_ext (ext : string) : bool :=
  forallb (fun c => negb (is_dot c) && negb (is_sep c)) (bytes_of ext).

(** An endpoint attachment created without a service attachment. *)
Definition is_bare_endpoint (c : call) : bool :=
  match c with
  | connections_CreateEndpoint _ serviceAttachment _ _ => is_empty serviceAttachment
  | _ => false
  end.

(** [p] is the lookup of the resource that [c] creates. *)
Definition asks_for (p c : call) : bool :=
  match p, c with
  | authconfigs_Find _ _, authconfigs_Create _ => true
  | connections_FindEndpoint n, connections_CreateEndpoint n' _ _ _ => String.eqb n n'
  | connections_GetZone n _, connections_CreateZone n' _ => String.eqb n n'
  | connections_Get n _ _ _, connections_Create n' _ _ _ _ _ _ _ => String.eqb n n'
  | connections_GetCustomVersion n v _, connections_CreateCustomWithVersion n' v' _ _ _ =>
      String.eqb n n' && String.eqb v v'
  | sfdc_GetInstance _ _, sfdc_CreateInstanceFromContent _ => true
  | sfdc_FindChannel _ _, sfdc_CreateChannelFromContent _ _ => true
  | _, _ => false
  end.

(** Every guarded creation of [cs] comes right after its lookup; [prev]
    is the call before [cs]. *)
Fixpoint probed_after (prev : option call) (cs : list call) : bool :=
  match cs with
  | [] => true
  | c :: cs' =>
      (if is_guarded_create c
       then match prev with Some p => asks_for p c | None => false end
       else true)
      && probed_after (Some c) cs'
  end.

(** Every guarded creation of the trace [t] comes right after its
    lookup. *)
Definition probed (t : list event) : Prop := probed_after None (calls t) = true.

(** The creations of test cases for the files [names] of [folder], in
    order. *)
Definition test_case_calls (root : node) (folder : path)
    (integrationName version : string) (names : list string) : list call :=
  map (fun name => integrations_CreateTestCase integrationName version
                     (file_text root (path_Join folder [name])))
    names.

(** One round of the loop of [processTestCases]. *)
Definition create_test_case {W} (cl : Client W) (root : node) (folder : path)
    (integrationName version : string) (testCaseFile : string) (_ : unit) : M W unit :=
  testCaseBytes <- lift (utils_ReadFile root (path_Join folder [testCaseFile])) ;;;
  err <- invoke (integrations_CreateTestCase integrationName version testCaseBytes)
           (fun w => do_CreateTestCase cl w integrationName version testCaseBytes) ;;;
  check err.

(** The two task types that a code map always has. *)
Definition task_types : gset string := {["JavaScriptTask"; "JsonnetMapperTask"]}.

(** [e] is the error of reading one of the files [names] of [folder]. *)
Definition read_error_of (root : node) (folder : path) (names : list string)
    (e : error) : Prop :=
  exists name, In name names /\ utils_ReadFile root (path_Join folder [name]) = inl e.

(** A trace of log lines only. *)
Definition no_calls (t : list event) : Prop := calls t = [].

(** The creation of a test case for the version [version] of [name]. *)
Definition is_test_case_of (name version : string) (c : call) : bool :=
  match c with
  | integrations_CreateTestCase n v _ => String.eqb n name && String.eqb v version
  | _ => false
  end.

(** The end of the integration step: nothing, or the publication of
    [version], or the publication and then the results file, which is
    written for a pipeline only, to [gcsPath] and with [SUCCEEDED]. *)
Definition published_then (pipeline gcsPath name version : string) (cs : list call)
  : bool :=
  match cs with
  | [] => true
  | [integrations_Publish n v _] => String.eqb n name && String.eqb v version
  | [integrations_Publish n v _; apiclient_WriteResultsFile path status] =>
      String.eqb n name && String.eqb v version && negb (is_empty pipeline)
      && String.eqb path gcsPath && String.eqb status "SUCCEEDED"
  | _ => false
  end.

(** Test cases of [version], and then the end of the step. *)
Fixpoint tests_then (pipeline gcsPath name version : string) (cs : list call) : bool :=
  match cs with
  | integrations_CreateTestCase n v _ :: cs' =>
      String.eqb n name && String.eqb v version
      && tests_then pipeline gcsPath name version cs'
  | _ => published_then pipeline gcsPath name version cs
  end.

(** The version that the call after the creation of a version names. *)
Definition version_of (cs : list call) : string :=
  match cs with
  | integrations_CreateTestCase _ v _ :: _ | integrations_Publish _ v _ :: _ => v
  | _ => ""
  end.

(** The calls of the integration step: none; or the creation of one
    version, without a snapshot and with the user label, then test cases
    of one version of that integration, then the end of the step. *)
Definition integration_shape (pipeline gcsPath label : string) (cs : list call) : bool :=
  match cs with
  | [] => true
  | integrations_CreateVersion name _ _ snapshot userlabel _ :: cs' =>
      is_empty snapshot && String.eqb userlabel label
      && tests_then pipeline gcsPath name (version_of cs') cs'
  | _ => false
  end.

(** The calls of a trace that work on the integration. *)
Definition integration_calls (t : list event) : list call :=
  List.filter (works_on [Integration]) (calls t).

(** A trace without a call on the integration. *)
Definition no_integration_calls (t : list event) : Prop := integration_calls t = [].

(** The calls of [t] on the integration have the shape of the step, for
    the flags [fl]. *)
Definition shaped (fl : flags) (t : list event) : Prop :=
  integration_shape (pipeline fl) (outputGCSPath fl) (userLabel fl) (integration_calls t)
  = true.

(** The calls [cs] end with the publication of the integration [name],
    followed, for a pipeline, by the results file. *)
Definition ends_published (pipeline gcsPath name : string) (cs : list call) : Prop :=
  exists before version configVars,
    cs = before ++ integrations_Publish name version configVars
                   :: (if is_empty pipeline then []
                       else [apiclient_WriteResultsFile gcsPath "SUCCEEDED"]).

(** The creation of a version. *)
Definition is_version (c : call) : bool :=
  match c with
  | integrations_CreateVersion _ _ _ _ _ _ => true
  | _ => false
  end.

(** The content of the overrides file as [processIntegration] passes it
    on: empty when the file is not there. *)
Definition overrides_text (root : node) (overridesFile : path) : string :=
  if stat_ok root overridesFile then file_text root overridesFile else "".

(** The six steps that return the error of their walk, each with the
    callback that it hands to [filepath.Walk]. *)
Definition checked_steps {W} (cl : Client W) (fl : flags) (root : node)
  : list ((path -> M W unit) * (visit -> unit -> M W unit)) :=
  [ (processAuthConfigs cl root, processAuthConfigs_fn cl root);
    (processEndpoints cl root, processEndpoints_fn cl root);
    (processManagedZones cl root, processManagedZones_fn cl root);
    (fun p => processConnectors cl fl root p (grantPermission fl) (createSecret fl) (wait fl),
     processConnectors_fn cl fl root (grantPermission fl) (createSecret fl) (wait fl));
    (processSfdcInstances cl root, processSfdcInstances_fn cl root);
    (processSfdcChannels cl fl root, processSfdcChannels_fn cl fl root) ].

(** What a lookup asks for: the name of the resource, or the two parts
    of its name, the channel after its instance. *)
Definition lookup_key (c : call) : list string :=
  match c with
  | authconfigs_Find name _ | connections_FindEndpoint name
  | connections_GetZone name _ | connections_Get name _ _ _
  | sfdc_GetInstance name _ => [name]
  | connections_GetCustomVersion name version _ => [name; version]
  | sfdc_FindChannel name instance => [instance; name]
  | _ => []
  end.

(** The key that the step of kind [k] derives from a file name. *)
Definition file_key (fl : flags) (k : kind) (file : string) : list string :=
  match k with
  | CustomConnector | SfdcChannel =>
      strings_Split (getFilenameWithoutExtension file) (fileSplitter fl)
  | _ => [getFilenameWithoutExtension file]
  end.

(** The lists of runes that a pattern matches in full. *)
Inductive matches : regex -> list rune -> Prop :=
| matches_Eps : matches Eps []
| matches_Chr (p : rune -> bool) (a : rune) : p a = true -> matches (Chr p) [a]
| matches_Cat (r1 r2 : regex) (l1 l2 : list rune) :
    matches r1 l1 -> matches r2 l2 -> matches (Cat r1 r2) (l1 ++ l2)
| matches_Alt_l (r1 r2 : regex) (l : list rune) : matches r1 l -> matches (Alt r1 r2) l
| matches_Alt_r (r1 r2 : regex) (l : list rune) : matches r2 l -> matches (Alt r1 r2) l
| matches_Star_nil (r : regex) : matches (Star r) []
| matches_Star_cons (r : regex) (l1 l2 : list rune) :
    matches r l1 -> matches (Star r) l2 -> matches (Star r) (l1 ++ l2).

(** The runes of an ASCII text. *)
Definition ascii_runes (s : string) : list rune := map RAscii (bytes_of s).

(** The first [skip] bytes of [l] are there and are none of ASCII. *)
Fixpoint continues (skip : nat) (l : list ascii) : Prop :=
  match skip with
  | 0 => True
  | S k =>
      match l with
      | [] => False
      | c :: l' => (byte_val c <? 128)%N = false /\ continues k l'
      end
  end.

(** The publication of a version. *)
Definition is_publish (c : call) : bool :=
  match c with
  | integrations_Publish _ _ _ => true
  | _ => false
  end.

(** The configuration variables that [processIntegration] publishes for
    the integration [name]: the content of its file in the folder of
    configuration variables, empty when the file is not there. *)
Definition config_variables (root : node) (configVarsFolder : path) (name : string)
  : string :=
  let configVarsFile := path_Join configVarsFolder [name +:+ "-config.json"] in
  if stat_ok root configVarsFile then file_text root configVarsFile else "".

(** A byte that a JSON string literal holds as it is: printable ASCII,
    no double quote, no backslash. *)
Definition plain_byte (c : ascii) : bool :=
  negb (Ascii.eqb c dquote) && negb (byte_val c <? 32)%N && negb (Ascii.eqb c "\")
  && (byte_val c <? 128)%N.

Definition plain_text (s : string) : bool := forallb plain_byte (bytes_of s).

(** A member of a JSON object, and an object of string members, written
    without white space. *)
Definition member_text (kv : string * string) : string :=
  quoted (fst kv) +:+ ":" +:+ quoted (snd kv).

Definition object_text (members : list (string * string)) : string :=
  "{" +:+ String.concat "," (map member_text members) +:+ "}".

Definition plain_members (members : list (string * string)) : bool :=
  forallb (fun kv => plain_text (fst kv) && plain_text (snd kv)) members.

(** [m[key]] for the map that the members [l] build: the last member
    with that key. *)
Fixpoint binding {A} (key : string) (l : list (string * A)) : option A :=
  match l with
  | [] => None
  | (k, v) :: l' =>
      match binding key l' with
      | Some v' => Some v'
      | None => if String.eqb k key then Some v else None
      end
  end.

(** A text without a slash. *)
Definition no_slash (s : string) : bool := forallb (fun c => negb (is_sep c)) (bytes_of s).

(** ** Further sample folders and flags *)

Module Cases.

Import Sim Sample.

(** Flags that name a folder and a pipeline at once. *)
Definition two_sources : flags := {|
  folder := "scaffold"; pipeline := "deploy"; release := ""; outputGCSPath := "";
  userLabel := ""; serviceAccountName := ""; serviceAccountProject := "";
  encryptionKey := ""; env := "";
  grantPermission := false; createSecret := false; wait := false;
  skipConnectors := false; skipAuthconfigs := false; useUnderscore := false;
|}.

(** An integration with a Jsonnet file in its code folder. *)
Definition jsonnet_folder : node := Dir [
  ("src", Dir [("datatransformer",
                Dir [("datatransformer_1.jsonnet", text "local x = 1; x")]);
               ("sample.json", text "{}")])].

(** An integration with overrides and configuration variables. *)
Definition configured_folder : node := Dir [
  ("config-variables", Dir [("sample-config.json", text (object1 "region" "eu"))]);
  ("overrides", Dir [("overrides.json", text (object1 "label" "x"))]);
  ("src", Dir [("sample.json", text "{}")])].

(** An endpoint file with a port number beside the attachment. *)
Definition attachment_with_port : string :=
  "{" +:+ quoted "serviceAttachment" +:+ ":" +:+ quoted "sa" +:+ ","
      +:+ quoted "port" +:+ ":443}".

(** A response with the name of a version and its state. *)
Definition version_response : list (string * string) :=
  [("name", "projects/p/locations/l/integrations/i/versions/42"); ("state", "DRAFT")].

(** An endpoint file with a description before the attachment. *)
Definition attachment_file : list (string * string) :=
  [("description", "the payments service"); ("serviceAttachment", "sa")].

End Cases.

(** * Properties *)

(** Unfolds the operations of the monad. *)
Ltac run :=
  cbv beta delta
    [bind ret throw catch check lift emit query invoke clilog_Info clilog_Warning]
    iota.

(** ** Traces *)

Lemma calls_app (t1 t2 : list event) : calls (t1 ++ t2) = calls t1 ++ calls t2.
Proof. unfold calls. apply omap_app. Qed.

Lemma kinds_app (t1 t2 : list event) : kinds (t1 ++ t2) = kinds t1 ++ kinds t2.
Proof. unfold kinds. rewrite calls_app. apply omap_app. Qed.

(** ** Names and places *)

Lemma elements_not_nil (name : string) : elements name <> [].
Proof.
  destruct name as [|c rest]; simpl; [discriminate|].
  destruct (is_sep c); [discriminate|]. destruct (elements rest); discriminate.
Qed.

Lemma elements_cons (c : ascii) (rest : string) :
  is_sep c = false ->
  exists e es, elements rest = e :: es /\ elements (String c rest) = String c e :: es.
Proof.
  intros Hc. simpl. rewrite Hc. destruct (elements rest) as [|e es] eqn:E.
  - now destruct (elements_not_nil rest).
  - eauto.
Qed.

Lemma elements_join (a b : string) :
  elements (a +:+ "/" +:+ b) = elements a ++ elements b.
Proof.
  induction a as [|c a IH].
  - reflexivity.
  - change (String c a +:+ "/" +:+ b) with (String c (a +:+ "/" +:+ b)).
    cbn [elements]. rewrite IH. destruct (is_sep c); [reflexivity|].
    destruct (elements a) as [|e es] eqn:E; [now destruct (elements_not_nil a)|].
    reflexivity.
Qed.

Lemma elements_one (e : string) : no_sep e -> elements e = [e].
Proof.
  unfold no_sep. induction e as [|c e IH]; intros H; [reflexivity|].
  simpl in H. apply Forall_cons in H as [Hc H]. simpl. rewrite Hc, (IH H). reflexivity.
Qed.

Lemma elements_no_sep (name : string) : Forall no_sep (elements name).
Proof.
  induction name as [|c rest IH]; simpl.
  - repeat constructor.
  - destruct (is_sep c) eqn:Hc.
    + constructor; [constructor|exact IH].
    + destruct (elements rest) as [|e es]; [repeat constructor; exact Hc|].
      apply Forall_cons in IH as [He Hes]. constructor; [|exact Hes].
      constructor; [exact Hc|exact He].
Qed.

Lemma lexical_app (cur : path) (es1 es2 : list string) :
  lexical cur (es1 ++ es2) = lexical (lexical cur es1) es2.
Proof. revert cur. induction es1 as [|e es1 IH]; intros cur; simpl; [reflexivity|apply IH]. Qed.

Lemma lexical_entry (cur : path) (e : string) :
  e <> "" -> e <> "." -> e <> ".." -> lexical cur [e] = cur ++ [e].
Proof.
  intros H1 H2 H3. simpl.
  apply String.eqb_neq in H1, H2, H3. now rewrite H1, H2, H3.
Qed.

(** What the system reaches by following a name is where the name lies. *)
Lemma follow_lexical (root : node) (cur p : path) (elems : list string) :
  follow root cur elems = inr p -> p = lexical cur elems.
Proof.
  revert cur. induction elems as [|e es IH]; intros cur; simpl.
  - now intros [= <-].
  - destruct (String.eqb_spec e "") as [->|N1]; simpl.
    { destruct (resolve "stat" cur root cur) as [err|[]]; try discriminate; apply IH. }
    destruct (String.eqb_spec e ".") as [->|N2]; simpl.
    { destruct (resolve "stat" cur root cur) as [err|[]]; try discriminate; apply IH. }
    destruct (String.eqb_spec e "..") as [->|N3]; simpl.
    { destruct (resolve "stat" cur root cur) as [err|[]]; try discriminate; apply IH. }
    apply IH.
Qed.

(** A name that [os.Stat] finds is found at its place. *)
Lemma stat_at_place (fs : filesystem) (name : string) (i : FileInfo) :
  os_Stat_name fs name = inr i -> os_Stat (fs_root fs) (place fs name) = inr i.
Proof.
  unfold os_Stat_name, place. destruct (String.eqb name ""); [discriminate|].
  destruct (follow _ _ _) as [e|p] eqn:E; [discriminate|].
  now rewrite (follow_lexical _ _ _ _ E).
Qed.

Lemma removelast_snoc {A} (l : list A) (a : A) : removelast (l ++ [a]) = l.
Proof. apply removelast_last. Qed.

Lemma clean_lexical (rooted : bool) (start : path) (elems out : list string) :
  Forall written out ->
  (rooted = true -> start = [] /\ Forall (fun e => e <> "..") out) ->
  lexical start (clean_elements rooted out elems) = lexical start (rev out ++ elems)
  /\ Forall written (clean_elements rooted out elems).
Proof.
  revert out. induction elems as [|e es IH]; intros out Hw Hr.
  - simpl. rewrite app_nil_r. split; [reflexivity|]. now apply Forall_rev.
  - cbn [clean_elements]. rewrite lexical_app. cbn [lexical].
    destruct (String.eqb_spec e "") as [->|N1]; cbn [orb].
    { rewrite <- lexical_app. now apply IH. }
    destruct (String.eqb_spec e ".") as [->|N2].
    { rewrite <- lexical_app. now apply IH. }
    destruct (String.eqb_spec e "..") as [->|N3].
    + destruct out as [|l out']; cbn [can_backtrack].
      * destruct rooted; cbn [negb].
        -- destruct (Hr eq_refl) as [-> _]. simpl. now apply IH.
        -- destruct (IH [".."]) as [H1 H2]; [repeat constructor; discriminate|discriminate|].
           split; [|exact H2]. rewrite H1. reflexivity.
      * apply Forall_cons in Hw as [Hl Hw].
        destruct (String.eqb_spec l "..") as [->|Nl]; cbn [negb].
        -- destruct rooted; cbn [negb].
           ++ destruct (Hr eq_refl) as [_ Hd]. apply Forall_cons in Hd as [Hd _].
              now destruct Hd.
           ++ destruct (IH (".." :: ".." :: out')) as [H1 H2];
                [repeat constructor; try discriminate; exact Hw|discriminate|].
              split; [|exact H2]. rewrite H1. cbn [rev]. rewrite <- !app_assoc, !lexical_app.
              reflexivity.
        -- cbn [tl]. destruct (IH out') as [H1 H2]; [exact Hw| |].
           { intros R. destruct (Hr R) as [S Hd]. split; [exact S|].
             now apply Forall_cons in Hd as [_ Hd]. }
           split; [|exact H2]. rewrite H1, lexical_app. f_equal.
           cbn [rev]. rewrite lexical_app, lexical_entry; [|apply Hl|apply Hl|exact Nl].
           now rewrite removelast_snoc.
    + destruct (IH (e :: out)) as [H1 H2].
      { constructor; [split; assumption|exact Hw]. }
      { intros R. destruct (Hr R) as [S Hd]. split; [exact S|]. now constructor. }
      split; [|exact H2]. rewrite H1. cbn [rev]. rewrite <- app_assoc, !lexical_app.
      cbn [lexical app]. apply String.eqb_neq in N1, N2, N3. now rewrite N1, N2, N3.
Qed.

Lemma clean_no_sep (rooted : bool) (elems out : list string) :
  Forall no_sep out -> Forall no_sep elems ->
  Forall no_sep (clean_elements rooted out elems).
Proof.
  revert out. induction elems as [|e es IH]; intros out Ho He; simpl.
  - now apply Forall_rev.
  - apply Forall_cons in He as [He Hes].
    destruct (String.eqb e "" || String.eqb e "."); [now apply IH|].
    destruct (String.eqb e "..").
    + destruct (can_backtrack out).
      * apply IH; [|exact Hes]. destruct out; [constructor|]. now apply Forall_cons in Ho as [_ Ho].
      * destruct (negb rooted); apply IH; try assumption. now constructor.
    + apply IH; [now constructor|exact Hes].
Qed.

Lemma concat_cons (e e' : string) (es : list string) :
  String.concat "/" (e :: e' :: es) = e +:+ "/" +:+ String.concat "/" (e' :: es).
Proof. reflexivity. Qed.

Lemma elements_concat (out : list string) :
  Forall no_sep out -> out <> [] -> elements (String.concat "/" out) = out.
Proof.
  induction out as [|e [|e' es] IH]; intros H Hn.
  - contradiction.
  - apply Forall_cons in H as [He _]. simpl. now apply elements_one.
  - apply Forall_cons in H as [He H]. rewrite concat_cons, elements_join.
    rewrite (elements_one e He), IH; [reflexivity|exact H|discriminate].
Qed.

Lemma is_rooted_app (a b : string) : a <> "" -> is_rooted (a +:+ b) = is_rooted a.
Proof. destruct a; [contradiction|reflexivity]. Qed.

Lemma not_rooted_entry (e : string) : e <> "" -> no_sep e -> is_rooted e = false.
Proof.
  destruct e as [|c e]; [contradiction|]. intros _ H. unfold no_sep in H. simpl in H.
  now apply Forall_cons in H as [H _].
Qed.

Lemma not_rooted_concat (out : list string) :
  Forall written out -> Forall no_sep out -> is_rooted (String.concat "/" out) = false.
Proof.
  destruct out as [|e [|e' es]]; intros Hw Hs; [reflexivity| |].
  - apply Forall_cons in Hw as [[He _] _]. apply Forall_cons in Hs as [Hs _].
    now apply not_rooted_entry.
  - apply Forall_cons in Hw as [[He _] _]. apply Forall_cons in Hs as [Hs _].
    rewrite concat_cons, is_rooted_app by exact He. now apply not_rooted_entry.
Qed.

(** [path.Clean] leaves a name at its place. *)
Lemma place_Clean (fs : filesystem) (name : string) :
  place fs (path_Clean name) = place fs name.
Proof.
  unfold path_Clean. destruct (String.eqb_spec name "") as [->|Hn]; [reflexivity|].
  unfold place, start_of.
  set (rooted := is_rooted name).
  pose proof (elements_no_sep name) as Hs.
  destruct rooted eqn:R; subst rooted.
  - destruct (clean_lexical true [] (elements name) []) as [H1 H2];
      [constructor|intros _; split; constructor|].
    pose proof (clean_no_sep true (elements name) [] (List.Forall_nil _) Hs) as H3.
    cbn [app rev] in H1. rewrite <- H1.
    change (is_rooted ("/" +:+ String.concat "/" (clean_elements true [] (elements name))))
      with true. cbv iota.
    change ("/" +:+ String.concat "/" (clean_elements true [] (elements name)))
      with ("" +:+ "/" +:+ String.concat "/" (clean_elements true [] (elements name))).
    rewrite elements_join, lexical_app. cbn [elements lexical String.eqb orb].
    destruct (clean_elements true [] (elements name)) as [|e es] eqn:E; [reflexivity|].
    rewrite elements_concat; [reflexivity|exact H3|discriminate].
  - destruct (clean_lexical false (fs_cwd fs) (elements name) []) as [H1 H2];
      [constructor|discriminate|].
    pose proof (clean_no_sep false (elements name) [] (List.Forall_nil _) Hs) as H3.
    cbn [app rev] in H1. rewrite <- H1.
    destruct (clean_elements false [] (elements name)) as [|e es] eqn:E; [reflexivity|].
    rewrite not_rooted_concat by assumption.
    rewrite elements_concat; [reflexivity|exact H3|discriminate].
Qed.

Lemma string_length_zero (s : string) : String.length s = 0 <-> s = "".
Proof. destruct s; simpl; split; intros H; try reflexivity; discriminate. Qed.

(** Where [path.Join] of a folder name and a second name lies: the
    elements of the second name are read from the place of the folder. *)
Lemma place_Join_names (fs : filesystem) (f e : string) :
  e <> "" -> f <> "" \/ is_rooted e = false ->
  place fs (path_Join_names [f; e]) = lexical (place fs f) (elements e).
Proof.
  intros He Hf. unfold path_Join_names.
  destruct (Nat.eqb_spec (list_sum (map String.length [f; e])) 0) as [Z|_].
  { destruct e; [contradiction|]. simpl in Z. lia. }
  cbn [fold_left]. change (0 <? String.length "")%nat with false. cbv iota.
  rewrite place_Clean.
  destruct (String.eqb_spec f "") as [->|Nf]; cbn [negb].
  - change (0 <? String.length "")%nat with false. cbv iota.
    apply String.eqb_neq in He. rewrite He. cbn [negb].
    destruct Hf as [Hf|Hf]; [contradiction|].
    unfold place, start_of. rewrite Hf. reflexivity.
  - assert (L : (0 <? String.length f)%nat = true).
    { apply Nat.ltb_lt. destruct f; [contradiction|simpl; lia]. }
    rewrite L. unfold place, start_of.
    rewrite is_rooted_app by exact Nf. now rewrite elements_join, lexical_app.
Qed.

(** The folder of a kind, the file of the overrides and the like: the
    place of [path.Join] of a folder name and the name of an entry is
    the entry below the place of the folder. *)
Lemma place_Join_entry (fs : filesystem) (f e : string) :
  entry_name e -> place fs (path_Join_names [f; e]) = path_Join (place fs f) [e].
Proof.
  intros (H1 & H2 & H3 & H4).
  rewrite place_Join_names; [|exact H1|right; now apply not_rooted_entry].
  rewrite (elements_one e H4). now apply lexical_entry.
Qed.

(** ** The order of the steps *)

Lemma through_nil (S : list kind) : through S [].
Proof. split; constructor. Qed.

Lemma through_weaken (S S' : list kind) (t : list event) :
  through S t -> (forall k, In k S -> In k S') -> through S' t.
Proof.
  intros [Hs Hin] Hsub. split; [exact Hs|].
  rewrite List.Forall_forall in *. auto.
Qed.

Lemma sorted_app (l1 l2 : list kind) :
  StronglySorted rank_le l1 -> StronglySorted rank_le l2 ->
  (forall a b, In a l1 -> In b l2 -> rank_le a b) ->
  StronglySorted rank_le (l1 ++ l2).
Proof.
  induction l1 as [|x l1 IH]; intros H1 H2 Hle; simpl; [exact H2|].
  apply StronglySorted_inv in H1 as [H1 Hx].
  constructor.
  - apply IH; [exact H1|exact H2|]. intros a b Ha Hb. apply Hle; [now right|exact Hb].
  - apply List.Forall_app. split; [exact Hx|].
    apply List.Forall_forall. intros b Hb. apply Hle; [now left|exact Hb].
Qed.

Lemma through_app (S1 S2 : list kind) (t1 t2 : list event) :
  through S1 t1 -> through S2 t2 ->
  (forall a b, In a S1 -> In b S2 -> rank_le a b) ->
  through (S1 ++ S2) (t1 ++ t2).
Proof.
  intros [Hs1 Hin1] [Hs2 Hin2] Hle. split; rewrite kinds_app.
  - apply sorted_app; [exact Hs1|exact Hs2|].
    intros a b Ha Hb. apply Hle.
    + rewrite List.Forall_forall in Hin1. auto.
    + rewrite List.Forall_forall in Hin2. auto.
  - apply List.Forall_app. split.
    + rewrite List.Forall_forall in *. intros. apply in_or_app. left. auto.
    + rewrite List.Forall_forall in *. intros. apply in_or_app. right. auto.
Qed.

Lemma through_same (k : kind) (t1 t2 : list event) :
  through [k] t1 -> through [k] t2 -> through [k] (t1 ++ t2).
Proof.
  intros H1 H2. eapply through_weaken.
  - apply (through_app [k] [k]); [exact H1|exact H2|].
    intros a b [<-|[]] [<-|[]]. unfold rank_le. lia.
  - intros k' [<-|[<-|[]]]; now left.
Qed.

(** A property of traces that holds of the parts of a computation holds
    of the whole. *)
Section Always.

Context {W : Type}.

Lemma trace_bind {A B} (m : M W A) (k : A -> M W B) (w : W) :
  trace_of (bind m k w) =
    trace_of (m w) ++
      match result_of (m w) with
      | inl _ => []
      | inr a => trace_of (k a (world_of (m w)))
      end.
Proof.
  unfold bind, trace_of, world_of, result_of.
  destruct (m w) as [[t1 w1] [e|a]]; simpl; [now rewrite app_nil_r|].
  destruct (k a w1) as [[t2 w2] r]. reflexivity.
Qed.

Lemma always_bind {A B} (P1 P2 P : list event -> Prop)
    (m : M W A) (k : A -> M W B) :
  (forall t1 t2, P1 t1 -> P2 t2 -> P (t1 ++ t2)) ->
  P2 [] ->
  always P1 m -> (forall a, always P2 (k a)) -> always P (bind m k).
Proof.
  intros Happ Hnil Hm Hk w. rewrite trace_bind.
  apply Happ; [apply Hm|]. destruct (result_of (m w)); [exact Hnil|apply Hk].
Qed.

Lemma always_ret {A} (P : list event -> Prop) (a : A) : P [] -> always P (@ret W A a).
Proof. intros H w. exact H. Qed.

Lemma always_throw {A} (P : list event -> Prop) (e : error) :
  P [] -> always P (@throw W A e).
Proof. intros H w. exact H. Qed.

Lemma always_check (P : list event -> Prop) (err : option error) :
  P [] -> always P (@check W err).
Proof. intros H w. destruct err; exact H. Qed.

Lemma always_lift {A} (P : list event -> Prop) (r : error + A) :
  P [] -> always P (@lift W A r).
Proof. intros H w. destruct r; exact H. Qed.

Lemma always_catch {A} (P : list event -> Prop) (m : M W A) :
  always P m -> always P (catch m).
Proof.
  intros H w. specialize (H w). unfold catch, trace_of in *.
  destruct (m w) as [[t w1] r]. exact H.
Qed.

Lemma always_query {A} (P : list event -> Prop) (c : call) (f : W -> A) :
  P [Call c] -> always P (query c f).
Proof. intros H w. exact H. Qed.

Lemma always_invoke {A} (P : list event -> Prop) (c : call) (f : W -> A * W) :
  P [Call c] -> always P (invoke c f).
Proof. intros H w. unfold invoke, trace_of. destruct (f w). exact H. Qed.

Lemma always_Info (P : list event -> Prop) (format : string) (args : list logarg) :
  P [Printf Info format args] -> always P (@clilog_Info W format args).
Proof. intros H w. exact H. Qed.

Lemma always_Warning (P : list event -> Prop) (format : string) (args : list logarg) :
  P [Printf Warning format args] -> always P (@clilog_Warning W format args).
Proof. intros H w. exact H. Qed.

Lemma always_walk {S} (P : list event -> Prop)
    (fn : visit -> S -> M W S) (vs : list visit) :
  P [] -> (forall t1 t2, P t1 -> P t2 -> P (t1 ++ t2)) ->
  (forall v s, always P (fn v s)) ->
  forall s, always P (walk_visits fn vs s).
Proof.
  intros Hnil Happ Hfn. induction vs as [|v vs IH]; intros s; simpl.
  - now apply always_ret.
  - apply (always_bind P P P); [exact Happ|exact Hnil|apply always_catch, Hfn|].
    intros [e|s']; [now apply always_ret|apply IH].
Qed.

Lemma always_for_each {A S} (P : list event -> Prop)
    (body : A -> S -> M W S) (l : list A) :
  P [] -> (forall t1 t2, P t1 -> P t2 -> P (t1 ++ t2)) ->
  (forall a s, always P (body a s)) ->
  forall s, always P (for_each l body s).
Proof.
  intros Hnil Happ Hb. induction l as [|a l IH]; intros s; simpl.
  - now apply always_ret.
  - apply (always_bind P P P); [exact Happ|exact Hnil|apply Hb|]. intros s'. apply IH.
Qed.

End Always.

Lemma through_log (S : list kind) (l : level) (format : string) (args : list logarg) :
  through S [Printf l format args].
Proof. split; constructor. Qed.

Lemma through_call (k : kind) (c : call) : kind_of c = Some k -> through [k] [Call c].
Proof.
  intros H. unfold through, kinds, calls. simpl. rewrite H. simpl. split.
  - repeat constructor.
  - repeat constructor.
Qed.

Lemma through_setup (S : list kind) (c : call) : kind_of c = None -> through S [Call c].
Proof.
  intros H. unfold through, kinds, calls. simpl. rewrite H. split; constructor.
Qed.

(** Resolves [always (through [k]) m] for a computation written with the
    operations of the monad. *)
Ltac through_step k :=
  lazymatch goal with
  | |- always _ (bind _ _) =>
      apply (always_bind (through [k]) (through [k]) (through [k]));
      [apply through_same | apply through_nil | | intros ?]
  | |- always _ (ret _) => apply always_ret, through_nil
  | |- always _ (throw _) => apply always_throw, through_nil
  | |- always _ (check _) => apply always_check, through_nil
  | |- always _ (lift _) => apply always_lift, through_nil
  | |- always _ (clilog_Info _ _) => apply always_Info, through_log
  | |- always _ (clilog_Warning _ _) => apply always_Warning, through_log
  | |- always _ (query _ _) => apply always_query, through_call; reflexivity
  | |- always _ (invoke _ _) => apply always_invoke, through_call; reflexivity
  | |- always _ (filepath_Walk _ _ _ _) =>
      apply always_walk; [apply through_nil | apply through_same | intros ? ?]
  | |- always _ (for_each _ _ _) =>
      apply always_for_each; [apply through_nil | apply through_same | intros ? ?]
  | |- always _ (if ?b then _ else _) => destruct b
  | |- always _ (match ?x with _ => _ end) => destruct x
  end.

(** Each step makes calls on its own kind only. *)
Section Steps.

Context {W : Type}.
Variable cl : Client W.
Variable Sprintf_other : Json.value -> string.
Variable fl : flags.
Variable root : node.

Lemma processAuthConfigs_through (p : path) :
  always (through [AuthConfig]) (processAuthConfigs cl root p).
Proof. unfold processAuthConfigs, processAuthConfigs_fn. repeat through_step AuthConfig. Qed.

Lemma processEndpoints_through (p : path) :
  always (through [Endpoint]) (processEndpoints cl root p).
Proof. unfold processEndpoints, processEndpoints_fn. repeat through_step Endpoint. Qed.

Lemma processManagedZones_through (p : path) :
  always (through [ManagedZone]) (processManagedZones cl root p).
Proof. unfold processManagedZones, processManagedZones_fn. repeat through_step ManagedZone. Qed.

Lemma processConnectors_through (p : path) (g c w : bool) :
  always (through [Connector]) (processConnectors cl fl root p g c w).
Proof. unfold processConnectors, processConnectors_fn. repeat through_step Connector. Qed.

Lemma processCustomConnectors_through (p : path) :
  always (through [CustomConnector]) (processCustomConnectors cl fl root p).
Proof.
  unfold processCustomConnectors, processCustomConnectors_fn.
  repeat through_step CustomConnector.
Qed.

Lemma processSfdcInstances_through (p : path) :
  always (through [SfdcInstance]) (processSfdcInstances cl root p).
Proof. unfold processSfdcInstances, processSfdcInstances_fn. repeat through_step SfdcInstance. Qed.

Lemma processSfdcChannels_through (p : path) :
  always (through [SfdcChannel]) (processSfdcChannels cl fl root p).
Proof. unfold processSfdcChannels, processSfdcChannels_fn. repeat through_step SfdcChannel. Qed.

Lemma processIntegration_through (o i c : path) (pl : string) (g : bool) :
  always (through [Integration])
    (processIntegration cl Sprintf_other fl root o i c pl g).
Proof.
  unfold processIntegration, processTestCases, processCodeFolders, collect.
  repeat through_step Integration.
Qed.

End Steps.

(** Closes the side condition of [always_seq] on two lists of kinds. *)
Ltac rank_side :=
  let a := fresh in let b := fresh in
  intros a b; simpl; intros; unfold rank_le;
  repeat match goal with
         | H : _ \/ _ |- _ => destruct H
         | H : False |- _ => destruct H
         | H : _ = _ |- _ => subst
         end; simpl; lia.

Section Order.

Context {W : Type}.
Variable cl : Client W.
Variable Sprintf_other : Json.value -> string.
Variable fl : flags.
Variable disk : string -> filesystem.

Lemma always_seq {A B} (S1 S2 : list kind) (m : M W A) (k : A -> M W B) :
  always (through S1) m -> (forall a, always (through S2) (k a)) ->
  (forall a b, In a S1 -> In b S2 -> rank_le a b) ->
  always (through (S1 ++ S2)) (bind m k).
Proof.
  intros Hm Hk Hle.
  apply (always_bind (through S1) (through S2) (through (S1 ++ S2)));
    [|apply through_nil|exact Hm|exact Hk].
  intros t1 t2 H1 H2. now apply through_app.
Qed.

Lemma apply_steps_through (root : node) (srcFolder folder : path) :
  always (through (plan fl)) (apply_steps cl Sprintf_other fl root srcFolder folder).
Proof.
  unfold apply_steps, plan.
  apply (always_seq [] _); [apply always_invoke, through_setup; reflexivity| |intros ? ? []].
  intros _.
  apply always_seq.
  { destruct (skipAuthconfigs fl); simpl.
    - apply always_Info, through_log.
    - apply processAuthConfigs_through. }
  2: { destruct (skipAuthconfigs fl), (skipConnectors fl); rank_side. }
  intros _.
  apply (always_seq [Endpoint] _); [apply processEndpoints_through| |
    destruct (skipConnectors fl); rank_side].
  intros _.
  apply (always_seq [ManagedZone] _); [apply processManagedZones_through| |
    destruct (skipConnectors fl); rank_side].
  intros _.
  apply always_seq.
  { destruct (skipConnectors fl); simpl.
    - apply always_Info, through_log.
    - apply (always_seq [CustomConnector] [Connector]);
        [apply processCustomConnectors_through| |rank_side].
      intros _. apply processConnectors_through. }
  2: { destruct (skipConnectors fl); rank_side. }
  intros _.
  apply (always_seq [SfdcInstance] _); [apply processSfdcInstances_through| |rank_side].
  intros _.
  apply (always_seq [SfdcChannel] [Integration]);
    [apply processSfdcChannels_through| |rank_side].
  intros _. apply processIntegration_through.
Qed.

Lemma RunE_through : always (through (plan fl)) (RunE cl Sprintf_other fl disk).
Proof.
  unfold RunE.
  apply (always_seq [] (plan fl)); [| |intros ? ? []].
  - destruct (String.eqb (folder fl) "").
    + apply (always_seq [] []); [apply always_invoke, through_setup; reflexivity|
                                  |intros ? ? []].
      intros r. apply (always_seq [] []); [apply always_lift, through_nil| |intros ? ? []].
      intros uri.
      apply (always_seq [] []); [apply always_invoke, through_setup; reflexivity|
                                 |intros ? ? []].
      intros r'. apply always_lift, through_nil.
    + apply always_ret, through_nil.
  - intros f. destruct (os_Stat_name _ _) as [e|st]; [apply always_throw, through_nil|].
    destruct (negb (IsDir st)); [apply always_throw, through_nil|].
    apply apply_steps_through.
Qed.

End Order.

(** ** The parts of a run *)

Section Parts.

Context {W : Type}.
Variable cl : Client W.
Variable Sprintf_other : Json.value -> string.
Variable fl : flags.
Variable disk : string -> filesystem.

Lemma RunE_parts :
  RunE cl Sprintf_other fl disk =
    (folder <- scaffold_folder cl fl ;;;
     match os_Stat_name (disk folder) (env_name fl folder) with
     | inl err => throw (fmt_Errorf_w "problem with supplied path, %w" (Some err))
     | inr stat =>
         if negb (IsDir stat)
         then throw (fmt_Errorf_w "problem with supplied path, %w" None)
         else apply_steps cl Sprintf_other fl (fs_root (disk folder))
                (place (disk folder) folder) (env_folder fl (disk folder) folder)
     end).
Proof. reflexivity. Qed.

End Parts.

(** ** Absent folders *)

Section Same.

Context {W : Type}.

Lemma same_refl {A} (o : list event * W * (error + A)) : same_run o o.
Proof. repeat split. Qed.

Lemma world_bind {A B} (m : M W A) (k : A -> M W B) (w : W) :
  world_of (bind m k w) =
    match result_of (m w) with
    | inl _ => world_of (m w)
    | inr a => world_of (k a (world_of (m w)))
    end.
Proof.
  unfold bind, world_of, result_of.
  destruct (m w) as [[t1 w1] [e|a]]; simpl; [reflexivity|].
  destruct (k a w1) as [[t2 w2] r]. reflexivity.
Qed.

Lemma result_bind {A B} (m : M W A) (k : A -> M W B) (w : W) :
  result_of (bind m k w) =
    match result_of (m w) with
    | inl e => inl e
    | inr a => result_of (k a (world_of (m w)))
    end.
Proof.
  unfold bind, world_of, result_of.
  destruct (m w) as [[t1 w1] [e|a]]; simpl; [reflexivity|].
  destruct (k a w1) as [[t2 w2] r]. reflexivity.
Qed.

Lemma same_bind {A B} (m1 m2 : M W A) (k1 k2 : A -> M W B) (w : W) :
  same_run (m1 w) (m2 w) ->
  (forall a w', same_run (k1 a w') (k2 a w')) ->
  same_run (bind m1 k1 w) (bind m2 k2 w).
Proof.
  intros (Hc & Hw & Hr) Hk. unfold same_run.
  rewrite !trace_bind, !world_bind, !result_bind, !calls_app, Hc, Hw, Hr.
  destruct (result_of (m2 w)) as [e|a]; [repeat split|].
  destruct (Hk a (world_of (m2 w))) as (Hc' & Hw' & Hr').
  rewrite Hc', Hw', Hr'. repeat split.
Qed.

End Same.

(** ** A step that succeeds *)

Section Success.

Context {W : Type}.

(** Where a sequence returns a value, both parts have run. *)
Lemma success_bind {A B} (Q : list event -> Prop) (m : M W A) (k : A -> M W B)
    (w : W) (b : B) :
  (forall t1 t2, Q t2 -> Q (t1 ++ t2)) ->
  result_of (bind m k w) = inr b ->
  (forall a, result_of (m w) = inr a ->
             result_of (k a (world_of (m w))) = inr b ->
             Q (trace_of (k a (world_of (m w))))) ->
  Q (trace_of (bind m k w)).
Proof.
  intros Hq H Hk. rewrite trace_bind. rewrite result_bind in H.
  destruct (result_of (m w)) as [e|a]; [discriminate|]. apply Hq. now apply Hk.
Qed.

Lemma success_then {A B} (Q : list event -> Prop) (m : M W A) (k : A -> M W B)
    (w : W) (b : B) :
  (forall t1 t2, Q t2 -> Q (t1 ++ t2)) ->
  result_of (bind m k w) = inr b ->
  (forall a w', result_of (k a w') = inr b -> Q (trace_of (k a w'))) ->
  Q (trace_of (bind m k w)).
Proof. intros Hq H Hk. apply (success_bind Q m k w b Hq H). intros a _. apply Hk. Qed.

End Success.

Section Quiet_steps.

Context {W : Type}.
Variable cl : Client W.
Variable Sprintf_other : Json.value -> string.
Variable fl : flags.
Variable root : node.

(** A step whose folder is absent does nothing. *)
Lemma absent_folder_is_skipped (p : path) (w : W) :
  is_folder root p = false ->
  processAuthConfigs cl root p w = ([], w, inr tt)
  /\ processEndpoints cl root p w = ([], w, inr tt)
  /\ processManagedZones cl root p w = ([], w, inr tt)
  /\ processCustomConnectors cl fl root p w = ([], w, inr tt)
  /\ processConnectors cl fl root p (grantPermission fl) (createSecret fl) (wait fl) w
     = ([], w, inr tt)
  /\ processSfdcInstances cl root p w = ([], w, inr tt)
  /\ processSfdcChannels cl fl root p w = ([], w, inr tt).
Proof.
  intros H.
  unfold processAuthConfigs, processEndpoints, processManagedZones,
    processCustomConnectors, processConnectors, processSfdcInstances,
    processSfdcChannels.
  rewrite H. repeat split.
Qed.

End Quiet_steps.

Section Collect.

Context {W : Type}.

(** A collecting walk logs and returns the names of [found_names]. *)
Lemma walk_collect (r : regex) (format : string) (extra : list logarg)
    (vs : list visit) (names : list string) (w : W) :
  walk_visits (collect r format extra) vs names w =
    (map (fun n => Printf Info format (AStr n :: extra)) (found_names r vs),
     w, inr (names ++ found_names r vs, first_error vs)).
Proof.
  revert names. induction vs as [|v vs IH]; intros names; simpl.
  - unfold ret. now rewrite app_nil_r.
  - unfold collect at 1. run. unfold v_file.
    destruct (v_err v) as [e|]; simpl.
    + now rewrite app_nil_r.
    + destruct (v_IsDir v); simpl.
      * rewrite IH. reflexivity.
      * destruct (MatchString r (path_Base (v_path v))); simpl.
        -- rewrite IH. simpl. now rewrite <- app_assoc.
        -- rewrite IH. reflexivity.
Qed.

End Collect.

(** The labels of [resolve] do not change what is found. *)
Lemma resolve_label (op op' : string) (full full' : path) (p : path) (n : node) :
  match resolve op full n p, resolve op' full' n p with
  | inr a, inr b => a = b
  | inl _, inl _ => True
  | _, _ => False
  end.
Proof.
  revert n. induction p as [|name p IH]; intros n; simpl.
  - destruct n; simpl; auto.
  - destruct n; simpl; auto.
    destruct (lookup_entry name entries); simpl; [apply IH|exact I].
Qed.

Lemma resolve_not_NoStat (op : string) (full p : path) (n : node) (e : error) :
  resolve op full n p <> inr (NoStat e).
Proof.
  revert n. induction p as [|name p IH]; intros n; simpl.
  - destruct n; discriminate.
  - destruct n; try discriminate. destruct (lookup_entry name entries); [apply IH|discriminate].
Qed.

Lemma last_snoc (p : path) (name d : string) : List.last (p ++ [name]) d = name.
Proof. apply List.last_last. Qed.

(** What is found at [src] when it is no folder is no JSON file. *)
Lemma no_names_without_src (root : node) (srcFolder : path) :
  is_folder root (path_Join srcFolder ["src"]) = false ->
  found_names rJSONFiles (visits root (path_Join srcFolder ["src"])) = [].
Proof.
  unfold is_folder, os_Stat, visits, path_Join. intros H.
  set (p := srcFolder ++ ["src"]) in *.
  pose proof (resolve_label "stat" "lstat" p p p root) as Hl.
  pose proof (resolve_not_NoStat "lstat" p p root) as Hn.
  destruct (resolve "stat" p root p) as [e|n], (resolve "lstat" p root p) as [e'|n'];
    try contradiction; simpl; [reflexivity|].
  subst n'. destruct n as [c|es|e|e]; simpl in *; try discriminate.
  - unfold v_file, v_IsDir, path_Base, p. simpl. rewrite last_snoc. reflexivity.
  - now destruct (Hn e).
Qed.

Section Integration_absent.

Context {W : Type}.
Variable cl : Client W.
Variable Sprintf_other : Json.value -> string.
Variable fl : flags.
Variable root : node.

Lemma integration_without_src (o srcFolder c : path) (pl : string) (g : bool) (w : W) :
  is_folder root (path_Join srcFolder ["src"]) = false ->
  let out := processIntegration cl Sprintf_other fl root o
               (path_Join srcFolder ["src"]) c pl g w in
  calls (trace_of out) = [] /\ world_of out = w /\
  (result_of out = inr tt \/
   exists e, stat_ok root o = true /\ utils_ReadFile root o = inl e
             /\ result_of out = inl e).
Proof.
  intros H out. subst out. unfold processIntegration, filepath_Walk. run.
  destruct (stat_ok root o).
  - destruct (utils_ReadFile root o) as [e|b]; simpl.
    + repeat split. right. exists e. auto.
    + destruct (0 <? String.length b)%nat; simpl;
        rewrite walk_collect, (no_names_without_src _ _ H); simpl; auto.
  - simpl. rewrite walk_collect, (no_names_without_src _ _ H); simpl; auto.
Qed.

End Integration_absent.

Section Prologue.

Context {W : Type}.
Variable cl : Client W.
Variable fl : flags.

Lemma prologue_through :
  always (through [])
    (if String.eqb (folder fl) "" then
       r <- invoke (apiclient_GetCloudDeployGCSLocations (pipeline fl) (release fl))
              (fun w => do_GetCloudDeployGCSLocations cl w (pipeline fl) (release fl)) ;;;
       skaffoldConfigUri <- lift r ;;;
       r <- invoke (apiclient_ExtractTgz skaffoldConfigUri)
              (fun w => do_ExtractTgz cl w skaffoldConfigUri) ;;;
       lift r
     else ret (folder fl)).
Proof.
  destruct (String.eqb (folder fl) "").
  - apply (always_seq [] []); [apply always_invoke, through_setup; reflexivity|
                                |intros ? ? []].
    intros r. apply (always_seq [] []); [apply always_lift, through_nil| |intros ? ? []].
    intros uri.
    apply (always_seq [] []); [apply always_invoke, through_setup; reflexivity|
                               |intros ? ? []].
    intros r'. apply always_lift, through_nil.
  - apply always_ret, through_nil.
Qed.

End Prologue.

(** ** Resources that exist *)

Section Existing.

Context {W : Type}.
Variable cl : Client W.
Variable fl : flags.
Variable root : node.

Ltac no_file := split; [reflexivity | split; [reflexivity | intros [? ?]; congruence]].
Ltac no_lookup := split; [reflexivity | split; [reflexivity | intros _ ?; congruence]].
Ltac one_lookup :=
  split; [reflexivity | split; [reflexivity | intros _ _; split; [reflexivity |
    eexists; split; reflexivity]]].

(** Opens the proof of [leaves_alone] for a callback: the cases of a
    visit with an error and of a directory are closed, the case of a
    regular file is left. *)
Ltac leave :=
  unfold leaves_alone; intros v w H;
  unfold file_visit, looked_up, reported_existing, v_file in *;
  cbv zeta; run;
  destruct (v_err v) as [e|] eqn:He; simpl; [no_file|];
  destruct (v_IsDir v) eqn:Hd; simpl; [no_file|];
  specialize (H (conj eq_refl eq_refl)).

Lemma authconfigs_leaves_alone : leaves_alone cl fl root AuthConfig (processAuthConfigs_fn cl root).
Proof.
  unfold processAuthConfigs_fn. leave.
  destruct (MatchString rJSONFiles (path_Base (v_path v))) eqn:Hm; simpl; [|no_lookup].
  specialize (H eq_refl).
  destruct (do_authconfigs_Find cl w _ "") as [ver e]; simpl in *.
  destruct (String.eqb ver ""); [discriminate|]. simpl. one_lookup.
Qed.

Lemma endpoints_leaves_alone : leaves_alone cl fl root Endpoint (processEndpoints_fn cl root).
Proof.
  unfold processEndpoints_fn. leave. specialize (H eq_refl).
  destruct (MatchString rJSONFiles (path_Base (v_path v))); simpl;
    rewrite H; simpl; one_lookup.
Qed.

Lemma zones_leaves_alone : leaves_alone cl fl root ManagedZone (processManagedZones_fn cl root).
Proof.
  unfold processManagedZones_fn. leave. specialize (H eq_refl).
  destruct (MatchString rJSONFiles (path_Base (v_path v))); simpl;
    destruct (do_GetZone cl w _ true); try discriminate; simpl; one_lookup.
Qed.

Lemma connectors_leaves_alone :
  leaves_alone cl fl root Connector
    (processConnectors_fn cl fl root (grantPermission fl) (createSecret fl) (wait fl)).
Proof.
  unfold processConnectors_fn. leave.
  destruct (MatchString rJSONFiles (path_Base (v_path v))) eqn:Hm; simpl; [|no_lookup].
  specialize (H eq_refl).
  destruct (do_connections_Get cl w _ "" true false); try discriminate. simpl. one_lookup.
Qed.

Lemma instances_leaves_alone : leaves_alone cl fl root SfdcInstance (processSfdcInstances_fn cl root).
Proof.
  unfold processSfdcInstances_fn. leave.
  destruct (MatchString rJSONFiles (path_Base (v_path v))) eqn:Hm; simpl; [|no_lookup].
  specialize (H eq_refl).
  destruct (do_GetInstance cl w _ true); try discriminate. simpl. one_lookup.
Qed.

Lemma channels_leaves_alone : leaves_alone cl fl root SfdcChannel (processSfdcChannels_fn cl fl root).
Proof.
  unfold processSfdcChannels_fn, sfdcNamingConvention. leave.
  destruct (MatchString rJSONFiles (path_Base (v_path v))) eqn:Hm; simpl; [|no_lookup].
  destruct (length _ =? 2)%nat eqn:Hl; simpl; [|no_lookup].
  specialize (H eq_refl).
  destruct (do_FindChannel cl w _ _) as [ver [e|]]; try discriminate. simpl. one_lookup.
Qed.

Lemma custom_leaves_alone :
  leaves_alone cl fl root CustomConnector (processCustomConnectors_fn cl fl root).
Proof.
  unfold processCustomConnectors_fn, getFilenameWithoutExtension. leave.
  destruct (MatchString rJSONFiles (path_Base (v_path v))) eqn:Hm; simpl; [|no_lookup].
  destruct (strings_Split _ _) as [|a [|b [|c l]]]; simpl in *; try no_lookup.
  destruct (utils_ReadFile root (v_path v)) as [e|content]; simpl; [no_lookup|].
  specialize (H eq_refl).
  destruct (do_GetCustomVersion cl w a b false); try discriminate. simpl. one_lookup.
Qed.

(** Each guarded callback leaves an existing resource alone. *)
Lemma guarded_steps_leave_alone (k : kind) (fn : visit -> unit -> M W unit) :
  In (k, fn) (guarded_steps cl fl root) -> leaves_alone cl fl root k fn.
Proof.
  unfold guarded_steps. simpl.
  intros [E|[E|[E|[E|[E|[E|[E|[]]]]]]]]; inversion E; subst.
  - apply authconfigs_leaves_alone.
  - apply endpoints_leaves_alone.
  - apply zones_leaves_alone.
  - apply custom_leaves_alone.
  - apply connectors_leaves_alone.
  - apply instances_leaves_alone.
  - apply channels_leaves_alone.
Qed.

Lemma guarded_is_create (c : call) : is_guarded_create c = true -> is_create c = true.
Proof. destruct c; simpl; congruence. Qed.

Lemma avoids_app (bad : call -> bool) (t1 t2 : list event) :
  avoids bad (t1 ++ t2) <-> avoids bad t1 /\ avoids bad t2.
Proof.
  unfold avoids. rewrite calls_app, existsb_app. destruct (existsb bad (calls t1)); simpl.
  - split; [discriminate|intros [? _]; discriminate].
  - split; auto. now intros [_ ?].
Qed.

Lemma avoids_weaken (bad bad' : call -> bool) (t : list event) :
  (forall c, bad' c = true -> bad c = true) -> avoids bad t -> avoids bad' t.
Proof.
  unfold avoids. intros Hsub H.
  destruct (existsb bad' (calls t)) eqn:E; [|reflexivity].
  apply existsb_exists in E as (c & Hin & Hc).
  assert (existsb bad (calls t) = true) by (apply existsb_exists; eauto).
  congruence.
Qed.

Lemma quiet_bind {A B} (bad : call -> bool) (w : W) (m : M W A) (k : A -> M W B) :
  quiet bad w m -> (forall a, quiet bad w (k a)) -> quiet bad w (bind m k).
Proof.
  intros [Hw Ha] Hk. unfold quiet. rewrite trace_bind, world_bind, Hw.
  destruct (result_of (m w)) as [e|a].
  - rewrite app_nil_r. auto.
  - destruct (Hk a) as [Hw' Ha']. split; [exact Hw'|]. apply avoids_app. auto.
Qed.

Lemma quiet_then {A B} (bad : call -> bool) (w : W) (m : M W A) (k : A -> M W B) :
  quiet bad w m -> (forall a, avoids bad (trace_of (k a w))) ->
  avoids bad (trace_of (bind m k w)).
Proof.
  intros [Hw Ha] Hk. rewrite trace_bind, Hw. apply avoids_app. split; [exact Ha|].
  destruct (result_of (m w)); [reflexivity|apply Hk].
Qed.

Lemma quiet_ret {A} (bad : call -> bool) (w : W) (a : A) : quiet bad w (ret a).
Proof. split; reflexivity. Qed.

Lemma quiet_check (bad : call -> bool) (w : W) (err : option error) :
  quiet bad w (check err).
Proof. destruct err; split; reflexivity. Qed.

Lemma quiet_catch {A} (bad : call -> bool) (w : W) (m : M W A) :
  quiet bad w m -> quiet bad w (catch m).
Proof.
  unfold quiet, catch, world_of, trace_of. destruct (m w) as [[t w1] r]. auto.
Qed.

Lemma quiet_walk (bad : call -> bool) (w : W) (fn : visit -> unit -> M W unit)
    (vs : list visit) :
  (forall v, In v vs -> quiet bad w (fn v tt)) ->
  forall s, quiet bad w (walk_visits fn vs s).
Proof.
  induction vs as [|v vs IH]; intros H s; simpl.
  - apply quiet_ret.
  - apply quiet_bind.
    + apply quiet_catch. destruct s. apply H. now left.
    + intros [e|s']; [apply quiet_ret|]. apply IH. intros v' Hv'. apply H. now right.
Qed.

Lemma walk_leaves_alone (k : kind) (fn : visit -> unit -> M W unit) (p : path) (w : W) :
  leaves_alone cl fl root k fn -> all_existing cl fl root k p w ->
  quiet is_create w (filepath_Walk root p fn tt).
Proof.
  intros Hfn Hall. apply quiet_walk. intros v Hv.
  destruct (Hfn v w (Hall v Hv)) as (Hw & Ha & _). split; [exact Hw|exact Ha].
Qed.

(** A guarded step is quiet when its callback leaves alone what exists. *)
Ltac quiet_step LA :=
  intros Hall; destruct (is_folder root _); [|apply quiet_ret];
  apply quiet_bind;
  [ apply (walk_leaves_alone _ _ _ _ LA Hall)
  | intros r; first [apply quiet_check | apply quiet_ret] ].

Lemma processAuthConfigs_quiet (p : path) (w : W) :
  all_existing cl fl root AuthConfig p w -> quiet is_create w (processAuthConfigs cl root p).
Proof. unfold processAuthConfigs. quiet_step authconfigs_leaves_alone. Qed.

Lemma processEndpoints_quiet (p : path) (w : W) :
  all_existing cl fl root Endpoint p w -> quiet is_create w (processEndpoints cl root p).
Proof. unfold processEndpoints. quiet_step endpoints_leaves_alone. Qed.

Lemma processManagedZones_quiet (p : path) (w : W) :
  all_existing cl fl root ManagedZone p w -> quiet is_create w (processManagedZones cl root p).
Proof. unfold processManagedZones. quiet_step zones_leaves_alone. Qed.

Lemma processCustomConnectors_quiet (p : path) (w : W) :
  all_existing cl fl root CustomConnector p w ->
  quiet is_create w (processCustomConnectors cl fl root p).
Proof. unfold processCustomConnectors. quiet_step custom_leaves_alone. Qed.

Lemma processConnectors_quiet (p : path) (w : W) :
  all_existing cl fl root Connector p w ->
  quiet is_create w
    (processConnectors cl fl root p (grantPermission fl) (createSecret fl) (wait fl)).
Proof. unfold processConnectors. quiet_step connectors_leaves_alone. Qed.

Lemma processSfdcInstances_quiet (p : path) (w : W) :
  all_existing cl fl root SfdcInstance p w -> quiet is_create w (processSfdcInstances cl root p).
Proof. unfold processSfdcInstances. quiet_step instances_leaves_alone. Qed.

Lemma processSfdcChannels_quiet (p : path) (w : W) :
  all_existing cl fl root SfdcChannel p w -> quiet is_create w (processSfdcChannels cl fl root p).
Proof. unfold processSfdcChannels. quiet_step channels_leaves_alone. Qed.

End Existing.

(** The calls of the integration step are none of the guarded
    creations. *)
Lemma integration_calls_unguarded (l : list call) :
  Forall (fun k => In k [Integration]) (omap kind_of l) ->
  existsb is_guarded_create l = false.
Proof.
  induction l as [|c l IH]; simpl; intros H; [reflexivity|].
  destruct (kind_of c) as [k|] eqn:Hk.
  - apply List.Forall_cons_iff in H as [[<-|[]] H].
    rewrite (IH H). destruct c; simpl in *; try discriminate; reflexivity.
  - rewrite (IH H). destruct c; simpl in *; try discriminate; reflexivity.
Qed.

Lemma through_integration_avoids (t : list event) :
  through [Integration] t -> avoids is_guarded_create t.
Proof. intros [_ H]. apply integration_calls_unguarded, H. Qed.

Section Second_run.

Context {W : Type}.
Variable cl : Client W.
Variable Sprintf_other : Json.value -> string.
Variable fl : flags.

Lemma quiet_guarded {A} (w : W) (m : M W A) :
  quiet is_create w m -> quiet is_guarded_create w m.
Proof.
  intros [Hw Ha]. split; [exact Hw|].
  eapply avoids_weaken; [apply guarded_is_create|exact Ha].
Qed.

(** The eight steps, started where everything looked up exists. *)
Lemma apply_steps_existing (root : node) (srcFolder folder : path) (w : W) :
  (forall k, all_existing cl fl root k (kind_folder folder k) w) ->
  avoids is_guarded_create
    (trace_of (apply_steps cl Sprintf_other fl root srcFolder folder w)).
Proof.
  intros H. unfold apply_steps. cbv zeta.
  apply quiet_then; [split; reflexivity|]. intros _.
  apply quiet_then.
  { destruct (skipAuthconfigs fl); simpl; [split; reflexivity|].
    apply quiet_guarded, (processAuthConfigs_quiet cl fl), (H AuthConfig). }
  intros _.
  apply quiet_then; [apply quiet_guarded, (processEndpoints_quiet cl fl), (H Endpoint)|].
  intros _.
  apply quiet_then; [apply quiet_guarded, (processManagedZones_quiet cl fl), (H ManagedZone)|].
  intros _.
  apply quiet_then.
  { destruct (skipConnectors fl); simpl; [split; reflexivity|].
    apply quiet_bind.
    - apply quiet_guarded, (processCustomConnectors_quiet cl fl), (H CustomConnector).
    - intros _. apply quiet_guarded, (processConnectors_quiet cl fl), (H Connector). }
  intros _.
  apply quiet_then; [apply quiet_guarded, (processSfdcInstances_quiet cl fl), (H SfdcInstance)|].
  intros _.
  apply quiet_then; [apply quiet_guarded, (processSfdcChannels_quiet cl fl), (H SfdcChannel)|].
  intros _.
  apply through_integration_avoids, processIntegration_through.
Qed.

Lemma bind_ret {A B} (a : A) (k : A -> M W B) (w : W) : bind (ret a) k w = k a w.
Proof. unfold bind, ret. destruct (k a w) as [[t w'] r]. reflexivity. Qed.

Lemma RunE_existing (disk : string -> filesystem) (w : W) :
  folder fl <> "" ->
  (forall k, all_existing cl fl (fs_root (disk (folder fl))) k
               (kind_folder (env_folder fl (disk (folder fl)) (folder fl)) k) w) ->
  avoids is_guarded_create (trace_of (RunE cl Sprintf_other fl disk w)).
Proof.
  intros Hf H. unfold RunE.
  destruct (String.eqb_spec (folder fl) "") as [E|_]; [contradiction|].
  rewrite bind_ret. fold (env_name fl (folder fl)).
  fold (env_folder fl (disk (folder fl)) (folder fl)).
  destruct (os_Stat_name _ _) as [e|st]; [reflexivity|].
  destruct (negb (IsDir st)); [reflexivity|].
  now apply apply_steps_existing.
Qed.

End Second_run.

(** ** The code inliner *)

(** What [strings.ReplaceAll] stores is the text with its newlines
    escaped. *)
Lemma inlined_newline_escaped (s : string) : inlined s = newline_escaped s.
Proof.
  unfold inlined, strings_ReplaceAll.
  induction s as [|c s IH]; [reflexivity|].
  cbn [replace_from String.prefix String.length Nat.sub newline_escaped].
  destruct (ascii_dec "010" c) as [<-|Hne].
  - cbn. replace (String.prefix "" s) with true by (now destruct s). now rewrite IH.
  - destruct (Ascii.eqb_spec c "010"%char) as [->|_]; [congruence|]. now rewrite IH.
Qed.

Lemma newline_escaped_id (s : string) : has_newline s = false -> newline_escaped s = s.
Proof.
  unfold has_newline, bytes_of.
  induction s as [|c s IH]; [reflexivity|].
  cbn [list_ascii_of_string existsb newline_escaped].
  rewrite (Ascii.eqb_sym "010" c).
  destruct (Ascii.eqb c "010"); cbn [orb]; [discriminate|].
  intros H. f_equal. now apply IH.
Qed.

Lemma code_at_set_same (cm : CodeMap) (task key code : string) :
  code_at (set_code task key code cm) task key = Some code.
Proof. unfold code_at, set_code. now rewrite !lookup_insert_eq. Qed.

Lemma code_at_set_other_key (cm : CodeMap) (task key key' code : string) :
  key <> key' ->
  is_Some (cm !! task) ->
  code_at (set_code task key code cm) task key' = code_at cm task key'.
Proof.
  intros Hne [b Hb]. unfold code_at, set_code.
  rewrite lookup_insert_eq, Hb. simpl. now rewrite lookup_insert_ne.
Qed.

Lemma code_at_set_other_task (cm : CodeMap) (task task' key key' code : string) :
  task <> task' ->
  code_at (set_code task key code cm) task' key' = code_at cm task' key'.
Proof. intros Hne. unfold code_at, set_code. now rewrite lookup_insert_ne. Qed.

Lemma bucket_set (cm : CodeMap) (task task' key code : string) :
  is_Some (cm !! task') -> is_Some (set_code task key code cm !! task').
Proof.
  intros H. unfold set_code. destruct (decide (task = task')) as [->|Hne].
  - rewrite lookup_insert_eq. eauto.
  - now rewrite lookup_insert_ne.
Qed.

(** Reading the map after the names of one folder were stored. *)
Section Fold.

Variable root : node.
Variables task pre : string.
Variable folder : path.

Local Abbreviation step := (add_code root task pre folder).

Lemma bucket_fold (names : list string) (cm : CodeMap) (task' : string) :
  is_Some (cm !! task') -> is_Some (fold_left step names cm !! task').
Proof.
  revert cm. induction names as [|n names IH]; intros cm H; simpl; [exact H|].
  apply IH. now apply bucket_set.
Qed.

Lemma code_at_fold_other_task (names : list string) (cm : CodeMap) (task' key : string) :
  task <> task' -> code_at (fold_left step names cm) task' key = code_at cm task' key.
Proof.
  intros Hne. revert cm. induction names as [|n names IH]; intros cm; simpl; [reflexivity|].
  rewrite IH. now apply code_at_set_other_task.
Qed.

Lemma code_at_fold_untouched (names : list string) (cm : CodeMap) (key : string) :
  is_Some (cm !! task) ->
  (forall n, In n names -> code_key pre n <> key) ->
  code_at (fold_left step names cm) task key = code_at cm task key.
Proof.
  revert cm. induction names as [|n names IH]; intros cm Hb Hk; simpl; [reflexivity|].
  rewrite IH.
  - apply code_at_set_other_key; [|exact Hb]. apply Hk. now left.
  - now apply bucket_set.
  - intros n' Hn'. apply Hk. now right.
Qed.

Lemma code_at_fold_stored (names : list string) (cm : CodeMap) (name : string) :
  is_Some (cm !! task) ->
  In name names -> sole_key pre names name ->
  code_at (fold_left step names cm) task (code_key pre name)
    = Some (inlined (file_text root (path_Join folder [name]))).
Proof.
  revert cm. induction names as [|n names IH]; intros cm Hb Hin Hsole; [destruct Hin|].
  simpl. destruct (in_dec string_dec name names) as [Hl|Hnl].
  - apply IH; [now apply bucket_set|exact Hl|].
    intros o Ho. apply Hsole. now right.
  - destruct Hin as [->|Hl]; [|contradiction].
    rewrite code_at_fold_untouched.
    + apply code_at_set_same.
    + now apply bucket_set.
    + intros n' Hn' E. apply Hnl. rewrite <- (Hsole n'); [exact Hn'|now right|exact E].
Qed.

End Fold.

Section Inliner.

Context {W : Type}.
Variable root : node.

(** The loops of [processCodeFolders] compute [stored_codes]. *)
Lemma stored_codes_inr (task pre : string) (folder : path) (names : list string)
    (cm cm' : CodeMap) :
  stored_codes root task pre folder names cm = inr cm' <->
  all_readable root folder names
  /\ cm' = fold_left (add_code root task pre folder) names cm.
Proof.
  revert cm. induction names as [|n names IH]; intros cm; simpl.
  - split; [intros [= <-]; split; [constructor|reflexivity]|intros [_ ->]; reflexivity].
  - unfold add_code at 2, file_text.
    destruct (utils_ReadFile root (path_Join folder [n])) as [e|c] eqn:Hr.
    + split; [discriminate|]. intros [H _].
      apply List.Forall_cons_iff in H as [[c Hc] _]. congruence.
    + rewrite IH. split; intros [H ->]; (split; [|reflexivity]).
      * constructor; [eauto|exact H].
      * now apply List.Forall_cons_iff in H as [_ H].
Qed.

Lemma for_each_stored (task pre : string) (folder : path) (names : list string)
    (cm : CodeMap) (w : W) :
  for_each names (fun name codeMap =>
    content <- lift (utils_ReadFile root (path_Join folder [name])) ;;;
    ret (set_code task (code_key pre name) (inlined content) codeMap)) cm w
  = ([], w, stored_codes root task pre folder names cm).
Proof.
  revert cm. induction names as [|n names IH]; intros cm; [reflexivity|].
  cbn [for_each stored_codes]. unfold bind at 1. unfold bind at 1, lift, ret, throw.
  destruct (utils_ReadFile root (path_Join folder [n])) as [e|c]; [reflexivity|].
  now rewrite IH.
Qed.

Lemma calls_logs (format : string) (extra : list logarg) (names : list string) :
  calls (map (fun n => Printf Info format (AStr n :: extra)) names) = [].
Proof. induction names as [|n names IH]; [reflexivity|exact IH]. Qed.

Lemma processCodeFolders_outcome (js jn : path) (w : W) :
  exists t,
    calls t = [] /\
    @processCodeFolders W root js jn w =
      (t, w,
       match stored_codes root "JavaScriptTask" "javascript_" js
               (found_names rJavaScriptFiles (visits root js))
               (<["JsonnetMapperTask" := ∅]> (<["JavaScriptTask" := ∅]> ∅)) with
       | inl err => inl err
       | inr codeMap =>
           stored_codes root "JsonnetMapperTask" "datatransformer_" jn
             (found_names rJsonnetFiles (visits root jn)) codeMap
       end).
Proof.
  unfold processCodeFolders, filepath_Walk.
  unfold bind at 1. rewrite walk_collect. cbv beta iota. cbn [fst].
  unfold bind at 1.
  rewrite (for_each_stored "JavaScriptTask" "javascript_" js). cbv beta iota.
  destruct (stored_codes root "JavaScriptTask" _ _ _ _) as [e|cm1].
  - eexists. split; [|reflexivity]. rewrite ?app_nil_r, ?calls_app, ?calls_logs. reflexivity.
  - unfold bind at 1. rewrite walk_collect. cbv beta iota. cbn [fst].
    unfold bind at 1.
    rewrite (for_each_stored "JsonnetMapperTask" "datatransformer_" jn). cbv beta iota.
    destruct (stored_codes root "JsonnetMapperTask" _ _ _ _) as [e|cm2];
      unfold ret; (eexists; split; [|reflexivity]);
      rewrite ?app_nil_r, ?calls_app, ?calls_logs; reflexivity.
Qed.

End Inliner.

(** The names of the form [javascript_<d>.js] and
    [datatransformer_<d>.jsonnet], for one or two digits [d], match
    their pattern and are keyed by [d]. *)
Lemma ordinal_names :
  forallb (fun d =>
             MatchString rJavaScriptFiles ("javascript_" +:+ d +:+ ".js")
             && String.eqb (code_key "javascript_" ("javascript_" +:+ d +:+ ".js")) d
             && MatchString rJsonnetFiles ("datatransformer_" +:+ d +:+ ".jsonnet")
             && String.eqb
                  (code_key "datatransformer_" ("datatransformer_" +:+ d +:+ ".jsonnet")) d)
    ordinals = true.
Proof. vm_compute. reflexivity. Qed.

Section Inlined.

Context {W : Type}.
Variable root : node.

(** C8, as amended.  [processCodeFolders] returns a map when every file it
    has found can be read at its name directly below its code folder.
    In the map it returns, a found name that is the only one with its key
    has, under the bucket of its task type and at that key, the content
    read at that name with every newline character replaced by a
    backslash and the letter n.  For a name [javascript_<d>.js] or
    [datatransformer_<d>.jsonnet] with one or two digits [d] the key is
    [d].  A content without a newline character is stored as it is. *)
Theorem code_files_are_inlined (js jn : path) (w : W) :
  let o := @processCodeFolders W root js jn w in
  let jsNames := found_names rJavaScriptFiles (visits root js) in
  let jnNames := found_names rJsonnetFiles (visits root jn) in
  (all_readable root js jsNames -> all_readable root jn jnNames ->
   exists codeMap, result_of o = inr codeMap)
  /\ (forall codeMap, result_of o = inr codeMap ->
      (forall name, In name jsNames -> sole_key "javascript_" jsNames name ->
         exists content,
           utils_ReadFile root (path_Join js [name]) = inr content
           /\ code_at codeMap "JavaScriptTask" (code_key "javascript_" name)
              = Some (newline_escaped content))
      /\ (forall name, In name jnNames -> sole_key "datatransformer_" jnNames name ->
         exists content,
           utils_ReadFile root (path_Join jn [name]) = inr content
           /\ code_at codeMap "JsonnetMapperTask" (code_key "datatransformer_" name)
              = Some (newline_escaped content)))
  /\ (forall d, In d ordinals ->
      MatchString rJavaScriptFiles ("javascript_" +:+ d +:+ ".js") = true
      /\ code_key "javascript_" ("javascript_" +:+ d +:+ ".js") = d
      /\ MatchString rJsonnetFiles ("datatransformer_" +:+ d +:+ ".jsonnet") = true
      /\ code_key "datatransformer_" ("datatransformer_" +:+ d +:+ ".jsonnet") = d)
  /\ (forall content, has_newline content = false -> newline_escaped content = content).
Proof.
  cbv zeta.
  destruct (processCodeFolders_outcome root js jn w) as (t & _ & ->).
  unfold result_of. cbn [snd].
  set (cm0 := <["JsonnetMapperTask" := ∅]> (<["JavaScriptTask" := ∅]> ∅) : CodeMap).
  assert (Hjs0 : is_Some (cm0 !! "JavaScriptTask")).
  { unfold cm0. rewrite lookup_insert_ne by discriminate. rewrite lookup_insert_eq. eauto. }
  assert (Hjn0 : is_Some (cm0 !! "JsonnetMapperTask")).
  { unfold cm0. rewrite lookup_insert_eq. eauto. }
  split; [|split; [|split]].
  - intros H1 H2.
    destruct (stored_codes root "JavaScriptTask" _ _ _ cm0) as [e|cm1] eqn:E1.
    + assert (E : stored_codes root "JavaScriptTask" "javascript_" js
                    (found_names rJavaScriptFiles (visits root js)) cm0
                  = inr (fold_left (add_code root "JavaScriptTask" "javascript_" js)
                           (found_names rJavaScriptFiles (visits root js)) cm0))
        by (apply stored_codes_inr; auto).
      congruence.
    + eexists. apply stored_codes_inr. split; [exact H2|reflexivity].
  - intros cm Hcm.
    destruct (stored_codes root "JavaScriptTask" _ _ _ cm0) as [e|cm1] eqn:E1;
      [discriminate|].
    apply stored_codes_inr in E1 as [R1 ->].
    apply stored_codes_inr in Hcm as [R2 ->].
    split; intros name Hin Hsole.
    + unfold all_readable in R1. rewrite List.Forall_forall in R1.
      destruct (R1 name Hin) as [content Hc]. exists content. split; [exact Hc|].
      rewrite code_at_fold_other_task by discriminate.
      rewrite code_at_fold_stored by assumption.
      unfold file_text. rewrite Hc. now rewrite inlined_newline_escaped.
    + unfold all_readable in R2. rewrite List.Forall_forall in R2.
      destruct (R2 name Hin) as [content Hc]. exists content. split; [exact Hc|].
      rewrite code_at_fold_stored; [| |assumption|assumption].
      * unfold file_text. rewrite Hc. now rewrite inlined_newline_escaped.
      * now apply bucket_fold.
  - intros d Hd. pose proof ordinal_names as H. rewrite forallb_forall in H.
    specialize (H d Hd). rewrite !andb_true_iff in H.
    destruct H as (((M1 & H1) & M2) & H2).
    apply String.eqb_eq in H1, H2. auto.
  - apply newline_escaped_id.
Qed.

End Inlined.

(** ** Single files *)

Section Callbacks.

Context {W : Type}.
Variable cl : Client W.
Variable fl : flags.
Variable root : node.


End Callbacks.

(** ** Errors of creation that do not end the run *)

Section Dropped_errors.

Context {W : Type}.
Variable cl : Client W.
Variable fl : flags.
Variable root : node.

(** [filepath.Walk] hands the error of the callback back as a value. *)
Lemma walk_never_throws {S} (fn : visit -> S -> M W S) (vs : list visit) (s : S) (w : W) :
  exists r, result_of (walk_visits fn vs s w) = inr r.
Proof.
  revert s w. induction vs as [|v vs IH]; intros s w; simpl; [eexists; reflexivity|].
  rewrite result_bind. unfold catch at 1. unfold result_of at 1, world_of.
  destruct (fn v s w) as [[t w1] [e|s']]; cbn [fst snd]; [eexists; reflexivity|apply IH].
Qed.

(** Whatever the creations answer, [processCustomConnectors] returns
    [nil]. *)
Lemma processCustomConnectors_never_fails (p : path) (w : W) :
  result_of (processCustomConnectors cl fl root p w) = inr tt.
Proof.
  unfold processCustomConnectors. destruct (is_folder root p); [|reflexivity].
  rewrite result_bind. unfold filepath_Walk.
  destruct (walk_never_throws (processCustomConnectors_fn cl fl root) (visits root p) tt w)
    as [r ->]. reflexivity.
Qed.

(** An error of [sfdc.CreateInstanceFromContent] is not returned by the
    callback. *)
Lemma sfdc_instance_create_error_is_dropped (v : visit) (w : W)
    (lookup_err : error) (content : string) :
  file_visit v ->
  MatchString rJSONFiles (v_file v) = true ->
  do_GetInstance cl w (getFilenameWithoutExtension (v_file v)) true = Some lookup_err ->
  utils_ReadFile root (v_path v) = inr content ->
  result_of (processSfdcInstances_fn cl root v tt w) = inr tt.
Proof.
  intros [He Hd] Hm Hg Hr. unfold v_file in *. unfold processSfdcInstances_fn. run.
  rewrite He, Hd, Hm. simpl. rewrite Hg, Hr. simpl.
  destruct (do_CreateInstanceFromContent cl w content) as [[e|] w']; reflexivity.
Qed.

(** An error of [sfdc.CreateChannelFromContent] is not returned by the
    callback. *)
Lemma sfdc_channel_create_error_is_dropped (v : visit) (w : W)
    (instanceSegment channelSegment version content : string) (lookup_err : error) :
  file_visit v ->
  MatchString rJSONFiles (v_file v) = true ->
  strings_Split (getFilenameWithoutExtension (v_file v)) (fileSplitter fl)
    = [instanceSegment; channelSegment] ->
  do_FindChannel cl w channelSegment instanceSegment = (version, Some lookup_err) ->
  utils_ReadFile root (v_path v) = inr content ->
  result_of (processSfdcChannels_fn cl fl root v tt w) = inr tt.
Proof.
  intros [He Hd] Hm Hs Hf Hr. unfold v_file in *. unfold processSfdcChannels_fn. run.
  rewrite He, Hd, Hm, Hs. simpl. rewrite Hf. simpl. rewrite Hr. simpl.
  destruct (do_CreateChannelFromContent cl w version content) as [[e|] w']; reflexivity.
Qed.

End Dropped_errors.

(** The creations of the other kinds: on the full sample folder, against
    the platform that refuses every creation, the run ends with the error
    of the first creation it comes to, which is its last call. *)
Lemma refused_creations_of_the_other_kinds_end_the_run :
  let run w := RunE (Sim.client false) Sim.other Sim.plain_flags
                 (Sample.on_disk Sample.full_folder) w in
  let ends_with w c :=
    last (calls (trace_of (run w))) = Some c
    /\ result_of (run w) = inl Sim.refused in
  ends_with [] (authconfigs_Create (Sample.object1 "name" "a1"))
  /\ ends_with ["authconfig/a1"] (connections_CreateEndpoint "e1" "sa" "" false)
  /\ ends_with ["authconfig/a1"; "endpoint/e1"] (connections_CreateZone "z1" "{}")
  /\ ends_with ["authconfig/a1"; "endpoint/e1"; "zone/z1"; "custom/cc/1"]
       (connections_Create "c1" "{}" "" "" "" false false false)
  /\ (let o := RunE (Sim.client false) Sim.other Sim.plain_flags
                 (Sample.on_disk Sample.integration_folder) [] in
      exists content overrides,
        last (calls (trace_of o))
        = Some (integrations_CreateVersion "sample" content overrides "" "" false)
        /\ result_of o = inl Sim.refused).
Proof. vm_compute. repeat split. eexists. eexists. split; reflexivity. Qed.

(** C1.  On a folder with one custom connector, one SFDC instance and one
    SFDC channel, against a platform that knows none of them and refuses
    every creation, the run makes the three creation calls, each of which
    returns an error, goes on after each of them, and returns [nil]. *)
Theorem refused_creations_do_not_fail_the_run :
  let cl := Sim.client false in
  let run := RunE cl Sim.other Sim.plain_flags (Sample.on_disk Sample.refused_folder) [] in
  calls (trace_of run) =
    [apiclient_DisableCmdPrintHttpResponse;
     connections_GetCustomVersion "cc" "1" false;
     connections_CreateCustomWithVersion "cc" "1" "{}" "" "";
     sfdc_GetInstance "i1" true;
     sfdc_CreateInstanceFromContent (Sample.object1 "name" "i1");
     sfdc_FindChannel "ch1" "i1";
     sfdc_CreateChannelFromContent "i1" (Sample.object1 "name" "ch1")]
  /\ fst (do_CreateCustomWithVersion cl [] "cc" "1" "{}" "" "") = Some Sim.refused
  /\ fst (do_CreateInstanceFromContent cl [] (Sample.object1 "name" "i1")) = Some Sim.refused
  /\ fst (do_CreateChannelFromContent cl [] "i1" (Sample.object1 "name" "ch1"))
     = Some Sim.refused
  /\ result_of run = inr tt.
Proof. vm_compute. repeat split. Qed.

(** ** The version of a response *)

(** The two cases in which [getVersion] does what its messages say. *)
Lemma getVersion_last_segment (other : Json.value -> string) :
  getVersion other
    (Sample.object1 "name" "projects/p/locations/l/integrations/i/versions/42")
  = inr "42".
Proof. vm_compute. reflexivity. Qed.

Lemma getVersion_empty_name (other : Json.value -> string) :
  getVersion other (Sample.object1 "name" "") = inl (errors_New "version not found").
Proof. vm_compute. reflexivity. Qed.

(** A response that decodes to an object without a [name] member gives
    the text that [fmt.Sprintf] prints for [nil], and no error. *)
Lemma getVersion_absent_name (other : Json.value -> string) (body : string)
    (jsonMap : gmap string Json.value) :
  Json.Unmarshal_any body = inr jsonMap ->
  jsonMap !! "name" = None ->
  getVersion other body = inr "%!s(<nil>)".
Proof.
  intros Hu Hn. unfold getVersion, Json.index_any. rewrite Hu, Hn. reflexivity.
Qed.

(** C2.  [getVersion] returns [42] for a body whose [name] ends in
    [/versions/42] and an error for a body whose [name] is empty; for the
    body [{}], which has no [name], it returns the text that [fmt.Sprintf]
    prints for [nil] and no error. *)
Theorem getVersion_without_name_is_no_error (other : Json.value -> string) :
  getVersion other
    (Sample.object1 "name" "projects/p/locations/l/integrations/i/versions/42")
  = inr "42"
  /\ getVersion other (Sample.object1 "name" "") = inl (errors_New "version not found")
  /\ getVersion other "{}" = inr "%!s(<nil>)".
Proof. vm_compute. repeat split. Qed.

(** ** Files that are no JSON files *)

(** C4.  A file [notes.txt] in the endpoints folder and one in the zones
    folder do not match the pattern for JSON files; the run still looks
    each of them up and, the platform not knowing them, creates an
    endpoint and a zone named [notes]. *)
Theorem other_files_are_looked_up_in_endpoints_and_zones :
  let run := RunE (Sim.client true) Sim.other Sim.plain_flags
               (Sample.on_disk Sample.notes_folder) [] in
  MatchString rJSONFiles "notes.txt" = false
  /\ calls (trace_of run) =
       [apiclient_DisableCmdPrintHttpResponse;
        connections_FindEndpoint "notes";
        connections_CreateEndpoint "notes" "sa" "" false;
        connections_GetZone "notes" true;
        connections_CreateZone "notes" "zone notes"].
Proof. vm_compute. split; reflexivity. Qed.

(** In the steps that ask for the pattern, the same file is passed over
    without a call. *)
Lemma other_files_are_passed_over_elsewhere {W} (cl : Client W) (fl : flags)
    (root : node) (v : visit) (w : W) :
  file_visit v ->
  MatchString rJSONFiles (v_file v) = false ->
  processAuthConfigs_fn cl root v tt w = ([], w, inr tt)
  /\ processConnectors_fn cl fl root (grantPermission fl) (createSecret fl) (wait fl) v tt w
     = ([], w, inr tt)
  /\ processCustomConnectors_fn cl fl root v tt w = ([], w, inr tt)
  /\ processSfdcInstances_fn cl root v tt w = ([], w, inr tt)
  /\ processSfdcChannels_fn cl fl root v tt w = ([], w, inr tt).
Proof.
  intros [He Hd] Hm. unfold v_file in *.
  unfold processAuthConfigs_fn, processConnectors_fn, processCustomConnectors_fn,
    processSfdcInstances_fn, processSfdcChannels_fn. run.
  rewrite He, Hd, Hm. repeat split.
Qed.

(** ** The integration file and the test cases *)

(** C3.  On the scaffold folder of the scenario, with [sample.json] and
    [javascript/javascript_1.js] in [src] and nothing else, on a platform
    on which every call succeeds: [sample.json] is the one JSON file
    found in [src]; the run creates one version, with the code
    [return 1;] at ordinal [1] of [JavaScriptTask]; it then finds
    [sample.json] again, as a test case file, and creates a test case
    whose content is the integration file itself; it publishes the
    version and returns [nil]. *)
Theorem integration_file_is_its_own_test_case :
  let run := RunE (Sim.client true) Sim.other Sim.plain_flags
               (Sample.on_disk Sample.integration_folder) [] in
  found_names rJSONFiles (visits Sample.integration_folder ["src"]) = ["sample.json"]
  /\ trace_of run =
       [Call apiclient_DisableCmdPrintHttpResponse;
        Printf Info "Found configuration for integration: %s\n" [AStr "sample.json"];
        Printf Info "Found JavaScript file for integration: %s\n" [AStr "javascript_1.js"];
        Printf Info "Create integration %s\n" [AStr "sample"];
        Call (integrations_CreateVersion "sample" "{}JavaScriptTask[1]=return 1;;" "" "" ""
                false);
        Printf Info "Found test case file %s for integration: %s\n"
          [AStr "sample.json"; AStr "sample"];
        Call (integrations_CreateTestCase "sample" "42" "{}");
        Printf Info "Publish integration %s with version %s\n" [AStr "sample"; AStr "42"];
        Call (integrations_Publish "sample" "42" "")]
  /\ result_of run = inr tt.
Proof. vm_compute. repeat split. Qed.

(** ** Counterexamples *)

(** C5 as stated fails: the first run creates the connector and the
    integration version; the second run, started in the state that the
    first one left, finds the connector and does not create it, and
    creates a version and a test case again. *)
Lemma second_run_creates_a_version_again :
  let apply := RunE (Sim.client true) Sim.other Sim.plain_flags
                 (Sample.on_disk Sample.connector_folder) in
  let first := apply [] in
  let second := apply (world_of first) in
  result_of first = inr tt
  /\ List.filter is_create (calls (trace_of first)) =
       [connections_Create "c1" "{}" "" "" "" false false false;
        integrations_CreateVersion "sample" "{}" "" "" "" false;
        integrations_CreateTestCase "sample" "42" "{}"]
  /\ Sim.has (world_of first) "connector/c1" = true
  /\ Sim.has (world_of first) "integration/sample" = true
  /\ List.filter is_create (calls (trace_of second)) =
       [integrations_CreateVersion "sample" "{}" "" "" "" false;
        integrations_CreateTestCase "sample" "42" "{}"].
Proof. vm_compute. repeat split. Qed.

(** C8 as stated fails: [xjavascript_1.js] matches the pattern, which is
    not anchored, and its code is stored under the key [x1], not under
    its ordinal [1]. *)
Lemma prefixed_code_file_is_keyed_by_more_than_its_ordinal :
  let root := Sample.prefixed_code_folder in
  found_names rJavaScriptFiles (visits root ["javascript"]) = ["xjavascript_1.js"]
  /\ match result_of (@processCodeFolders unit root ["javascript"] ["datatransformer"] tt)
     with
     | inr codeMap =>
         code_at codeMap "JavaScriptTask" "1" = None
         /\ code_at codeMap "JavaScriptTask" "x1" = Some "return 1;"
     | inl _ => False
     end.
Proof. vm_compute. repeat split. Qed.

(** ** The calls that a run owes *)

Section Meets.

Context {W : Type}.

Lemma picked_app (sel : call -> bool) (t1 t2 : list event) :
  List.filter sel (calls (t1 ++ t2))
  = List.filter sel (calls t1) ++ List.filter sel (calls t2).
Proof. now rewrite calls_app, List.filter_app. Qed.

Lemma none_of_app (sel : call -> bool) (t1 t2 : list event) :
  none_of sel t1 -> none_of sel t2 -> none_of sel (t1 ++ t2).
Proof. unfold none_of. intros H1 H2. now rewrite picked_app, H1, H2. Qed.

Lemma is_ok_bind {A B} (m : M W A) (k : A -> M W B) (w : W) :
  is_ok (result_of (bind m k w)) = true ->
  exists a, result_of (m w) = inr a
            /\ is_ok (result_of (k a (world_of (m w)))) = true.
Proof.
  rewrite result_bind. destruct (result_of (m w)) as [e|a]; [discriminate|eauto].
Qed.

(** The first part of a sequence makes none of the calls. *)
Lemma meets_after {A B} (full : bool) (sel : call -> bool) (due : list call)
    (m : M W A) (k : A -> M W B) (w : W) :
  none_of sel (trace_of (m w)) ->
  (forall a, result_of (m w) = inr a -> meets full sel due (k a (world_of (m w)))) ->
  meets full sel due (bind m k w).
Proof.
  intros Hm Hk. unfold meets. rewrite trace_bind, picked_app, Hm. cbn [app].
  destruct (result_of (m w)) as [e|a] eqn:E.
  - split; [now exists due|]. intros _ H. apply is_ok_bind in H as (a & Ha & _).
    congruence.
  - destruct (Hk a eq_refl) as [H1 H2]. split; [exact H1|]. intros F H.
    apply is_ok_bind in H as (a' & Ha & H). rewrite E in Ha. injection Ha as <-. auto.
Qed.

(** The second part of a sequence makes none of the calls. *)
Lemma meets_before {A B} (full : bool) (sel : call -> bool) (due : list call)
    (m : M W A) (k : A -> M W B) (w : W) :
  meets full sel due (m w) ->
  (forall a w', none_of sel (trace_of (k a w'))) ->
  meets full sel due (bind m k w).
Proof.
  intros [H1 H2] Hk. unfold meets. rewrite trace_bind, picked_app.
  destruct (result_of (m w)) as [e|a] eqn:E.
  - cbn [app]. rewrite app_nil_r. split; [exact H1|]. intros _ H.
    apply is_ok_bind in H as (a & Ha & _). congruence.
  - rewrite (Hk a). rewrite app_nil_r. split; [exact H1|]. intros F _. now apply H2.
Qed.

Lemma meets_same {A} (full : bool) (sel : call -> bool) (due : list call)
    (o1 o2 : list event * W * (error + A)) :
  same_run o1 o2 -> meets full sel due o2 -> meets full sel due o1.
Proof. intros (Hc & _ & Hr) [H1 H2]. unfold meets. now rewrite Hc, Hr. Qed.

Lemma in_turn_none (sel : call -> bool) (steps : kind -> M W unit) (ks : list kind) :
  (forall k w, In k ks -> none_of sel (trace_of (steps k w))) ->
  forall w, none_of sel (trace_of (in_turn steps ks w)).
Proof.
  induction ks as [|k ks IH]; intros H w; [reflexivity|]. simpl.
  rewrite trace_bind. apply none_of_app; [apply H; now left|].
  destruct (result_of (steps k w)); [reflexivity|]. apply IH. intros k' w' Hin.
  apply H. now right.
Qed.

(** Where one step of a list makes the calls and the others make none of
    them, the list makes them. *)
Lemma in_turn_meets (full : bool) (sel : call -> bool) (due : list call)
    (steps : kind -> M W unit) (k : kind) (ks : list kind) :
  List.NoDup ks -> In k ks ->
  (forall k' w, k' <> k -> none_of sel (trace_of (steps k' w))) ->
  (forall w, meets full sel due (steps k w)) ->
  forall w, meets full sel due (in_turn steps ks w).
Proof.
  intros Hnd Hin Hothers Hk. induction ks as [|k0 ks IH]; [destruct Hin|]. intros w.
  apply List.NoDup_cons_iff in Hnd as [Hk0 Hnd]. simpl.
  destruct Hin as [->|Hin].
  - apply meets_before; [apply Hk|]. intros _ w'. apply in_turn_none.
    intros k' w'' Hin'. apply Hothers. intros ->. contradiction.
  - apply meets_after.
    + apply Hothers. intros ->. contradiction.
    + intros _ _. now apply IH.
Qed.

End Meets.

Lemma through_none (S : list kind) (k : kind) (sel : call -> bool) (t : list event) :
  through S t -> picks_on k sel -> ~ In k S -> none_of sel t.
Proof.
  intros [_ H] Hsel Hk. unfold none_of, kinds in *.
  induction (calls t) as [|c cs IH]; [reflexivity|]. simpl in *.
  destruct (sel c) eqn:E.
  - apply Hsel in E. rewrite E in H. apply List.Forall_cons_iff in H as [Hin _].
    contradiction.
  - apply IH. destruct (kind_of c); [now apply List.Forall_cons_iff in H as [_ H]|exact H].
Qed.

Lemma is_lookup_on_picks (k : kind) : picks_on k (is_lookup_on k).
Proof.
  intros c H. unfold is_lookup_on, works_on in H. apply andb_true_iff in H as [_ H].
  destruct (kind_of c) as [k'|]; [|discriminate]. simpl in H. rewrite orb_false_r in H.
  apply Nat.eqb_eq in H. f_equal. destruct k, k'; simpl in H; congruence.
Qed.

Lemma plan_kinds (fl : flags) (k : kind) :
  In k (plan fl)
  <-> ~ (skipAuthconfigs fl = true /\ k = AuthConfig)
      /\ ~ (skipConnectors fl = true /\ (k = CustomConnector \/ k = Connector)).
Proof.
  unfold plan. destruct (skipAuthconfigs fl), (skipConnectors fl), k; simpl;
    intuition (discriminate || congruence).
Qed.

Lemma plan_NoDup (fl : flags) : List.NoDup (plan fl).
Proof.
  unfold plan. destruct (skipAuthconfigs fl), (skipConnectors fl); simpl;
    repeat (constructor; [simpl; intuition discriminate|]); constructor.
Qed.

Section Planned.

Context {W : Type}.
Variable cl : Client W.
Variable Sprintf_other : Json.value -> string.
Variable fl : flags.

Lemma step_of_through (root : node) (srcFolder folder : path) (k : kind) :
  always (through [k]) (step_of cl Sprintf_other fl root srcFolder folder k).
Proof.
  destruct k; simpl.
  - apply processAuthConfigs_through.
  - apply processEndpoints_through.
  - apply processManagedZones_through.
  - apply processCustomConnectors_through.
  - apply processConnectors_through.
  - apply processSfdcInstances_through.
  - apply processSfdcChannels_through.
  - apply processIntegration_through.
Qed.

Lemma bind_assoc {A B C} (m : M W A) (k : A -> M W B) (h : B -> M W C) (w : W) :
  bind (bind m k) h w = bind m (fun a => bind (k a) h) w.
Proof.
  unfold bind. destruct (m w) as [[t1 w1] [e|a]]; [reflexivity|].
  destruct (k a w1) as [[t2 w2] [e|b]]; [reflexivity|].
  destruct (h b w2) as [[t3 w3] r]. now rewrite app_assoc.
Qed.

Lemma bind_ret_tt (m : M W unit) (w : W) : bind m (fun _ => ret tt) w = m w.
Proof.
  unfold bind, ret. destruct (m w) as [[t1 w1] [e|[]]]; [reflexivity|].
  now rewrite app_nil_r.
Qed.

(** A log line between two steps changes no call, no state and no
    result. *)
Lemma same_log {A} (format : string) (args : list logarg) (m : M W A) (w : W) :
  same_run ((clilog_Info format args ;;; m) w) (m w).
Proof.
  unfold same_run, bind, clilog_Info, emit, trace_of, world_of, result_of.
  destruct (m w) as [[t w'] r]. repeat split.
Qed.

Lemma same_eq {A} (o1 o2 : list event * W * (error + A)) : o1 = o2 -> same_run o1 o2.
Proof. intros ->. apply same_refl. Qed.

Lemma same_trans {A} (o1 o2 o3 : list event * W * (error + A)) :
  same_run o1 o2 -> same_run o2 o3 -> same_run o1 o3.
Proof.
  intros (C1 & W1 & R1) (C2 & W2 & R2). repeat split; congruence.
Qed.

(** The eight steps of [RunE] are the steps of the plan, in turn. *)
Lemma apply_steps_in_turn (root : node) (srcFolder folder : path) (w : W) :
  same_run (apply_steps cl Sprintf_other fl root srcFolder folder w)
    ((invoke apiclient_DisableCmdPrintHttpResponse (fun w => (tt, w)) ;;;
      in_turn (step_of cl Sprintf_other fl root srcFolder folder) (plan fl)) w).
Proof.
  unfold apply_steps, plan. cbv zeta.
  apply same_bind; [apply same_refl|]. intros _ w1.
  assert (Tail : forall w',
    same_run
      ((processSfdcInstances cl root (path_Join folder ["sfdcinstances"]) ;;;
        processSfdcChannels cl fl root (path_Join folder ["sfdcchannels"]) ;;;
        processIntegration cl Sprintf_other fl root
          (path_Join folder ["overrides"; "overrides.json"]) (path_Join srcFolder ["src"])
          (path_Join folder ["config-variables"]) (pipeline fl) (grantPermission fl)) w')
      (in_turn (step_of cl Sprintf_other fl root srcFolder folder)
         [SfdcInstance; SfdcChannel; Integration] w')).
  { intros w'. cbn [in_turn step_of kind_folder].
    apply same_bind; [apply same_refl|]. intros _ w2.
    apply same_bind; [apply same_refl|]. intros _ w3.
    apply same_eq. now rewrite bind_ret_tt. }
  assert (Middle : forall w',
    same_run
      ((processEndpoints cl root (path_Join folder ["endpoints"]) ;;;
        processManagedZones cl root (path_Join folder ["zones"]) ;;;
        (if negb (skipConnectors fl)
         then processCustomConnectors cl fl root (path_Join folder ["custom-connectors"]) ;;;
              processConnectors cl fl root (path_Join folder ["connectors"])
                (grantPermission fl) (createSecret fl) (wait fl)
         else clilog_Info "Skipping applying connector configuration\n" []) ;;;
        processSfdcInstances cl root (path_Join folder ["sfdcinstances"]) ;;;
        processSfdcChannels cl fl root (path_Join folder ["sfdcchannels"]) ;;;
        processIntegration cl Sprintf_other fl root
          (path_Join folder ["overrides"; "overrides.json"]) (path_Join srcFolder ["src"])
          (path_Join folder ["config-variables"]) (pipeline fl) (grantPermission fl)) w')
      (in_turn (step_of cl Sprintf_other fl root srcFolder folder)
         ([Endpoint; ManagedZone]
            ++ (if skipConnectors fl then [] else [CustomConnector; Connector])
            ++ [SfdcInstance; SfdcChannel; Integration]) w')).
  { intros w'. cbn [app in_turn]. cbn [step_of kind_folder].
    apply same_bind; [apply same_refl|]. intros _ w2.
    apply same_bind; [apply same_refl|]. intros _ w3.
    destruct (skipConnectors fl); cbn [negb app in_turn].
    - eapply same_trans; [apply same_log|apply Tail].
    - cbn [step_of kind_folder].
      eapply same_trans; [apply same_eq, bind_assoc|].
      apply same_bind; [apply same_refl|]. intros _ w4.
      apply same_bind; [apply same_refl|]. intros _ w5. apply Tail. }
  destruct (skipAuthconfigs fl); cbn [negb app in_turn].
  - eapply same_trans; [apply same_log|apply Middle].
  - cbn [step_of kind_folder]. apply same_bind; [apply same_refl|]. intros _ w2.
    apply Middle.
Qed.

Variable disk : string -> filesystem.

(** [RunE] is the planned run, but for the log lines of the skipped
    steps. *)
Lemma RunE_planned (w : W) :
  same_run (RunE cl Sprintf_other fl disk w) (planned_run cl Sprintf_other fl disk w).
Proof.
  rewrite RunE_parts. unfold planned_run.
  apply same_bind; [apply same_refl|]. intros f w1. cbv zeta.
  destruct (os_Stat_name (disk f) (env_name fl f)) as [e|st]; [apply same_refl|].
  destruct (negb (IsDir st)); [apply same_refl|]. apply apply_steps_in_turn.
Qed.

Lemma meets_failed {A} (full : bool) (sel : call -> bool) (due : list call)
    (o : list event * W * (error + A)) :
  none_of sel (trace_of o) -> is_ok (result_of o) = false -> meets full sel due o.
Proof.
  intros H1 H2. unfold meets. rewrite H1, H2. split; [now exists due|discriminate].
Qed.

(** What the step of a kind of the plan makes of its own calls, the run
    makes. *)
Lemma RunE_meets (full : bool) (sel : call -> bool) (due : list call) (k : kind)
    (w : W) (f : string) :
  result_of (scaffold_folder cl fl w) = inr f ->
  picks_on k sel -> In k (plan fl) ->
  (forall w', meets full sel due
                (step_of cl Sprintf_other fl (fs_root (disk f)) (place (disk f) f)
                   (env_folder fl (disk f) f) k w')) ->
  meets full sel due (RunE cl Sprintf_other fl disk w).
Proof.
  intros Hf Hsel Hin Hstep. eapply meets_same; [apply RunE_planned|].
  unfold planned_run. apply meets_after.
  { eapply through_none; [apply prologue_through|exact Hsel|intros []]. }
  intros f' Hf'. rewrite Hf in Hf'. injection Hf' as <-. cbv zeta.
  destruct (os_Stat_name (disk f) (env_name fl f)) as [e|st].
  { now apply meets_failed. }
  destruct (negb (IsDir st)).
  { now apply meets_failed. }
  apply meets_after.
  { unfold none_of, invoke, trace_of, calls. simpl.
    destruct (sel apiclient_DisableCmdPrintHttpResponse) eqn:E; [|reflexivity].
    apply Hsel in E. discriminate. }
  intros _ _. apply (in_turn_meets full sel due _ k); [apply plan_NoDup|exact Hin| |exact Hstep].
  intros k' w' Hk. eapply through_none; [apply step_of_through|exact Hsel|].
  intros [->|[]]. contradiction.
Qed.

End Planned.

(** ** The lookups of the guarded steps *)

Section Walks.

Context {W : Type}.

(** What a callback makes of its calls visit by visit, the walk makes of
    the visits in their order. *)
Lemma walk_meets (sel : call -> bool) (due1 : visit -> option call)
    (fn : visit -> unit -> M W unit) :
  (forall v w,
      List.filter sel (calls (trace_of (fn v tt w))) `prefix_of` option_list (due1 v)
      /\ (result_of (fn v tt w) = inr tt ->
          List.filter sel (calls (trace_of (fn v tt w))) = option_list (due1 v))) ->
  forall vs w,
    List.filter sel (calls (trace_of (walk_visits fn vs tt w))) `prefix_of` omap due1 vs
    /\ (result_of (walk_visits fn vs tt w) = inr (tt, None) ->
        List.filter sel (calls (trace_of (walk_visits fn vs tt w))) = omap due1 vs).
Proof.
  intros Hfn. induction vs as [|v vs IH]; intros w.
  - split; [now exists []|reflexivity].
  - assert (Hd : omap due1 (v :: vs) = option_list (due1 v) ++ omap due1 vs).
    { simpl. now destruct (due1 v). }
    rewrite Hd. clear Hd.
    destruct (Hfn v w) as [P1 E1]. destruct (IH (world_of (fn v tt w))) as [P2 E2].
    cbn [walk_visits]. unfold bind, catch.
    unfold trace_of, result_of, world_of in *.
    destruct (fn v tt w) as [[t1 w1] [e|[]]]; cbn [fst snd] in *.
    + unfold ret. cbn [fst snd]. rewrite app_nil_r. split; [|discriminate].
      destruct P1 as [k ->]. exists (k ++ omap due1 vs). now rewrite app_assoc.
    + destruct (walk_visits fn vs tt w1) as [[t2 w2] r2]. cbn [fst snd] in *.
      rewrite calls_app, List.filter_app, (E1 eq_refl). split.
      * now apply prefix_app.
      * intros H. now rewrite (E2 H).
Qed.

End Walks.

Ltac split_cases :=
  repeat (cbn [fst snd trace_of result_of calls omap app option_list List.filter
                 is_nil negb andb is_ok];
          match goal with
          | |- context [match ?x with _ => _ end] =>
              lazymatch x with
              | context [match _ with _ => _ end] => fail
              | _ => destruct x eqn:?
              end
          end).

Section Callbacks_due.

Context {W : Type}.
Variable cl : Client W.
Variable fl : flags.
Variable root : node.

Lemma callbacks_meet (k : kind) (fn : visit -> unit -> M W unit) (v : visit) (w : W) :
  In (k, fn) (guarded_steps cl fl root) ->
  List.filter (is_lookup_on k) (calls (trace_of (fn v tt w)))
    `prefix_of` option_list (lookup_due fl root k v)
  /\ (result_of (fn v tt w) = inr tt ->
      List.filter (is_lookup_on k) (calls (trace_of (fn v tt w)))
      = option_list (lookup_due fl root k v)).
Proof.
  unfold guarded_steps. simpl.
  intros [E|[E|[E|[E|[E|[E|[E|[]]]]]]]]; injection E as <- <-;
    unfold processAuthConfigs_fn, processEndpoints_fn, processManagedZones_fn,
      processCustomConnectors_fn, processConnectors_fn, processSfdcInstances_fn,
      processSfdcChannels_fn, sfdcNamingConvention,
      lookup_due, regular, looked_up, lookup_of, v_file, getFilenameWithoutExtension;
    run; split_cases.
  all: try (split; [eexists; reflexivity|intros; first [reflexivity|discriminate]]).
  all: exfalso; cbn in *; congruence.
Qed.

Lemma walk_result (fn : visit -> unit -> M W unit) (vs : list visit) (w : W) :
  exists e, result_of (walk_visits fn vs tt w) = inr (tt, e).
Proof.
  destruct (walk_never_throws fn vs tt w) as [[[] e] H]. now exists e.
Qed.

(** A step that returns the error of its walk. *)
Lemma checked_step_meets (sel : call -> bool) (due1 : visit -> option call)
    (fn : visit -> unit -> M W unit) (p : path) (w : W) :
  (forall v w,
      List.filter sel (calls (trace_of (fn v tt w))) `prefix_of` option_list (due1 v)
      /\ (result_of (fn v tt w) = inr tt ->
          List.filter sel (calls (trace_of (fn v tt w))) = option_list (due1 v))) ->
  meets true sel (omap due1 (walked root p))
    ((if is_folder root p
      then r <- filepath_Walk root p fn tt ;;; check (snd r)
      else ret tt) w).
Proof.
  intros Hfn. unfold walked. destruct (is_folder root p).
  - destruct (walk_meets sel due1 fn Hfn (visits root p) w) as [P E].
    destruct (walk_result fn (visits root p) w) as [e He].
    unfold meets, filepath_Walk. rewrite trace_bind, result_bind, He. cbn [snd].
    assert (T : trace_of (@check W e (world_of (walk_visits fn (visits root p) tt w))) = [])
      by now destruct e.
    rewrite T, app_nil_r. split; [exact P|]. intros _ H. apply E.
    destruct e; [discriminate|exact He].
  - split; [now exists []|reflexivity].
Qed.

(** The step of the custom connectors, which returns [nil] whatever its
    walk returns. *)
Lemma unchecked_step_meets (sel : call -> bool) (due1 : visit -> option call)
    (fn : visit -> unit -> M W unit) (p : path) (w : W) :
  (forall v w,
      List.filter sel (calls (trace_of (fn v tt w))) `prefix_of` option_list (due1 v)
      /\ (result_of (fn v tt w) = inr tt ->
          List.filter sel (calls (trace_of (fn v tt w))) = option_list (due1 v))) ->
  meets false sel (omap due1 (walked root p))
    ((if is_folder root p
      then _ <- filepath_Walk root p fn tt ;;; ret tt
      else ret tt) w).
Proof.
  intros Hfn. unfold walked. destruct (is_folder root p).
  - destruct (walk_meets sel due1 fn Hfn (visits root p) w) as [P E].
    destruct (walk_result fn (visits root p) w) as [e He].
    unfold meets, filepath_Walk. rewrite trace_bind, He. cbn [trace_of ret fst].
    rewrite app_nil_r. split; [exact P|discriminate].
  - split; [now exists []|discriminate].
Qed.

End Callbacks_due.

Section Steps_due.

Context {W : Type}.
Variable cl : Client W.
Variable Sprintf_other : Json.value -> string.
Variable fl : flags.
Variable root : node.

(** The lookups of a guarded step are the first of those due to the
    files of its folder; they are all of them when the step returns
    [nil], unless it is the step of the custom connectors. *)
Lemma step_of_meets (srcFolder folder : path) (k : kind) (w : W) :
  k <> Integration ->
  meets (is_checked k) (is_lookup_on k)
    (lookups_due fl root k (walked root (kind_folder folder k)))
    (step_of cl Sprintf_other fl root srcFolder folder k w).
Proof.
  intros Hk. unfold lookups_due.
  change (fun v => if regular v && looked_up fl root k v then lookup_of fl k (v_file v) else None)
    with (lookup_due fl root k).
  destruct k; try contradiction; cbn [step_of is_checked];
    unfold processAuthConfigs, processEndpoints, processManagedZones,
      processCustomConnectors, processConnectors, processSfdcInstances,
      processSfdcChannels;
    first [apply checked_step_meets|apply unchecked_step_meets];
    intros v w'; apply (callbacks_meet cl fl root); unfold guarded_steps; simpl; tauto.
Qed.

End Steps_due.

(** ** The lookup of a channel *)

Lemma regular_file_visit (v : visit) : regular v = true <-> file_visit v.
Proof.
  unfold regular, file_visit, is_nil. destruct (v_err v), (v_IsDir v); simpl;
    split; (intros [? ?] || intros ?); try discriminate; auto.
Qed.

Lemma channel_lookup_due (fl : flags) (root : node) (v : visit) :
  lookup_due fl root SfdcChannel v = channel_lookup fl v.
Proof.
  unfold lookup_due, channel_lookup, looked_up, lookup_of.
  destruct (regular v); [|reflexivity]. cbn [andb].
  destruct (MatchString rJSONFiles (v_file v)); [|reflexivity]. cbn [andb].
  destruct (strings_Split _ _) as [|a [|b [|c l]]]; reflexivity.
Qed.

Lemma is_channel_lookup_on (c : call) : is_lookup_on SfdcChannel c = is_channel_lookup c.
Proof. now destruct c. Qed.

Lemma omap_ext_all {A B} (f g : A -> option B) (l : list A) :
  (forall a, f a = g a) -> omap f l = omap g l.
Proof. intros H. apply list_omap_ext. induction l; constructor; auto. Qed.

Lemma In_omap_prefix {A B} (f : A -> option B) (l : list A) (l1 : list B) (b : B) :
  l1 `prefix_of` omap f l -> In b l1 -> exists a, In a l /\ f a = Some b.
Proof.
  intros [k Hk] Hin.
  assert (H : b ∈ omap f l). { rewrite Hk. apply elem_of_app. left. now apply list_elem_of_In. }
  apply list_elem_of_omap in H as (a & Ha & Hf). exists a. split; [|exact Hf].
  now apply list_elem_of_In.
Qed.

Section Channels.

Context {W : Type}.
Variable cl : Client W.
Variable Sprintf_other : Json.value -> string.
Variable fl : flags.
Variable disk : string -> filesystem.

(** C6.  In a run on the scaffold folder [f], the calls of
    [sfdc.FindChannel] are those due to the files of the [sfdcchannels]
    folder, in the order of the walk: for a regular file with the name of
    a JSON file whose name without extension splits under the splitter of
    the run into exactly two segments, the instance and then the channel,
    the call [sfdc.FindChannel channelSegment instanceSegment], which
    takes the segments in the inverted order; for any other entry, no
    call.  The run makes the first of these calls, as far as it gets, and
    all of them when it returns [nil]: then every such file of the folder
    has its inverted lookup among the calls of the run.  In any run, a
    call of [sfdc.FindChannel] is the inverted lookup of such a file of
    the folder. *)
Theorem sfdc_channel_lookup_inverts_segments (w : W) (f : string) :
  result_of (scaffold_folder cl fl w) = inr f ->
  let fs := disk f in
  let channels := walked (fs_root fs) (kind_folder (env_folder fl fs f) SfdcChannel) in
  let o := RunE cl Sprintf_other fl disk w in
  channel_lookups (trace_of o) `prefix_of` omap (channel_lookup fl) channels
  /\ (result_of o = inr tt ->
      channel_lookups (trace_of o) = omap (channel_lookup fl) channels)
  /\ (result_of o = inr tt ->
      forall v instanceSegment channelSegment,
        In v channels -> file_visit v -> MatchString rJSONFiles (v_file v) = true ->
        strings_Split (getFilenameWithoutExtension (v_file v)) (fileSplitter fl)
          = [instanceSegment; channelSegment] ->
        In (sfdc_FindChannel channelSegment instanceSegment) (calls (trace_of o)))
  /\ (forall name instance,
        In (sfdc_FindChannel name instance) (calls (trace_of o)) ->
        exists v, In v channels /\ file_visit v
                  /\ MatchString rJSONFiles (v_file v) = true
                  /\ strings_Split (getFilenameWithoutExtension (v_file v)) (fileSplitter fl)
                     = [instance; name]).
Proof.
  intros Hf fs channels o.
  assert (H : meets true is_channel_lookup (omap (channel_lookup fl) channels) o).
  { assert (H : meets true (is_lookup_on SfdcChannel)
                  (lookups_due fl (fs_root fs) SfdcChannel channels) o).
    { apply (RunE_meets cl Sprintf_other fl disk true _ _ SfdcChannel w f Hf).
      - apply is_lookup_on_picks.
      - unfold plan. rewrite !in_app_iff. simpl. tauto.
      - intros w'. apply (step_of_meets cl Sprintf_other fl (fs_root fs) _ _ SfdcChannel).
        discriminate. }
    unfold meets, lookups_due in *.
    rewrite (List.filter_ext _ _ is_channel_lookup_on) in H.
    rewrite (omap_ext_all _ (channel_lookup fl) channels) in H; [exact H|].
    intros v. apply channel_lookup_due. }
  destruct H as [P E]. fold (channel_lookups (trace_of o)) in P, E.
  split; [exact P|]. split; [intros R; apply E; [reflexivity|now rewrite R]|]. split.
  - intros R v i c Hin Hv Hm Hs.
    assert (Hc : In (sfdc_FindChannel c i) (channel_lookups (trace_of o))).
    { rewrite E; [|reflexivity|now rewrite R].
      apply list_elem_of_In, list_elem_of_omap. exists v. split; [now apply list_elem_of_In|].
      unfold channel_lookup. apply regular_file_visit in Hv. now rewrite Hv, Hm, Hs. }
    unfold channel_lookups in Hc. now apply List.filter_In in Hc as [Hc _].
  - intros name instance Hin.
    assert (Hc : In (sfdc_FindChannel name instance) (channel_lookups (trace_of o))).
    { apply List.filter_In. split; [exact Hin|reflexivity]. }
    destruct (In_omap_prefix _ _ _ _ P Hc) as (v & Hv & Hl). exists v. split; [exact Hv|].
    unfold channel_lookup in Hl.
    destruct (regular v) eqn:R; [|discriminate]. apply regular_file_visit in R.
    destruct (MatchString rJSONFiles (v_file v)); [|discriminate]. cbn [andb] in Hl.
    destruct (strings_Split _ _) as [|a [|b [|c l]]]; try discriminate.
    injection Hl as -> ->. auto.
Qed.

End Channels.

(** ** The plan of a run *)

Lemma creates_version_after (fl : flags) (name : string) (t1 t2 : list event) :
  creates_version fl name t2 -> creates_version fl name (t1 ++ t2).
Proof.
  intros (c & o & H). exists c, o. rewrite calls_app. apply in_or_app. now right.
Qed.

Section Integration_due.

Context {W : Type}.
Variable cl : Client W.
Variable Sprintf_other : Json.value -> string.
Variable fl : flags.
Variable root : node.

Tactic Notation "onward" hyp(H) :=
  apply (success_then _ _ _ _ _ (creates_version_after _ _) H);
  clear H; intros ? ? H.

(** When the integration step has found a file and returns [nil], it has
    created a version named after the first file found. *)
Lemma processIntegration_creates
    (overridesFile integrationFolder configVarsFolder : path) (pl : string)
    (first : string) (others : list string) (w : W) :
  let o := processIntegration cl Sprintf_other fl root overridesFile integrationFolder
             configVarsFolder pl (grantPermission fl) w in
  found_names rJSONFiles (visits root integrationFolder) = first :: others ->
  result_of o = inr tt ->
  creates_version fl (getFilenameWithoutExtension first) (trace_of o).
Proof.
  cbv zeta. intros Hn H. unfold processIntegration in *.
  onward H. onward H.
  apply (success_bind _ _ _ _ _ (creates_version_after _ _) H).
  clear H. intros r Hr H. unfold filepath_Walk in *. rewrite walk_collect in *.
  injection Hr as <-. cbn [world_of fst snd app] in *. rewrite Hn in *.
  do 4 onward H.
  clear H. rewrite trace_bind.
  unfold invoke at 1. unfold trace_of at 1.
  destruct (do_CreateVersion cl _ _ _ _ _ _ _) as [resp after]. cbn [fst].
  do 2 eexists. rewrite calls_app. apply in_or_app. left. left. reflexivity.
Qed.

End Integration_due.

Section Last_step.

Context {W : Type}.
Variable cl : Client W.
Variable Sprintf_other : Json.value -> string.
Variable fl : flags.
Variable disk : string -> filesystem.

(** A run that returns [nil] has gone through its last step, which has
    returned [nil]. *)
Lemma RunE_last_step (Q : list event -> Prop) (w : W) (f : string) :
  (forall t1 t2, Q t2 -> Q (t1 ++ t2)) ->
  result_of (scaffold_folder cl fl w) = inr f ->
  result_of (RunE cl Sprintf_other fl disk w) = inr tt ->
  (forall w',
      let o := step_of cl Sprintf_other fl (fs_root (disk f)) (place (disk f) f)
                 (env_folder fl (disk f) f) Integration w' in
      result_of o = inr tt -> Q (trace_of o)) ->
  Q (trace_of (RunE cl Sprintf_other fl disk w)).
Proof.
  intros Hq Hf H Hlast. rewrite RunE_parts in *.
  apply (success_bind Q _ _ _ _ Hq H). clear H. intros f' Hf' H.
  rewrite Hf in Hf'. injection Hf' as <-.
  destruct (os_Stat_name (disk f) (env_name fl f)) as [e|st]; [discriminate|].
  destruct (negb (IsDir st)); [discriminate|].
  unfold apply_steps in *.
  do 7 (apply (success_then Q _ _ _ _ Hq H); clear H; intros ? ? H).
  now apply Hlast.
Qed.


End Last_step.

(** ** The lookup of an auth config *)

Section Ext.

Context {W : Type}.

Lemma bind_ext {A B} (m1 m2 : M W A) (k1 k2 : A -> M W B) :
  (forall w, m1 w = m2 w) -> (forall a w, k1 a w = k2 a w) ->
  forall w, bind m1 k1 w = bind m2 k2 w.
Proof.
  intros Hm Hk w. unfold bind. rewrite Hm. destruct (m2 w) as [[t w1] [e|a]]; [reflexivity|].
  now rewrite Hk.
Qed.

Lemma walk_ext {S} (fn1 fn2 : visit -> S -> M W S) :
  (forall v s w, fn1 v s w = fn2 v s w) ->
  forall vs s w, walk_visits fn1 vs s w = walk_visits fn2 vs s w.
Proof.
  intros H. induction vs as [|v vs IH]; intros s w; [reflexivity|]. simpl.
  apply bind_ext.
  - intros w'. unfold catch. now rewrite H.
  - intros [e|s'] w'; [reflexivity|apply IH].
Qed.

(** A walk that has come through its first visits goes on with the
    others from the state that it has reached. *)
Lemma walk_app (fn : visit -> unit -> M W unit) (vs rest : list visit) (w w1 : W)
    (t : list event) :
  walk_visits fn vs tt w = (t, w1, inr (tt, None)) ->
  walk_visits fn (vs ++ rest) tt w
  = (t ++ trace_of (walk_visits fn rest tt w1),
     world_of (walk_visits fn rest tt w1),
     result_of (walk_visits fn rest tt w1)).
Proof.
  revert w t. induction vs as [|v vs IH]; intros w t H.
  - injection H as <- <-. simpl. now destruct (walk_visits fn rest tt w) as [[t' w'] r].
  - simpl in *. unfold bind, catch in *.
    destruct (fn v tt w) as [[t0 w0] [e|[]]]; [discriminate|].
    destruct (walk_visits fn vs tt w0) as [[ts ws] rs] eqn:E.
    injection H as <- <- ->. rewrite (IH w0 ts E). cbn [fst snd trace_of world_of result_of].
    now rewrite app_assoc.
Qed.

End Ext.

Section Lookup_error.

Context {W : Type}.
Variable cl : Client W.
Variable Sprintf_other : Json.value -> string.
Variable fl : flags.
Variable disk : string -> filesystem.

Lemma callback_without_lookup_error (root : node) (v : visit) (u : unit) (w : W) :
  processAuthConfigs_fn cl root v u w
  = processAuthConfigs_fn (without_lookup_error cl) root v u w.
Proof. reflexivity. Qed.

Lemma step_without_lookup_error (root : node) (p : path) (w : W) :
  processAuthConfigs cl root p w = processAuthConfigs (without_lookup_error cl) root p w.
Proof.
  unfold processAuthConfigs. destruct (is_folder root p); [|reflexivity].
  apply bind_ext; [|reflexivity]. intros w'. unfold filepath_Walk.
  apply walk_ext. intros v' s w''. apply callback_without_lookup_error.
Qed.

Lemma run_without_lookup_error (w : W) :
  RunE cl Sprintf_other fl disk w
  = RunE (without_lookup_error cl) Sprintf_other fl disk w.
Proof.
  rewrite !RunE_parts. apply bind_ext; [reflexivity|]. intros f w1.
  destruct (os_Stat_name (disk f) (env_name fl f)) as [e|st]; [reflexivity|].
  destruct (negb (IsDir st)); [reflexivity|].
  unfold apply_steps. apply bind_ext; [reflexivity|]. intros _ w2.
  apply bind_ext; [|reflexivity]. intros w3.
  destruct (negb (skipAuthconfigs fl)); [|reflexivity].
  apply step_without_lookup_error.
Qed.

(** The callback of the auth configs on a file whose lookup has returned
    the empty version. *)
Lemma callback_after_empty_version (root : node) (v : visit) (w : W)
    (err : option error) (content : string) :
  file_visit v ->
  MatchString rJSONFiles (v_file v) = true ->
  do_authconfigs_Find cl w (getFilenameWithoutExtension (v_file v)) "" = ("", err) ->
  utils_ReadFile root (v_path v) = inr content ->
  processAuthConfigs_fn cl root v tt w
  = (creation_attempt (v_file v) content,
     snd (do_authconfigs_Create cl w content),
     match fst (do_authconfigs_Create cl w content) with
     | Some create_err => inl create_err
     | None => inr tt
     end).
Proof.
  intros [Herr Hdir] Hm Hfind Hread. unfold v_file in *.
  unfold processAuthConfigs_fn, creation_attempt. run. rewrite Herr, Hdir, Hm. simpl.
  rewrite Hfind. simpl. rewrite Hread. simpl.
  destruct (do_authconfigs_Create cl w content) as [[e|] w']; reflexivity.
Qed.

(** The step of the auth configs, when its walk comes to such a file. *)
Lemma step_after_empty_version (root : node) (p : path) (vs rest : list visit) (v : visit)
    (w w1 : W) (t : list event) (err : option error) (content : string) :
  is_folder root p = true ->
  visits root p = vs ++ v :: rest ->
  walk_visits (processAuthConfigs_fn cl root) vs tt w = (t, w1, inr (tt, None)) ->
  file_visit v ->
  MatchString rJSONFiles (v_file v) = true ->
  do_authconfigs_Find cl w1 (getFilenameWithoutExtension (v_file v)) "" = ("", err) ->
  utils_ReadFile root (v_path v) = inr content ->
  exists t',
    trace_of (processAuthConfigs cl root p w)
    = t ++ creation_attempt (v_file v) content ++ t'.
Proof.
  intros Hf Hv Hw Hfile Hm Hfind Hread.
  pose proof (callback_after_empty_version root v w1 err content Hfile Hm Hfind Hread) as Hc.
  unfold processAuthConfigs. rewrite Hf. unfold filepath_Walk. rewrite Hv.
  rewrite trace_bind, (walk_app _ _ _ _ _ _ Hw). cbn [trace_of fst].
  cbn [walk_visits]. fold (@trace_of W (unit * option error)). rewrite trace_bind.
  assert (T : trace_of (catch (processAuthConfigs_fn cl root v tt) w1)
              = creation_attempt (v_file v) content).
  { unfold catch. now rewrite Hc. }
  rewrite T, <- !app_assoc. eexists. reflexivity.
Qed.

(** A run that finds its folder and does not skip the auth configs goes
    through their step, from the state in which the folder was found. *)
Lemma RunE_first_step (w : W) (f : string) :
  skipAuthconfigs fl = false ->
  result_of (scaffold_folder cl fl w) = inr f ->
  is_folder_name (disk f) (env_name fl f) = true ->
  exists t0 t',
    trace_of (RunE cl Sprintf_other fl disk w)
    = t0 ++ trace_of (processAuthConfigs cl (fs_root (disk f))
                        (kind_folder (env_folder fl (disk f) f) AuthConfig)
                        (world_of (scaffold_folder cl fl w)))
         ++ t'.
Proof.
  intros Hs Hf Hd. rewrite RunE_parts, trace_bind, Hf.
  unfold is_folder_name in Hd.
  destruct (os_Stat_name (disk f) (env_name fl f)) as [e|st]; [discriminate|].
  rewrite Hd. cbn [negb]. unfold apply_steps. rewrite Hs. cbn [negb].
  rewrite trace_bind. cbn [invoke result_of world_of snd fst trace_of].
  rewrite trace_bind. unfold kind_folder.
  exists (trace_of (scaffold_folder cl fl w) ++ [Call apiclient_DisableCmdPrintHttpResponse]).
  eexists. apply app_assoc.
Qed.

Lemma step_after_unread_file (root : node) (p : path) (vs rest : list visit) (v : visit)
    (w w1 : W) (t : list event) (err : option error) (read_err : error) :
  is_folder root p = true ->
  visits root p = vs ++ v :: rest ->
  walk_visits (processAuthConfigs_fn cl root) vs tt w = (t, w1, inr (tt, None)) ->
  file_visit v ->
  MatchString rJSONFiles (v_file v) = true ->
  do_authconfigs_Find cl w1 (getFilenameWithoutExtension (v_file v)) "" = ("", err) ->
  utils_ReadFile root (v_path v) = inl read_err ->
  processAuthConfigs cl root p w
  = (t ++ [Printf Info "Found configuration for authconfig: %s\n" [AStr (v_file v)];
           Call (authconfigs_Find (getFilenameWithoutExtension (v_file v)) "")],
     w1, inl read_err).
Proof.
  intros Hf Hv Hw [Herr Hdir] Hm Hfind Hread.
  assert (Hc : processAuthConfigs_fn cl root v tt w1
               = ([Printf Info "Found configuration for authconfig: %s\n" [AStr (v_file v)];
                   Call (authconfigs_Find (getFilenameWithoutExtension (v_file v)) "")],
                  w1, inl read_err)).
  { unfold v_file in *. unfold processAuthConfigs_fn. run. rewrite Herr, Hdir, Hm. simpl.
    rewrite Hfind. simpl. now rewrite Hread. }
  assert (Hone : walk_visits (processAuthConfigs_fn cl root) (v :: rest) tt w1
                 = ([Printf Info "Found configuration for authconfig: %s\n"
                       [AStr (v_file v)];
                     Call (authconfigs_Find (getFilenameWithoutExtension (v_file v)) "")],
                    w1, inr (tt, Some read_err))).
  { cbn [walk_visits]. unfold bind, catch. rewrite Hc. reflexivity. }
  unfold processAuthConfigs, filepath_Walk. rewrite Hf, Hv. unfold bind at 1.
  rewrite (walk_app _ _ _ _ _ _ Hw), Hone. cbn. now rewrite !app_nil_r.
Qed.

(** C10.  In the step of the auth configs, when the walk comes to a
    regular file with the name of a JSON file and [authconfigs.Find]
    returns the empty version, with or without an error beside it, the
    step goes on to create the auth config: it reads the file and calls
    [authconfigs.Create] with the content, or returns the error of
    reading when the file cannot be read.  A run that finds its folder
    and does not skip the auth configs goes through this step.  The error
    of the lookup has no influence at all: the step and the run do the
    same, log line for log line, state for state and result for result,
    against the client whose lookup returns the same version and never an
    error. *)
Theorem authconfig_lookup_error_is_discarded :
  (forall root p vs rest v w w1 t err,
      is_folder root p = true ->
      visits root p = vs ++ v :: rest ->
      walk_visits (processAuthConfigs_fn cl root) vs tt w = (t, w1, inr (tt, None)) ->
      file_visit v ->
      MatchString rJSONFiles (v_file v) = true ->
      do_authconfigs_Find cl w1 (getFilenameWithoutExtension (v_file v)) "" = ("", err) ->
      match utils_ReadFile root (v_path v) with
      | inr content =>
          exists t',
            trace_of (processAuthConfigs cl root p w)
            = t ++ creation_attempt (v_file v) content ++ t'
      | inl read_err =>
          processAuthConfigs cl root p w
          = (t ++ [Printf Info "Found configuration for authconfig: %s\n" [AStr (v_file v)];
                   Call (authconfigs_Find (getFilenameWithoutExtension (v_file v)) "")],
             w1, inl read_err)
      end)
  /\ (forall w f,
        skipAuthconfigs fl = false ->
        result_of (scaffold_folder cl fl w) = inr f ->
        is_folder_name (disk f) (env_name fl f) = true ->
        exists t0 t',
          trace_of (RunE cl Sprintf_other fl disk w)
          = t0 ++ trace_of (processAuthConfigs cl (fs_root (disk f))
                              (kind_folder (env_folder fl (disk f) f) AuthConfig)
                              (world_of (scaffold_folder cl fl w)))
               ++ t')
  /\ (forall root p w,
        processAuthConfigs cl root p w
        = processAuthConfigs (without_lookup_error cl) root p w)
  /\ (forall w,
        RunE cl Sprintf_other fl disk w
        = RunE (without_lookup_error cl) Sprintf_other fl disk w).
Proof.
  split; [|split; [|split]].
  - intros root p vs rest v w w1 t err Hf Hv Hw Hfile Hm Hfind.
    destruct (utils_ReadFile root (v_path v)) as [read_err|content] eqn:Hread.
    + exact (step_after_unread_file root p vs rest v w w1 t err read_err
               Hf Hv Hw Hfile Hm Hfind Hread).
    + exact (step_after_empty_version root p vs rest v w w1 t err content
               Hf Hv Hw Hfile Hm Hfind Hread).
  - apply RunE_first_step.
  - apply step_without_lookup_error.
  - apply run_without_lookup_error.
Qed.
End Lookup_error.

(** ** Whole runs *)

Section Whole_runs.

Context {W : Type}.
Variable cl : Client W.
Variable Sprintf_other : Json.value -> string.
Variable fl : flags.
Variable disk : string -> filesystem.

(** C5, as amended.  In each of the seven guarded steps a file whose
    lookup reports the resource as existing gets no creation: the
    callback makes that one lookup, leaves the platform as it is and
    returns [nil], so that the walk goes on.  Hence a run on a given
    folder, started in a state in which every lookup that the seven steps
    reach reports its resource as existing, makes none of the seven
    guarded creations. *)
Theorem existing_resources_are_not_created :
  (forall root k fn,
      In (k, fn) (guarded_steps cl fl root) ->
      forall (v : visit) (w : W),
        file_visit v -> looked_up fl root k v = true ->
        reported_existing cl fl k w v = true ->
        let o := fn v tt w in
        result_of o = inr tt /\ world_of o = w
        /\ exists c, calls (trace_of o) = [c] /\ is_probe c = true)
  /\ (forall w,
        folder fl <> "" ->
        let fs := disk (folder fl) in
        (forall k v,
            In v (visits (fs_root fs) (kind_folder (env_folder fl fs (folder fl)) k)) ->
            file_visit v -> looked_up fl (fs_root fs) k v = true ->
            reported_existing cl fl k w v = true) ->
        avoids is_guarded_create (trace_of (RunE cl Sprintf_other fl disk w))).
Proof.
  split.
  - intros root k fn Hin v w Hv Hl Hr.
    destruct (guarded_steps_leave_alone cl fl root k fn Hin v w (fun _ _ => Hr))
      as (Hw & _ & H).
    destruct (H Hv Hl) as (Hres & Hc). auto.
  - intros w Hf fs H. apply RunE_existing; [exact Hf|]. intros k v. apply H.
Qed.

End Whole_runs.

(** * Further properties *)

(** ** The check of the flags *)

Lemma is_empty_spec (s : string) : is_empty s = true <-> s = "".
Proof. apply String.eqb_eq. Qed.

Lemma is_empty_false (s : string) : is_empty s = false <-> s <> "".
Proof. apply String.eqb_neq. Qed.

Ltac flag_cases fl :=
  destruct (is_empty (folder fl)) eqn:?, (is_empty (pipeline fl)) eqn:?,
    (is_empty (release fl)) eqn:?, (is_empty (outputGCSPath fl)) eqn:?;
  repeat match goal with
    | H : is_empty _ = true |- _ => apply is_empty_spec in H
    | H : is_empty _ = false |- _ => apply is_empty_false in H
    end;
  simpl.

(** X1.  [Args] returns [nil] exactly when the region is accepted, the
    flags name one source of the scaffold (a folder and nothing of a
    release, or a pipeline, a release and a results path and no folder),
    and the project is accepted. *)
Theorem Args_accepts_one_source (SetRegion SetProjectID : string -> option error)
    (cmdRegion cmdProject : string) (fl : flags) :
  snd (Args SetRegion SetProjectID cmdRegion cmdProject fl) = None
  <-> SetRegion cmdRegion = None /\ one_source fl /\ SetProjectID cmdProject = None.
Proof.
  unfold Args, one_source.
  destruct (SetRegion cmdRegion) as [e|]; [split; [discriminate|intros [? _]; discriminate]|].
  flag_cases fl; split; try discriminate; intuition congruence.
Qed.

(** X2.  When the region is accepted and the flags do not name one
    source, [Args] sets the region only and returns the first message when
    there is no folder, the second when there is one: the third test of
    the source, on a release given in part, is never the one that fails. *)
Theorem Args_rejects_with_one_of_two_messages
    (SetRegion SetProjectID : string -> option error)
    (cmdRegion cmdProject : string) (fl : flags) :
  SetRegion cmdRegion = None -> ~ one_source fl ->
  Args SetRegion SetProjectID cmdRegion cmdProject fl
  = ([apiclient_SetRegion cmdRegion],
     Some (fmt_Errorf
             (if is_empty (folder fl)
              then "atleast one of folder or pipeline, release and outputGCSPath must be supplied"
              else "both folder and pipeline, release and outputGCSPath cannot be supplied"))).
Proof.
  unfold Args, one_source. intros -> H.
  flag_cases fl; try reflexivity; exfalso; apply H; auto 10.
Qed.

(** ** A run from a folder *)

(** Resolves [always (avoids bad) m] for a computation written with the
    operations of the monad, when [bad] tells by the name of a call. *)
Ltac avoid_step :=
  lazymatch goal with
  | |- always ?P (bind _ _) =>
      apply (always_bind P P P);
      [intros ? ? ? ?; apply avoids_app; split; assumption | reflexivity | | intros ?]
  | |- always _ (ret _) => apply always_ret; reflexivity
  | |- always _ (throw _) => apply always_throw; reflexivity
  | |- always _ (check _) => apply always_check; reflexivity
  | |- always _ (lift _) => apply always_lift; reflexivity
  | |- always _ (clilog_Info _ _) => apply always_Info; reflexivity
  | |- always _ (clilog_Warning _ _) => apply always_Warning; reflexivity
  | |- always _ (query _ _) => apply always_query; reflexivity
  | |- always _ (invoke _ _) => apply always_invoke; reflexivity
  | |- always _ (filepath_Walk _ _ _ _) =>
      apply always_walk;
      [reflexivity | intros ? ? ? ?; apply avoids_app; split; assumption | intros ? ?]
  | |- always _ (for_each _ _ _) =>
      apply always_for_each;
      [reflexivity | intros ? ? ? ?; apply avoids_app; split; assumption | intros ? ?]
  | |- always _ (if ?b then _ else _) => destruct b
  | |- always _ (match ?x with _ => _ end) => destruct x
  end.

Ltac unfold_steps :=
  unfold apply_steps, processAuthConfigs, processAuthConfigs_fn, processEndpoints,
    processEndpoints_fn, processManagedZones, processManagedZones_fn,
    processCustomConnectors, processCustomConnectors_fn, processConnectors,
    processConnectors_fn, processSfdcInstances, processSfdcInstances_fn,
    processSfdcChannels, processSfdcChannels_fn, processIntegration,
    processCodeFolders, processTestCases, collect.

Lemma accepted_with_a_folder (SetRegion SetProjectID : string -> option error)
    (cmdRegion cmdProject : string) (fl : flags) :
  snd (Args SetRegion SetProjectID cmdRegion cmdProject fl) = None ->
  folder fl <> "" -> pipeline fl = "".
Proof.
  unfold Args. destruct (SetRegion cmdRegion) as [e|]; [discriminate|].
  flag_cases fl; try discriminate; congruence.
Qed.

Section Release_calls.

Context {W : Type}.
Variable cl : Client W.
Variable Sprintf_other : Json.value -> string.
Variable fl : flags.
Variable disk : string -> filesystem.

Lemma steps_make_no_release_call (root : node) (srcFolder folder : path) :
  pipeline fl = "" ->
  always (avoids is_release_call) (apply_steps cl Sprintf_other fl root srcFolder folder).
Proof.
  intros Hp. unfold_steps. rewrite Hp. cbn [String.eqb negb].
  repeat avoid_step.
Qed.

(** X3.  For flags that [Args] accepts with a folder, the run makes no
    call to find or unpack a release and writes no results file. *)
Theorem accepted_folder_needs_no_release
    (SetRegion SetProjectID : string -> option error) (cmdRegion cmdProject : string)
    (w : W) :
  snd (Args SetRegion SetProjectID cmdRegion cmdProject fl) = None ->
  folder fl <> "" ->
  avoids is_release_call (trace_of (RunE cl Sprintf_other fl disk w)).
Proof.
  intros Ha Hf. pose proof (accepted_with_a_folder _ _ _ _ _ Ha Hf) as Hp.
  apply String.eqb_neq in Hf. unfold RunE. rewrite Hf.
  revert w. change (always (avoids is_release_call)
    (folder0 <- ret (folder fl) ;;;
     match os_Stat_name (disk folder0) (env_name fl folder0) with
     | inl err => throw (fmt_Errorf_w "problem with supplied path, %w" (Some err))
     | inr stat =>
         if negb (IsDir stat)
         then throw (fmt_Errorf_w "problem with supplied path, %w" None)
         else apply_steps cl Sprintf_other fl (fs_root (disk folder0))
                (place (disk folder0) folder0) (env_folder fl (disk folder0) folder0)
     end)).
  avoid_step; [avoid_step|]. avoid_step; [avoid_step|]. avoid_step; [avoid_step|].
  now apply steps_make_no_release_call.
Qed.

End Release_calls.

(** ** File names and their extension *)

Lemma string_app_length (a b : string) :
  String.length (a +:+ b) = String.length a + String.length b.
Proof. induction a as [|c a IH]; simpl; [reflexivity|now rewrite IH]. Qed.

Lemma strings_TrimSuffix_cons (c : ascii) (s suffix : string) :
  strings_TrimSuffix (String c s) suffix =
    if String.eqb (String c s) suffix then "" else String c (strings_TrimSuffix s suffix).
Proof. reflexivity. Qed.

Lemma strings_TrimSuffix_app (stem suffix : string) :
  strings_TrimSuffix (stem +:+ suffix) suffix = stem.
Proof.
  induction stem as [|c stem IH].
  - simpl. destruct suffix; simpl; [reflexivity|].
    now rewrite Ascii.eqb_refl, String.eqb_refl.
  - change (String c stem +:+ suffix) with (String c (stem +:+ suffix)).
    rewrite strings_TrimSuffix_cons.
    destruct (String.eqb (String c (stem +:+ suffix)) suffix) eqn:E.
    + apply String.eqb_eq in E. apply (f_equal String.length) in E.
      simpl in E. rewrite string_app_length in E. lia.
    + now rewrite IH.
Qed.

Lemma bytes_of_app (a b : string) : bytes_of (a +:+ b) = bytes_of a ++ bytes_of b.
Proof. induction a as [|c a IH]; simpl; [reflexivity|]. unfold bytes_of in *. simpl. now rewrite IH. Qed.

Lemma string_of_app (a b : list ascii) : string_of (a ++ b) = string_of a +:+ string_of b.
Proof. induction a as [|c a IH]; simpl; [reflexivity|]. unfold string_of in *. simpl. now rewrite IH. Qed.

Lemma string_of_bytes (s : string) : string_of (bytes_of s) = s.
Proof. apply string_of_list_ascii_of_string. Qed.

Lemma ext_scan_plain (l r acc : list ascii) :
  forallb (fun c => negb (is_dot c) && negb (is_sep c)) l = true ->
  ext_scan (rev l ++ r) acc = ext_scan r (l ++ acc).
Proof.
  revert acc. induction l as [|c l IH] using rev_ind; intros acc H; [reflexivity|].
  rewrite forallb_app in H. apply andb_true_iff in H as [Hl Hc]. simpl in Hc.
  rewrite andb_true_r in Hc. apply andb_true_iff in Hc as [Hd Hs].
  rewrite rev_app_distr. simpl.
  destruct (is_sep c); [discriminate|]. destruct (is_dot c); [discriminate|].
  rewrite IH by exact Hl. now rewrite <- app_assoc.
Qed.

Lemma filepath_Ext_plain (stem ext : string) :
  plain_ext ext = true ->
  filepath_Ext (stem +:+ "." +:+ ext) = "." +:+ ext.
Proof.
  intros H. unfold filepath_Ext. rewrite !bytes_of_app, !rev_app_distr, <- app_assoc.
  rewrite ext_scan_plain by exact H. simpl.
  rewrite app_nil_r. unfold string_of at 1. simpl. f_equal. apply string_of_bytes.
Qed.

(** What [ext_scan] returns ends the text that it scans. *)
Lemma ext_scan_suffix (r acc : list ascii) :
  exists stem, rev r ++ acc = stem ++ bytes_of (ext_scan r acc).
Proof.
  revert acc. induction r as [|c r IH]; intros acc; simpl.
  - exists acc. now rewrite app_nil_r.
  - destruct (is_sep c).
    + exists (rev r ++ c :: acc). simpl. now rewrite app_nil_r, <- app_assoc.
    + destruct (is_dot c).
      * exists (rev r). rewrite <- app_assoc. simpl. f_equal.
        unfold bytes_of, string_of. now rewrite list_ascii_of_string_of_list_ascii.
      * destruct (IH (c :: acc)) as [stem Hs]. exists stem. now rewrite <- app_assoc.
Qed.

Lemma filepath_Ext_suffix (s : string) : exists stem, s = stem +:+ filepath_Ext s.
Proof.
  unfold filepath_Ext. destruct (ext_scan_suffix (rev (bytes_of s)) []) as [stem H].
  rewrite rev_involutive, app_nil_r in H. exists (string_of stem).
  set (e := ext_scan (rev (bytes_of s)) []) in *.
  rewrite <- (string_of_bytes s), H, string_of_app. f_equal.
  apply string_of_bytes.
Qed.

(** X4.  [getFilenameWithoutExtension] removes an extension that has no
    dot and no slash in it, and nothing else, whatever the name before
    the dot is. *)
Theorem getFilenameWithoutExtension_drops_the_extension (stem ext : string) :
  plain_ext ext = true ->
  getFilenameWithoutExtension (stem +:+ "." +:+ ext) = stem.
Proof.
  intros H. unfold getFilenameWithoutExtension. rewrite filepath_Ext_plain by exact H.
  apply strings_TrimSuffix_app.
Qed.

(** X5.  A file name is what [getFilenameWithoutExtension] returns for
    it, followed by its extension. *)
Theorem getFilenameWithoutExtension_and_extension (filname : string) :
  getFilenameWithoutExtension filname +:+ filepath_Ext filname = filname.
Proof.
  unfold getFilenameWithoutExtension.
  destruct (filepath_Ext_suffix filname) as [stem H].
  rewrite H at 1. rewrite strings_TrimSuffix_app. now rewrite <- H.
Qed.

(** ** What holds of every part of a run *)

Section Run_parts.

Context {W : Type}.
Variable cl : Client W.
Variable Sprintf_other : Json.value -> string.
Variable fl : flags.
Variable disk : string -> filesystem.

(** What holds of the start of a run and of its steps holds of the run. *)
Lemma RunE_always (P : list event -> Prop) :
  P [] -> (forall t1 t2, P t1 -> P t2 -> P (t1 ++ t2)) ->
  always P (scaffold_folder cl fl) ->
  (forall root srcFolder folder,
      always P (apply_steps cl Sprintf_other fl root srcFolder folder)) ->
  always P (RunE cl Sprintf_other fl disk).
Proof.
  intros Hnil Happ Hs Hsteps. rewrite RunE_parts.
  apply (always_bind P P P); [exact Happ|exact Hnil|exact Hs|]. intros f.
  destruct (os_Stat_name (disk f) (env_name fl f)) as [e|st]; [now apply always_throw|].
  destruct (negb (IsDir st)); [now apply always_throw|apply Hsteps].
Qed.

Lemma always_lift_bind {A B} (P : list event -> Prop) (r : error + A) (k : A -> M W B) :
  P [] -> (forall a, r = inr a -> always P (k a)) -> always P (bind (lift r) k).
Proof.
  intros Hnil Hk w. destruct r as [e|a]; [exact Hnil|].
  specialize (Hk a eq_refl w). unfold bind, lift, ret, trace_of in *. simpl.
  destruct (k a w) as [[t w'] r']. exact Hk.
Qed.

Lemma getServiceAttachment_not_empty (respBody sa : string) :
  getServiceAttachment respBody = inr sa -> is_empty sa = false.
Proof.
  unfold getServiceAttachment, is_empty.
  destruct (Json.Unmarshal_strings respBody) as [e|m]; [discriminate|].
  destruct (String.eqb (Json.index_string m "serviceAttachment") "") eqn:E; [discriminate|].
  now intros [= <-].
Qed.

Lemma processEndpoints_attachment (root : node) (p : path) :
  always (avoids is_bare_endpoint) (processEndpoints cl root p).
Proof.
  unfold processEndpoints.
  avoid_step; [|avoid_step]. avoid_step; [|avoid_step].
  avoid_step. unfold processEndpoints_fn.
  avoid_step; [avoid_step|]. avoid_step; [|avoid_step].
  avoid_step; [repeat avoid_step|]. avoid_step; [avoid_step|].
  avoid_step; [|avoid_step]. avoid_step; [avoid_step|].
  apply always_lift_bind; [reflexivity|]. intros sa Hsa.
  apply getServiceAttachment_not_empty in Hsa.
  avoid_step; [|avoid_step].
  apply always_invoke. unfold avoids. simpl. now rewrite Hsa.
Qed.

(** X6.  No run creates an endpoint attachment with an empty service
    attachment. *)
Theorem endpoints_are_created_with_an_attachment (w : W) :
  avoids is_bare_endpoint (trace_of (RunE cl Sprintf_other fl disk w)).
Proof.
  revert w. apply RunE_always;
    [reflexivity|intros ? ? ? ?; apply avoids_app; split; assumption| |].
  - unfold scaffold_folder. repeat avoid_step.
  - intros root srcFolder folder. unfold apply_steps.
    avoid_step; [avoid_step|]. avoid_step; [unfold_steps; repeat avoid_step|].
    avoid_step; [apply processEndpoints_attachment|].
    unfold_steps; repeat avoid_step.
Qed.

End Run_parts.

(** ** Creations and their lookups *)

Lemma probed_after_any (prev : option call) (cs : list call) :
  probed_after None cs = true -> probed_after prev cs = true.
Proof.
  destruct cs as [|c cs]; [reflexivity|]. simpl.
  destruct (is_guarded_create c); [discriminate|auto].
Qed.

Lemma probed_after_app (prev : option call) (cs1 cs2 : list call) :
  probed_after prev cs1 = true -> probed_after None cs2 = true ->
  probed_after prev (cs1 ++ cs2) = true.
Proof.
  revert prev. induction cs1 as [|c cs1 IH]; intros prev H1 H2; simpl in *.
  - now apply probed_after_any.
  - apply andb_true_iff in H1 as [Hc H1]. rewrite Hc. simpl. now apply IH.
Qed.

Lemma probed_app (t1 t2 : list event) : probed t1 -> probed t2 -> probed (t1 ++ t2).
Proof. unfold probed. rewrite calls_app. apply probed_after_app. Qed.

Lemma avoids_probed (t : list event) : avoids is_guarded_create t -> probed t.
Proof.
  unfold avoids, probed. generalize (@None call).
  induction (calls t) as [|c cs IH]; intros prev H; simpl in *; [reflexivity|].
  apply orb_false_iff in H as [Hc H]. rewrite Hc. simpl. now apply IH.
Qed.

(** Takes a callback apart, case by case, innermost test first. *)
Ltac by_cases :=
  repeat (cbn [fst snd trace_of calls omap app];
          match goal with
          | |- context [match ?x with _ => _ end] =>
              lazymatch x with
              | context [match _ with _ => _ end] => fail
              | _ => destruct x
              end
          end);
  try (unfold trace_of, calls; simpl; rewrite ?String.eqb_refl; reflexivity).

Section Probed.

Context {W : Type}.
Variable cl : Client W.
Variable Sprintf_other : Json.value -> string.
Variable fl : flags.
Variable disk : string -> filesystem.

Lemma callbacks_probed (root : node) (v : visit) :
  always probed (processAuthConfigs_fn cl root v tt)
  /\ always probed (processEndpoints_fn cl root v tt)
  /\ always probed (processManagedZones_fn cl root v tt)
  /\ always probed (processCustomConnectors_fn cl fl root v tt)
  /\ always probed (processConnectors_fn cl fl root (grantPermission fl) (createSecret fl)
                      (wait fl) v tt)
  /\ always probed (processSfdcInstances_fn cl root v tt)
  /\ always probed (processSfdcChannels_fn cl fl root v tt).
Proof.
  unfold always, probed, processAuthConfigs_fn, processEndpoints_fn,
    processManagedZones_fn, processCustomConnectors_fn, processConnectors_fn,
    processSfdcInstances_fn, processSfdcChannels_fn.
  repeat split; intros w; run; by_cases.
Qed.

Ltac probed_step :=
  lazymatch goal with
  | |- always ?P (bind _ _) =>
      apply (always_bind P P P); [apply probed_app | reflexivity | | intros ?]
  | |- always _ (ret _) => apply always_ret; reflexivity
  | |- always _ (check _) => apply always_check; reflexivity
  | |- always _ (filepath_Walk _ _ _ _) =>
      apply always_walk; [reflexivity | apply probed_app | intros ? []]
  | |- always _ (if ?b then _ else _) => destruct b
  end.

Lemma steps_probed (root : node) (srcFolder folder : path) :
  always probed (apply_steps cl Sprintf_other fl root srcFolder folder).
Proof.
  unfold apply_steps, processAuthConfigs, processEndpoints, processManagedZones,
    processCustomConnectors, processConnectors, processSfdcInstances,
    processSfdcChannels.
  repeat probed_step;
    try (match goal with v : visit |- _ => apply (callbacks_probed root v) end).
  all: intros w; apply avoids_probed; try reflexivity.
  apply through_integration_avoids, processIntegration_through.
Qed.

(** X7.  In every run, each guarded creation comes right after the
    lookup of its own kind; for an endpoint, a zone, a connector and a
    custom connector the lookup is the one of the name (and version)
    that is created. *)
Theorem guarded_creations_follow_their_lookup (w : W) :
  probed (trace_of (RunE cl Sprintf_other fl disk w)).
Proof.
  revert w. apply RunE_always; [reflexivity|apply probed_app| |].
  - intros w. apply avoids_probed. revert w.
    change (always (avoids is_guarded_create) (scaffold_folder cl fl)).
    unfold scaffold_folder. repeat avoid_step.
  - intros r s f. apply steps_probed.
Qed.

End Probed.

(** ** Test cases *)

Section Test_cases.

Context {W : Type}.
Variable cl : Client W.
Variable root : node.
Variable folder : path.
Variables integrationName version : string.

Lemma test_case_outcome (name : string) (w : W) :
  create_test_case cl root folder integrationName version name tt w =
    match utils_ReadFile root (path_Join folder [name]) with
    | inl e => ([], w, inl e)
    | inr content =>
        let c := integrations_CreateTestCase integrationName version content in
        match do_CreateTestCase cl w integrationName version content with
        | (Some e, w1) => ([Call c], w1, inl e)
        | (None, w1) => ([Call c], w1, inr tt)
        end
    end.
Proof.
  unfold create_test_case. run.
  destruct (utils_ReadFile root (path_Join folder [name])); [reflexivity|].
  simpl. destruct (do_CreateTestCase cl w integrationName version s) as [[e|] w1]; reflexivity.
Qed.

Lemma for_each_test_cases (names : list string) (w : W) :
  let o := for_each names (create_test_case cl root folder integrationName version) tt w in
  exists rest,
    test_case_calls root folder integrationName version names
    = calls (trace_of o) ++ rest
    /\ (result_of o = inr tt -> rest = [] /\ all_readable root folder names).
Proof.
  revert w. induction names as [|name names IH]; intros w.
  - exists []. repeat split. constructor.
  - cbn [for_each]. cbv zeta. rewrite trace_bind, result_bind, calls_app, test_case_outcome.
    unfold test_case_calls, file_text. cbn [map].
    destruct (utils_ReadFile root (path_Join folder [name])) as [e|content] eqn:Hr.
    + eexists. split; [reflexivity|discriminate].
    + cbv zeta.
      destruct (do_CreateTestCase cl w integrationName version content) as [[e|] w1].
      * eexists. split; [reflexivity|discriminate].
      * cbn [trace_of world_of result_of fst snd].
        destruct (IH w1) as (rest & Hrest & Hnil). exists rest. split.
        -- unfold test_case_calls, file_text in Hrest. rewrite Hrest. reflexivity.
        -- intros H. destruct (Hnil H) as [-> Hall]. split; [reflexivity|].
           constructor; [eauto|exact Hall].
Qed.

(** X8.  The calls of [processTestCases] are the first of the creations
    of a test case for the JSON files found in the folder, in the order
    of the walk, each with the content read directly below the folder;
    when it returns [nil] they are all of them, and all these files
    could be read. *)
Theorem processTestCases_creates_one_per_file (w : W) :
  let names := found_names rJSONFiles (visits root folder) in
  let o := processTestCases cl root folder integrationName version w in
  (exists rest,
      test_case_calls root folder integrationName version names
      = calls (trace_of o) ++ rest)
  /\ (result_of o = inr tt ->
      calls (trace_of o) = test_case_calls root folder integrationName version names
      /\ all_readable root folder names).
Proof.
  cbv zeta. unfold processTestCases, filepath_Walk.
  fold (create_test_case cl root folder integrationName version).
  rewrite trace_bind, result_bind, calls_app, walk_collect. 
  cbn [trace_of world_of result_of fst snd app].
  rewrite calls_logs. cbn [app].
  destruct (for_each_test_cases (found_names rJSONFiles (visits root folder)) w)
    as (rest & Hrest & Hnil).
  split; [exists rest; exact Hrest|].
  intros H. destruct (Hnil H) as [-> Hall]. rewrite app_nil_r in Hrest. auto.
Qed.

End Test_cases.

(** ** The code folders and the platform *)

Lemma set_code_dom (task key code : string) (cm : CodeMap) :
  task ∈ dom cm -> dom (set_code task key code cm) = dom cm.
Proof.
  intros H. unfold set_code. rewrite dom_insert_L.
  apply subseteq_union_1_L, singleton_subseteq_l, H.
Qed.

Lemma stored_codes_dom (root : node) (task pre : string) (folder : path)
    (names : list string) (cm cm' : CodeMap) :
  task ∈ dom cm ->
  stored_codes root task pre folder names cm = inr cm' -> dom cm' = dom cm.
Proof.
  revert cm. induction names as [|n names IH]; intros cm Hin; simpl.
  - now intros [= <-].
  - destruct (utils_ReadFile root (path_Join folder [n])) as [e|c]; [discriminate|].
    intros H. apply IH in H; [|now rewrite set_code_dom].
    now rewrite H, set_code_dom.
Qed.

Lemma stored_codes_inl (root : node) (task pre : string) (folder : path)
    (names : list string) (cm : CodeMap) (e : error) :
  stored_codes root task pre folder names cm = inl e ->
  read_error_of root folder names e.
Proof.
  revert cm. induction names as [|n names IH]; intros cm; simpl; [discriminate|].
  destruct (utils_ReadFile root (path_Join folder [n])) as [e'|c] eqn:Hr.
  - intros [= <-]. exists n. split; [now left|exact Hr].
  - intros H. destruct (IH _ H) as (name & Hin & Hn). exists name. split; [now right|exact Hn].
Qed.

Section Code_folders.

Context {W : Type}.
Variable root : node.

Lemma processCodeFolders_dom (js jn : path) (w : W) (codeMap : CodeMap) :
  result_of (@processCodeFolders W root js jn w) = inr codeMap -> dom codeMap = task_types.
Proof.
  destruct (processCodeFolders_outcome root js jn w) as (t & Ht & ->).
  unfold result_of. cbn [snd].
  set (cm0 := <["JsonnetMapperTask" := ∅]> (<["JavaScriptTask" := ∅]> ∅) : CodeMap).
  assert (Hd : dom cm0 = task_types).
  { unfold cm0, task_types. rewrite !dom_insert_L, dom_empty_L. set_solver. }
  destruct (stored_codes root "JavaScriptTask" _ js _ cm0) as [e1|cm1] eqn:H1;
    [discriminate|].
  apply stored_codes_dom in H1; [|rewrite Hd; unfold task_types; set_solver].
  intros H2. apply stored_codes_dom in H2.
  - now rewrite H2, H1.
  - rewrite H1, Hd. unfold task_types. set_solver.
Qed.

(** X9.  [processCodeFolders] makes no call and leaves the platform as
    it is.  The map it returns has the two task types and no other; the
    error it returns is that of reading one of the code files it has
    found. *)
Theorem processCodeFolders_only_reads (js jn : path) (w : W) :
  let o := @processCodeFolders W root js jn w in
  calls (trace_of o) = [] /\ world_of o = w
  /\ (forall codeMap, result_of o = inr codeMap -> dom codeMap = task_types)
  /\ (forall e, result_of o = inl e ->
        read_error_of root js (found_names rJavaScriptFiles (visits root js)) e
        \/ read_error_of root jn (found_names rJsonnetFiles (visits root jn)) e).
Proof.
  cbv zeta. split; [|split; [|split]].
  - destruct (processCodeFolders_outcome root js jn w) as (t & Ht & ->). exact Ht.
  - now destruct (processCodeFolders_outcome root js jn w) as (t & Ht & ->).
  - intros codeMap. apply processCodeFolders_dom.
  - destruct (processCodeFolders_outcome root js jn w) as (t & Ht & ->).
    unfold result_of. cbn [snd].
    destruct (stored_codes root "JavaScriptTask" _ js _ _) as [e1|cm1] eqn:H1.
    + intros e [= <-]. left. eapply stored_codes_inl, H1.
    + intros e H2. right. eapply stored_codes_inl, H2.
Qed.

End Code_folders.

(** ** The calls on the integration *)

Lemma no_calls_app (t1 t2 : list event) : no_calls t1 -> no_calls t2 -> no_calls (t1 ++ t2).
Proof. unfold no_calls. rewrite calls_app. now intros -> ->. Qed.

Lemma no_calls_then (P : list call -> Prop) (t1 t2 : list event) :
  no_calls t1 -> P (calls t2) -> P (calls (t1 ++ t2)).
Proof. unfold no_calls. rewrite calls_app. now intros ->. Qed.

Lemma tests_then_app (pl out name version : string) (cs1 cs2 : list call) :
  forallb (is_test_case_of name version) cs1 = true ->
  published_then pl out name version cs2 = true ->
  tests_then pl out name (version_of (cs1 ++ cs2)) (cs1 ++ cs2) = true.
Proof.
  intros H1 H2.
  assert (Hv : cs1 ++ cs2 = [] \/ version_of (cs1 ++ cs2) = version).
  { destruct cs1 as [|c cs1]; simpl in *.
    - destruct cs2 as [|[] cs2]; simpl in *; try discriminate; auto.
      right. destruct cs2 as [|[] [|? ?]]; try discriminate.
      + apply andb_true_iff in H2 as [_ H2]. now apply String.eqb_eq.
      + repeat (apply andb_true_iff in H2 as [H2 ?]).
        now apply String.eqb_eq.
    - right. destruct c; try discriminate. simpl in H1.
      apply andb_true_iff in H1 as [H1 _]. apply andb_true_iff in H1 as [_ H1].
      now apply String.eqb_eq. }
  destruct Hv as [-> | ->]; [reflexivity|].
  induction cs1 as [|c cs1 IH]; simpl in *.
  - destruct cs2 as [|[] cs2]; try exact H2; discriminate.
  - destruct c; try discriminate. simpl in H1. apply andb_true_iff in H1 as [-> H1].
    simpl. now apply IH.
Qed.

Section Integration_calls.

Context {W : Type}.
Variable cl : Client W.
Variable Sprintf_other : Json.value -> string.
Variable fl : flags.
Variable root : node.

Lemma collect_no_calls (r : regex) (format : string) (extra : list logarg) (p : path)
    (names : list string) :
  always no_calls (@filepath_Walk W _ root p (collect r format extra) names).
Proof. intros w. unfold filepath_Walk. rewrite walk_collect. apply calls_logs. Qed.

Lemma processCodeFolders_no_calls (js jn : path) :
  always no_calls (@processCodeFolders W root js jn).
Proof.
  intros w. destruct (processCodeFolders_outcome root js jn w) as (t & Ht & ->). exact Ht.
Qed.

Lemma test_cases_only (folder : path) (name version : string) :
  always (fun t => forallb (is_test_case_of name version) (calls t) = true)
    (processTestCases cl root folder name version).
Proof.
  set (P := fun t => forallb (is_test_case_of name version) (calls t) = true).
  assert (Happ : forall t1 t2, P t1 -> P t2 -> P (t1 ++ t2)).
  { unfold P. intros t1 t2 H1 H2. now rewrite calls_app, forallb_app, H1, H2. }
  unfold processTestCases.
  apply (always_bind P P P); [exact Happ|reflexivity| |].
  - intros w. unfold P. now rewrite (collect_no_calls _ _ _ _ _ w).
  - intros r. apply always_for_each; [reflexivity|exact Happ|]. intros f [].
    apply (always_bind P P P); [exact Happ|reflexivity|now apply always_lift|].
    intros b. apply (always_bind P P P); [exact Happ|reflexivity| |].
    + apply always_invoke. unfold P. simpl. now rewrite !String.eqb_refl.
    + intros err. now apply always_check.
Qed.

Lemma processIntegration_shape (overridesFile integrationFolder configVarsFolder : path)
    (pl : string) (g : bool) :
  always (fun t => integration_shape pl (outputGCSPath fl) (userLabel fl) (calls t) = true)
    (processIntegration cl Sprintf_other fl root overridesFile integrationFolder
       configVarsFolder pl g).
Proof.
  set (P := fun t => integration_shape pl (outputGCSPath fl) (userLabel fl) (calls t) = true).
  assert (Hpre : forall t1 t2, no_calls t1 -> P t2 -> P (t1 ++ t2)).
  { intros t1 t2 H1 H2. unfold P. now apply no_calls_then. }
  unfold processIntegration.
  apply (always_bind no_calls P P); [exact Hpre|reflexivity| |].
  { destruct (stat_ok root overridesFile); [now apply always_lift|now apply always_ret]. }
  intros overridesBytes.
  apply (always_bind no_calls P P); [exact Hpre|reflexivity| |].
  { destruct (0 <? String.length overridesBytes)%nat;
      [now apply always_Info|now apply always_ret]. }
  intros _.
  apply (always_bind no_calls P P); [exact Hpre|reflexivity|apply collect_no_calls|].
  intros [[|first names] err]; cbn [fst]; [now apply always_Warning|].
  apply (always_bind no_calls P P); [exact Hpre|reflexivity|now apply always_lift|].
  intros integrationBytes.
  apply (always_bind no_calls P P);
    [exact Hpre|reflexivity|apply processCodeFolders_no_calls|].
  intros codeMap.
  apply (always_bind no_calls P P); [exact Hpre|reflexivity| |].
  { destruct (0 <? size codeMap)%nat; [now apply always_lift|now apply always_ret]. }
  intros content.
  apply (always_bind no_calls P P); [exact Hpre|reflexivity|now apply always_Info|].
  intros _.
  set (name := getFilenameWithoutExtension first).
  set (c := integrations_CreateVersion name content overridesBytes "" (userLabel fl) g).
  set (Q := fun t => tests_then pl (outputGCSPath fl) name (version_of (calls t)) (calls t)
                     = true).
  apply (always_bind (fun t => calls t = [c]) Q P).
  { intros t1 t2 H1 H2. unfold P, Q in *. rewrite calls_app, H1. simpl.
    now rewrite String.eqb_refl. }
  { reflexivity. }
  { now apply always_invoke. }
  intros resp.
  assert (Hq : forall t1 t2, no_calls t1 -> Q t2 -> Q (t1 ++ t2)).
  { intros t1 t2 H1 H2. unfold Q in *. rewrite calls_app, H1. exact H2. }
  apply (always_bind no_calls Q Q); [exact Hq|reflexivity|now apply always_lift|].
  intros respBody.
  apply (always_bind no_calls Q Q); [exact Hq|reflexivity|now apply always_lift|].
  intros version.
  set (T := fun t => published_then pl (outputGCSPath fl) name version (calls t) = true).
  apply (always_bind (fun t => forallb (is_test_case_of name version) (calls t) = true) T Q).
  { intros t1 t2 H1 H2. unfold Q, T in *. rewrite calls_app. now apply (tests_then_app _ _ _ version). }
  { reflexivity. }
  { apply test_cases_only. }
  intros _.
  assert (Ht : forall t1 t2, no_calls t1 -> T t2 -> T (t1 ++ t2)).
  { intros t1 t2 H1 H2. unfold T in *. rewrite calls_app, H1. exact H2. }
  apply (always_bind no_calls T T); [exact Ht|reflexivity|now apply always_Info|].
  intros _.
  apply (always_bind no_calls T T); [exact Ht|reflexivity| |].
  { destruct (stat_ok root _); [now apply always_lift|now apply always_ret]. }
  intros configVarBytes.
  set (p := integrations_Publish name version configVarBytes).
  set (R := fun t => calls t = []
                     \/ (is_empty pl = false
                         /\ calls t = [apiclient_WriteResultsFile (outputGCSPath fl)
                                         "SUCCEEDED"])).
  apply (always_bind (fun t => calls t = [p]) R T).
  { intros t1 t2 H1 [H2|[Hp H2]]; unfold T; rewrite calls_app, H1, H2; simpl;
      rewrite ?String.eqb_refl, ?Hp; reflexivity. }
  { now left. }
  { now apply always_invoke. }
  intros perr.
  apply (always_bind no_calls R R).
  { intros t1 t2 H1 H2. unfold R in *. now rewrite calls_app, H1. }
  { now left. }
  { now apply always_check. }
  intros _.
  destruct (String.eqb pl "") eqn:Ep; simpl; [apply always_ret; now left|].
  apply (always_bind (fun t => calls t = [apiclient_WriteResultsFile (outputGCSPath fl)
                                            "SUCCEEDED"]) no_calls R).
  { intros t1 t2 H1 H2. right. split; [exact Ep|]. now rewrite calls_app, H1, H2. }
  { reflexivity. }
  { now apply always_invoke. }
  intros err'. now apply always_check.
Qed.

End Integration_calls.

Lemma integration_calls_app (t1 t2 : list event) :
  integration_calls (t1 ++ t2) = integration_calls t1 ++ integration_calls t2.
Proof. unfold integration_calls. now rewrite calls_app, List.filter_app. Qed.

Lemma through_no_integration (S : list kind) (t : list event) :
  through S t -> ~ In Integration S -> integration_calls t = [].
Proof.
  intros [_ H] Hs. unfold integration_calls, kinds in *.
  induction (calls t) as [|c cs IH]; [reflexivity|]. simpl in *.
  unfold works_on at 1. destruct (kind_of c) as [k|] eqn:Hk.
  - apply List.Forall_cons_iff in H as [Hin H]. rewrite (IH H).
    destruct k; try reflexivity. contradiction.
  - now apply IH.
Qed.

Lemma tests_then_integration (pl out name version : string) (cs : list call) :
  tests_then pl out name version cs = true ->
  List.filter (works_on [Integration]) cs = cs.
Proof.
  induction cs as [|c cs IH]; [reflexivity|]. simpl.
  destruct c; try discriminate.
  - intros H. apply andb_true_iff in H as [_ H]. simpl. now rewrite IH.
  - destruct cs as [|[] [|? ?]]; try discriminate; reflexivity.
Qed.

Lemma shape_integration (pl out label : string) (cs : list call) :
  integration_shape pl out label cs = true ->
  List.filter (works_on [Integration]) cs = cs.
Proof.
  destruct cs as [|c cs]; [reflexivity|]. destruct c; try discriminate. simpl.
  intros H. apply andb_true_iff in H as [_ H].
  now rewrite (tests_then_integration _ _ _ _ _ H).
Qed.

Section Integration_of_a_run.

Context {W : Type}.
Variable cl : Client W.
Variable Sprintf_other : Json.value -> string.
Variable fl : flags.
Variable disk : string -> filesystem.

Lemma before_then (t1 t2 : list event) :
  no_integration_calls t1 -> shaped fl t2 -> shaped fl (t1 ++ t2).
Proof. unfold no_integration_calls, shaped. rewrite integration_calls_app. now intros ->. Qed.

Lemma before_step {A} (S : list kind) (m : M W A) :
  always (through S) m -> ~ In Integration S -> always no_integration_calls m.
Proof. intros H Hs w. eapply through_no_integration; [apply H|exact Hs]. Qed.

Ltac not_integration := simpl; intuition discriminate.

(** X10.  The calls of a run on the integration are none; or the
    creation of one version, without a snapshot and with the user label
    of the flags, then test cases of that integration, all for one
    version, then nothing more or the publication of that version, which
    for a pipeline, and only then, the results file may follow, written
    to the path of the flags with the status [SUCCEEDED]. *)
Theorem integration_calls_have_one_shape (w : W) :
  integration_shape (pipeline fl) (outputGCSPath fl) (userLabel fl)
    (integration_calls (trace_of (RunE cl Sprintf_other fl disk w))) = true.
Proof.
  revert w. change (always (shaped fl) (RunE cl Sprintf_other fl disk)). rewrite RunE_parts.
  apply (always_bind no_integration_calls (shaped fl) (shaped fl)); [apply before_then|reflexivity| |].
  { apply (before_step []); [apply prologue_through|not_integration]. }
  intros f.
  destruct (os_Stat_name (disk f) (env_name fl f)) as [e|st]; [now apply always_throw|].
  destruct (negb (IsDir st)); [now apply always_throw|].
  unfold apply_steps.
  apply (always_bind no_integration_calls (shaped fl) (shaped fl)); [apply before_then|reflexivity| |].
  { now apply always_invoke. }
  intros _.
  apply (always_bind no_integration_calls (shaped fl) (shaped fl)); [apply before_then|reflexivity| |].
  { destruct (negb (skipAuthconfigs fl)); [|now apply always_Info].
    apply (before_step [AuthConfig]); [apply processAuthConfigs_through|not_integration]. }
  intros _.
  apply (always_bind no_integration_calls (shaped fl) (shaped fl)); [apply before_then|reflexivity| |].
  { apply (before_step [Endpoint]); [apply processEndpoints_through|not_integration]. }
  intros _.
  apply (always_bind no_integration_calls (shaped fl) (shaped fl)); [apply before_then|reflexivity| |].
  { apply (before_step [ManagedZone]); [apply processManagedZones_through|not_integration]. }
  intros _.
  apply (always_bind no_integration_calls (shaped fl) (shaped fl)); [apply before_then|reflexivity| |].
  { destruct (negb (skipConnectors fl)); [|now apply always_Info].
    apply (always_bind no_integration_calls no_integration_calls no_integration_calls).
    - unfold no_integration_calls. intros t1 t2 H1 H2. now rewrite integration_calls_app, H1, H2.
    - reflexivity.
    - apply (before_step [CustomConnector]);
        [apply processCustomConnectors_through|not_integration].
    - intros _. apply (before_step [Connector]);
        [apply processConnectors_through|not_integration]. }
  intros _.
  apply (always_bind no_integration_calls (shaped fl) (shaped fl)); [apply before_then|reflexivity| |].
  { apply (before_step [SfdcInstance]); [apply processSfdcInstances_through|not_integration]. }
  intros _.
  apply (always_bind no_integration_calls (shaped fl) (shaped fl)); [apply before_then|reflexivity| |].
  { apply (before_step [SfdcChannel]); [apply processSfdcChannels_through|not_integration]. }
  intros _ w. unfold shaped, integration_calls.
  pose proof (processIntegration_shape cl Sprintf_other fl (fs_root (disk f))
                (path_Join (env_folder fl (disk f) f) ["overrides"; "overrides.json"])
                (path_Join (place (disk f) f) ["src"])
                (path_Join (env_folder fl (disk f) f) ["config-variables"])
                (pipeline fl) (grantPermission fl) w) as H.
  cbv beta in H. now rewrite (shape_integration _ _ _ _ H).
Qed.

End Integration_of_a_run.

Section Published.

Context {W : Type}.
Variable cl : Client W.
Variable Sprintf_other : Json.value -> string.
Variable fl : flags.
Variable root : node.

Lemma ends_published_after (pl out name : string) (t1 t2 : list event) :
  ends_published pl out name (calls t2) -> ends_published pl out name (calls (t1 ++ t2)).
Proof.
  intros (pre & v & c & H). exists (calls t1 ++ pre), v, c.
  now rewrite calls_app, H, <- app_assoc.
Qed.

Tactic Notation "next" hyp(H) :=
  apply (success_then _ _ _ _ _ (ends_published_after _ _ _) H);
  clear H; intros ? ? H.

(** X11.  When [processIntegration] has found an integration file and
    returns [nil], its calls end with the publication of the integration
    named after the first file found, followed for a pipeline by the
    results file. *)
Theorem a_successful_step_has_published
    (overridesFile integrationFolder configVarsFolder : path) (pl : string) (g : bool)
    (first : string) (others : list string) (w : W) :
  let o := processIntegration cl Sprintf_other fl root overridesFile integrationFolder
             configVarsFolder pl g w in
  found_names rJSONFiles (visits root integrationFolder) = first :: others ->
  result_of o = inr tt ->
  ends_published pl (outputGCSPath fl) (getFilenameWithoutExtension first)
    (calls (trace_of o)).
Proof.
  cbv zeta. intros Hn H. unfold processIntegration in *.
  next H. next H.
  apply (success_bind _ _ _ _ _ (ends_published_after _ _ _) H).
  clear H. intros r Hr H. unfold filepath_Walk in *. rewrite walk_collect in *.
  injection Hr as <-. cbn [world_of fst snd app] in *. rewrite Hn in *.
  do 10 next H.
  revert H. unfold ends_published, is_empty. run.
  destruct (do_Publish cl _ _ _ _) as [[e|] w1]; simpl; [discriminate|].
  destruct (String.eqb pl ""); simpl.
  - intros _. now eexists [], _, _.
  - destruct (do_WriteResultsFile cl w1 _ _) as [[e|] w2]; simpl; [discriminate|].
    intros _. now eexists [], _, _.
Qed.

End Published.

(** ** The version that is created *)

Section Version.

Context {W : Type}.
Variable cl : Client W.
Variable Sprintf_other : Json.value -> string.
Variable fl : flags.
Variable root : node.

(** A call of a sequence whose first part makes none is a call of the
    second part. *)
Lemma call_after {A B} (c : call) (m : M W A) (k : A -> M W B) (w : W) :
  always no_calls m ->
  In c (calls (trace_of (bind m k w))) ->
  exists a w', result_of (m w) = inr a /\ In c (calls (trace_of (k a w'))).
Proof.
  intros Hm. rewrite trace_bind, calls_app, (Hm w). simpl.
  destruct (result_of (m w)) as [e|a]; [intros []|eauto].
Qed.

Lemma avoids_In (bad : call -> bool) (t : list event) (c : call) :
  avoids bad t -> In c (calls t) -> bad c = false.
Proof.
  unfold avoids. intros H Hin. destruct (bad c) eqn:E; [|reflexivity].
  assert (existsb bad (calls t) = true) by (apply existsb_exists; eauto). congruence.
Qed.

Lemma lift_result {A} (r : error + A) (w : W) : result_of (lift r w) = r.
Proof. now destruct r. Qed.

Lemma processCodeFolders_result (js jn : path) (w w' : W) :
  result_of (@processCodeFolders W root js jn w)
  = result_of (@processCodeFolders W root js jn w').
Proof.
  destruct (processCodeFolders_outcome root js jn w) as (t & _ & ->).
  destruct (processCodeFolders_outcome root js jn w') as (t' & _ & ->).
  reflexivity.
Qed.

(** X12.  A version is created under the name of the first JSON file
    found, without its extension; its content is what [SetCode] returns
    for the content read directly below the folder and the map of
    [processCodeFolders], also when that map has no code in it; its
    overrides are the content of the overrides file, empty when the file
    is not there; it has no snapshot, the user label of the flags and
    the permission flag. *)
Theorem the_version_is_created_from_the_first_file
    (overridesFile integrationFolder configVarsFolder : path) (pl : string) (g : bool)
    (w : W) (name content overrides snapshot label : string) (grant : bool) :
  In (integrations_CreateVersion name content overrides snapshot label grant)
    (calls (trace_of (processIntegration cl Sprintf_other fl root overridesFile
                        integrationFolder configVarsFolder pl g w))) ->
  exists first others raw codeMap,
    found_names rJSONFiles (visits root integrationFolder) = first :: others
    /\ name = getFilenameWithoutExtension first
    /\ utils_ReadFile root (path_Join integrationFolder [first]) = inr raw
    /\ result_of (@processCodeFolders W root (path_Join integrationFolder ["javascript"])
                    (path_Join integrationFolder ["datatransformer"]) w) = inr codeMap
    /\ do_SetCode cl raw codeMap = inr content
    /\ overrides = overrides_text root overridesFile
    /\ snapshot = "" /\ label = userLabel fl /\ grant = g.
Proof.
  unfold processIntegration. intros H.
  apply call_after in H as (ob & w1 & Hob & H).
  2:{ destruct (stat_ok root overridesFile); [now apply always_lift|now apply always_ret]. }
  apply call_after in H as (? & w2 & _ & H).
  2:{ destruct (0 <? String.length ob)%nat; [now apply always_Info|now apply always_ret]. }
  apply call_after in H as (r & w3 & Hr & H); [|apply collect_no_calls].
  unfold filepath_Walk in Hr. rewrite walk_collect in Hr. injection Hr as <-.
  cbn [fst app] in H.
  destruct (found_names rJSONFiles (visits root integrationFolder)) as [|first others];
    [destruct H|].
  apply call_after in H as (raw & w4 & Hraw & H); [|now apply always_lift].
  apply call_after in H as (cm & w5 & Hcm & H); [|apply processCodeFolders_no_calls].
  apply call_after in H as (body & w6 & Hbody & H).
  2:{ destruct (0 <? size cm)%nat; [now apply always_lift|now apply always_ret]. }
  apply call_after in H as (? & w7 & _ & H); [|now apply always_Info].
  rewrite lift_result in Hraw.
  rewrite (processCodeFolders_result _ _ _ w) in Hcm.
  assert (Hsize : (0 <? size cm)%nat = true).
  { pose proof (processCodeFolders_dom root _ _ _ _ Hcm) as Hd. apply Nat.ltb_lt.
    rewrite <- size_dom, Hd. unfold task_types.
    rewrite size_union by set_solver. rewrite !size_singleton. lia. }
  rewrite Hsize, lift_result in Hbody.
  assert (Ho : ob = overrides_text root overridesFile).
  { unfold overrides_text, file_text. destruct (stat_ok root overridesFile).
    - rewrite lift_result in Hob. now rewrite Hob.
    - now injection Hob as <-. }
  rewrite trace_bind, calls_app in H. apply in_app_or in H as [H|H].
  - unfold invoke, trace_of in H. destruct (do_CreateVersion cl w7 _ _ _ _ _ _). simpl in H.
    destruct H as [H|[]]. injection H as <- <- <- <- <- <-.
    exists first, others, raw, cm. auto 10.
  - exfalso. destruct (result_of (invoke _ _ _)) as [e|resp]; [exact H|].
    assert (Hrest : always (avoids is_version)
      (respBody <- lift resp ;;;
       version <- lift (getVersion Sprintf_other respBody) ;;;
       processTestCases cl root integrationFolder (getFilenameWithoutExtension first)
         version ;;;
       clilog_Info "Publish integration %s with version %s\n"
         [AStr (getFilenameWithoutExtension first); AStr version] ;;;
       configVarBytes <-
         (if stat_ok root (path_Join configVarsFolder
                             [getFilenameWithoutExtension first +:+ "-config.json"])
          then lift (utils_ReadFile root
                       (path_Join configVarsFolder
                          [getFilenameWithoutExtension first +:+ "-config.json"]))
          else ret "") ;;;
       err <- invoke (integrations_Publish (getFilenameWithoutExtension first) version
                        configVarBytes)
                (fun w => do_Publish cl w (getFilenameWithoutExtension first) version
                            configVarBytes) ;;;
       check err ;;;
       if negb (String.eqb pl "") then
         err <- invoke (apiclient_WriteResultsFile (outputGCSPath fl) "SUCCEEDED")
                  (fun w => do_WriteResultsFile cl w (outputGCSPath fl) "SUCCEEDED") ;;;
         check err
       else ret tt)).
    { unfold processTestCases, collect. repeat avoid_step. }
    apply (avoids_In _ _ _ (Hrest _)) in H. discriminate.
Qed.

End Version.

(** ** Failures *)

Section Failures.

Context {W : Type}.
Variable cl : Client W.
Variable Sprintf_other : Json.value -> string.
Variable fl : flags.
Variable disk : string -> filesystem.

(** A walk ends at the first visit for which the callback returns an
    error. *)
Lemma walk_stops (fn : visit -> unit -> M W unit) (vs rest : list visit) (v : visit)
    (w w1 w2 : W) (t t' : list event) (e : error) :
  walk_visits fn vs tt w = (t, w1, inr (tt, None)) ->
  fn v tt w1 = (t', w2, inl e) ->
  walk_visits fn (vs ++ v :: rest) tt w = (t ++ t', w2, inr (tt, Some e)).
Proof.
  revert w t. induction vs as [|v0 vs IH]; intros w t Hvs Hv.
  - injection Hvs as <- <-. simpl. unfold bind, catch, ret. rewrite Hv. simpl.
    now rewrite app_nil_r.
  - simpl in *. unfold bind, catch in *.
    destruct (fn v0 tt w) as [[t0 w0] [e0|[]]]; [discriminate|].
    destruct (walk_visits fn vs tt w0) as [[ts ws] rs] eqn:Hw.
    injection Hvs as <- <- ->.
    rewrite (IH w0 ts Hw Hv). now rewrite app_assoc.
Qed.

(** X13.  In the six steps that return the error of their walk, the
    first error that the callback returns ends the step: the step returns
    that error, with the calls made so far, and visits nothing more. *)
Theorem first_failure_ends_the_step (root : node)
    (step : path -> M W unit) (fn : visit -> unit -> M W unit) (p : path)
    (vs rest : list visit) (v : visit) (w w1 w2 : W) (t t' : list event) (e : error) :
  In (step, fn) (checked_steps cl fl root) ->
  is_folder root p = true ->
  visits root p = vs ++ v :: rest ->
  walk_visits fn vs tt w = (t, w1, inr (tt, None)) ->
  fn v tt w1 = (t', w2, inl e) ->
  step p w = (t ++ t', w2, inl e).
Proof.
  intros Hin Hf Hv Hvs He.
  assert (Hw : filepath_Walk root p fn tt w = (t ++ t', w2, inr (tt, Some e))).
  { unfold filepath_Walk. rewrite Hv. now apply walk_stops with (w1 := w1). }
  unfold checked_steps in Hin. simpl in Hin.
  destruct Hin as [E|[E|[E|[E|[E|[E|[]]]]]]]; injection E as <- <-;
    unfold processAuthConfigs, processEndpoints, processManagedZones, processConnectors,
      processSfdcInstances, processSfdcChannels;
    rewrite Hf; unfold bind; rewrite Hw; simpl; now rewrite app_nil_r.
Qed.

(** X14.  With a folder given, when the path to apply is no folder the
    run makes no call, leaves the platform as it is and returns the error
    of the supplied path, which wraps the error of [os.Stat], or nothing
    when the path is there and is no folder. *)
Theorem a_path_that_is_no_folder_stops_the_run (w : W) :
  folder fl <> "" ->
  is_folder_name (disk (folder fl)) (env_name fl (folder fl)) = false ->
  exists cause,
    RunE cl Sprintf_other fl disk w
    = ([], w, inl (fmt_Errorf_w "problem with supplied path, %w" cause))
    /\ (cause = None
        <-> stat_ok_name (disk (folder fl)) (env_name fl (folder fl)) = true).
Proof.
  intros Hf Hd. rewrite RunE_parts. unfold scaffold_folder.
  apply String.eqb_neq in Hf. rewrite Hf, bind_ret.
  unfold is_folder_name, stat_ok_name in *.
  destruct (os_Stat_name (disk (folder fl)) (env_name fl (folder fl))) as [e|st].
  - exists (Some e). split; [reflexivity|]. split; discriminate.
  - rewrite Hd. exists None. simpl. split; [reflexivity|]. split; reflexivity.
Qed.

End Failures.

(** ** The names that are looked up *)

Section Keys.

Context {W : Type}.
Variable cl : Client W.
Variable fl : flags.
Variable root : node.

Ltac one_call H :=
  unfold trace_of, calls in H; simpl in H;
  repeat (destruct H as [H|H]; [subst; try discriminate|]); try contradiction.

(** Takes a callback apart as [by_cases] does, and keeps what each test
    has found. *)
Ltac by_cases_eq :=
  repeat (cbn [fst snd];
          match goal with
          | |- context [match ?x with _ => _ end] =>
              lazymatch x with
              | context [match _ with _ => _ end] => fail
              | _ => destruct x eqn:?
              end
          end).

Lemma two_segments (l : list string) :
  Nat.eqb (length l) 2 = true -> [nth 0 l ""; nth 1 l ""] = l.
Proof. destruct l as [|a [|b [|c l]]]; try discriminate. reflexivity. Qed.

(** X15.  A lookup is made for a regular file that the walk could stat,
    and asks for the name of that file without its extension; for a
    custom connector and an SFDC channel, for the two parts into which
    the splitter cuts that name. *)
Theorem lookups_are_named_after_the_file (k : kind) (fn : visit -> unit -> M W unit)
    (v : visit) (w : W) (c : call) :
  In (k, fn) (guarded_steps cl fl root) ->
  In c (calls (trace_of (fn v tt w))) -> is_probe c = true ->
  file_visit v /\ lookup_key c = file_key fl k (v_file v).
Proof.
  unfold guarded_steps, file_visit, v_file. simpl.
  intros [E|[E|[E|[E|[E|[E|[E|[]]]]]]]]; injection E as <- <-;
    unfold processAuthConfigs_fn, processEndpoints_fn, processManagedZones_fn,
      processCustomConnectors_fn, processConnectors_fn, processSfdcInstances_fn,
      processSfdcChannels_fn, sfdcNamingConvention; run; intros H Hp.
  all: revert H; by_cases_eq; intros H; one_call H.
  all: match goal with
       | E : negb (v_IsDir _) = true |- _ => apply negb_true_iff in E
       end.
  all: split; [split; first [assumption|reflexivity]|]; try reflexivity.
  all: unfold file_key, lookup_key, getFilenameWithoutExtension in *.
  all: first [ symmetry; assumption
             | apply two_segments, negb_false_iff; assumption ].
Qed.

End Keys.

(** ** Errors of creation that end the walk *)

Section Returned_errors.

Context {W : Type}.
Variable cl : Client W.
Variable fl : flags.
Variable root : node.

(** X16.  For a file that can be read: the error of creating an auth
    config, an endpoint attachment, a managed zone or a connector, after
    a lookup that has not found it, is returned by the callback. *)
Theorem creation_errors_of_four_kinds_are_returned
    (v : visit) (w : W) (content : string) (e : error) :
  file_visit v ->
  utils_ReadFile root (v_path v) = inr content ->
  let name := getFilenameWithoutExtension (v_file v) in
  (MatchString rJSONFiles (v_file v) = true ->
   fst (do_authconfigs_Find cl w name "") = "" ->
   fst (do_authconfigs_Create cl w content) = Some e ->
   result_of (processAuthConfigs_fn cl root v tt w) = inl e)
  /\ (forall sa,
        do_FindEndpoint cl w name = false ->
        getServiceAttachment content = inr sa ->
        fst (do_CreateEndpoint cl w name sa "" false) = Some e ->
        result_of (processEndpoints_fn cl root v tt w) = inl e)
  /\ (do_GetZone cl w name true <> None ->
      fst (do_CreateZone cl w name content) = Some e ->
      result_of (processManagedZones_fn cl root v tt w) = inl e)
  /\ (MatchString rJSONFiles (v_file v) = true ->
      do_connections_Get cl w name "" true false <> None ->
      fst (do_connections_Create cl w name content (serviceAccountName fl)
             (serviceAccountProject fl) (encryptionKey fl) (grantPermission fl)
             (createSecret fl) (wait fl)) = Some e ->
      result_of (processConnectors_fn cl fl root (grantPermission fl) (createSecret fl)
                   (wait fl) v tt w) = inl e).
Proof.
  intros [He Hd] Hr. cbv zeta. unfold v_file.
  unfold processAuthConfigs_fn, processEndpoints_fn, processManagedZones_fn,
    processConnectors_fn. run. rewrite He, Hd, Hr. cbn [negb].
  repeat split.
  - intros -> Hf Hc. destruct (do_authconfigs_Find cl w _ "") as [ver err].
    simpl in Hf. subst ver. simpl.
    destruct (do_authconfigs_Create cl w content) as [r w']. simpl in *. now subst.
  - intros sa Hf Hs Hc. rewrite Hs.
    destruct (MatchString rJSONFiles _); simpl; rewrite Hf; simpl;
      destruct (do_CreateEndpoint cl w _ sa "" false) as [r w']; simpl in *; now subst.
  - intros Hz Hc.
    destruct (MatchString rJSONFiles _); simpl;
      (destruct (do_GetZone cl w _ true); [|contradiction]); simpl;
      destruct (do_CreateZone cl w _ content) as [r w']; simpl in *; now subst.
  - intros -> Hg Hc. simpl.
    destruct (do_connections_Get cl w _ "" true false); [|contradiction]. simpl.
    destruct (do_connections_Create cl w _ content _ _ _ _ _ _) as [r w']. simpl in *.
    now subst.
Qed.

End Returned_errors.

(** ** The patterns: what [MatchString] accepts *)

Lemma nullable_matches (r : regex) : nullable r = true <-> matches r [].
Proof.
  split.
  - induction r; simpl; intros H; try discriminate.
    + constructor.
    + apply andb_true_iff in H as [H1 H2].
      change (@nil rune) with (@nil rune ++ []). constructor; auto.
    + apply orb_true_iff in H as [H|H]; [apply matches_Alt_l|apply matches_Alt_r]; auto.
    + constructor.
  - intros H. remember [] as l eqn:E. induction H; simpl; try reflexivity; try discriminate.
    + apply app_eq_nil in E as [-> ->]. now rewrite IHmatches1, IHmatches2.
    + now rewrite IHmatches.
    + rewrite IHmatches by assumption. apply orb_true_r.
Qed.

Lemma matches_Star_inv (r : regex) (a : rune) (l : list rune) :
  matches (Star r) (a :: l) ->
  exists l1 l2, l = l1 ++ l2 /\ matches r (a :: l1) /\ matches (Star r) l2.
Proof.
  intros H. remember (Star r) as s eqn:Es. remember (a :: l) as al eqn:El.
  induction H; try discriminate.
  injection Es as ->. destruct l1 as [|b l1].
  - simpl in El. now apply IHmatches2.
  - injection El as -> <-. eauto.
Qed.

Lemma matches_Nul (l : list rune) : ~ matches Nul l.
Proof. intros H. inversion H. Qed.

Lemma matches_Eps_inv (l : list rune) : matches Eps l -> l = [].
Proof. intros H. now inversion H. Qed.

Lemma matches_Chr_inv (p : rune -> bool) (l : list rune) :
  matches (Chr p) l -> exists a, l = [a] /\ p a = true.
Proof. intros H. inversion H; subst. eauto. Qed.

Lemma matches_Cat_inv (r1 r2 : regex) (l : list rune) :
  matches (Cat r1 r2) l -> exists l1 l2, l = l1 ++ l2 /\ matches r1 l1 /\ matches r2 l2.
Proof. intros H. inversion H; subst. eauto. Qed.

Lemma matches_Alt_inv (r1 r2 : regex) (l : list rune) :
  matches (Alt r1 r2) l -> matches r1 l \/ matches r2 l.
Proof. intros H. inversion H; subst; auto. Qed.

Lemma matches_cons (r1 r2 : regex) (a : rune) (l1 l2 : list rune) :
  matches r1 (a :: l1) -> matches r2 l2 -> matches (Cat r1 r2) (a :: l1 ++ l2).
Proof. intros H1 H2. change (a :: l1 ++ l2) with ((a :: l1) ++ l2). now constructor. Qed.

Lemma deriv_matches (r : regex) (a : rune) (l : list rune) :
  matches (deriv a r) l <-> matches r (a :: l).
Proof.
  revert l. induction r; intros l; simpl.
  - split; intros H; inversion H.
  - split; intros H; inversion H.
  - split.
    + destruct (p a) eqn:E; intros H; [|now apply matches_Nul in H].
      apply matches_Eps_inv in H as ->. now constructor.
    + intros H. apply matches_Chr_inv in H as (b & [= -> ->] & Hp). rewrite Hp. constructor.
  - split.
    + destruct (nullable r1) eqn:En.
      * intros H. apply matches_Alt_inv in H as [H|H].
        -- apply matches_Cat_inv in H as (l1 & l2 & -> & H1 & H2).
           apply IHr1 in H1. now apply matches_cons.
        -- apply IHr2 in H. apply nullable_matches in En.
           change (a :: l) with ([] ++ a :: l). now constructor.
      * intros H. apply matches_Cat_inv in H as (l1 & l2 & -> & H1 & H2).
        apply IHr1 in H1. now apply matches_cons.
    + intros H. apply matches_Cat_inv in H as (l1 & l2 & E & H1 & H2).
      destruct l1 as [|b l1].
      * simpl in E. subst l2. apply nullable_matches in H1. rewrite H1.
        apply matches_Alt_r. now apply IHr2.
      * injection E as <- ->. apply IHr1 in H1.
        destruct (nullable r1); [apply matches_Alt_l|]; now constructor.
  - split; intros H; apply matches_Alt_inv in H as [H|H];
      [apply matches_Alt_l, IHr1|apply matches_Alt_r, IHr2
      |apply matches_Alt_l, IHr1|apply matches_Alt_r, IHr2]; assumption.
  - split.
    + intros H. apply matches_Cat_inv in H as (l1 & l2 & -> & H1 & H2).
      apply IHr in H1. change (a :: l1 ++ l2) with ((a :: l1) ++ l2). now constructor.
    + intros H. apply matches_Star_inv in H as (l1 & l2 & -> & H1 & H2).
      constructor; [now apply IHr|exact H2].
Qed.

Lemma matches_Cat_iff (r1 r2 r1' r2' : regex) :
  (forall l, matches r1' l <-> matches r1 l) ->
  (forall l, matches r2' l <-> matches r2 l) ->
  forall l, matches (Cat r1' r2') l <-> matches (Cat r1 r2) l.
Proof.
  intros H1 H2 l. split; intros H; apply matches_Cat_inv in H as (l1 & l2 & -> & Ha & Hb);
    constructor; first [now apply H1|now apply H2].
Qed.

Lemma matches_Alt_iff (r1 r2 r1' r2' : regex) :
  (forall l, matches r1' l <-> matches r1 l) ->
  (forall l, matches r2' l <-> matches r2 l) ->
  forall l, matches (Alt r1' r2') l <-> matches (Alt r1 r2) l.
Proof.
  intros H1 H2 l. split; intros H; apply matches_Alt_inv in H as [H|H];
    first [apply matches_Alt_l; now apply H1|apply matches_Alt_r; now apply H2].
Qed.

Lemma matches_Cat_Nul_l (r : regex) (l : list rune) : matches (Cat Nul r) l <-> matches Nul l.
Proof.
  split; intros H; [|now apply matches_Nul in H].
  apply matches_Cat_inv in H as (? & ? & _ & H & _). now apply matches_Nul in H.
Qed.

Lemma matches_Cat_Nul_r (r : regex) (l : list rune) : matches (Cat r Nul) l <-> matches Nul l.
Proof.
  split; intros H; [|now apply matches_Nul in H].
  apply matches_Cat_inv in H as (? & ? & _ & _ & H). now apply matches_Nul in H.
Qed.

Lemma matches_Cat_Eps_l (r : regex) (l : list rune) : matches (Cat Eps r) l <-> matches r l.
Proof.
  split; intros H.
  - apply matches_Cat_inv in H as (l1 & l2 & -> & H1 & H2).
    now apply matches_Eps_inv in H1 as ->.
  - change l with ([] ++ l). constructor; [constructor|exact H].
Qed.

Lemma matches_Alt_Nul_l (r : regex) (l : list rune) : matches (Alt Nul r) l <-> matches r l.
Proof.
  split; intros H; [|now apply matches_Alt_r].
  apply matches_Alt_inv in H as [H|H]; [now apply matches_Nul in H|exact H].
Qed.

Lemma matches_Alt_Nul_r (r : regex) (l : list rune) : matches (Alt r Nul) l <-> matches r l.
Proof.
  split; intros H; [|now apply matches_Alt_l].
  apply matches_Alt_inv in H as [H|H]; [exact H|now apply matches_Nul in H].
Qed.

Lemma norm_matches (r : regex) (l : list rune) : matches (norm r) l <-> matches r l.
Proof.
  revert l. induction r; intros l; simpl; try reflexivity.
  - rewrite <- (matches_Cat_iff r1 r2 (norm r1) (norm r2) IHr1 IHr2 l).
    destruct (norm r1), (norm r2);
      rewrite ?matches_Cat_Nul_l, ?matches_Cat_Nul_r, ?matches_Cat_Eps_l; reflexivity.
  - rewrite <- (matches_Alt_iff r1 r2 (norm r1) (norm r2) IHr1 IHr2 l).
    destruct (norm r1), (norm r2);
      rewrite ?matches_Alt_Nul_l, ?matches_Alt_Nul_r; reflexivity.
Qed.

Lemma full_match_matches (r : regex) (l : list rune) :
  full_match r l = true <-> matches r l.
Proof.
  revert r. induction l as [|a l IH]; intros r; simpl.
  - apply nullable_matches.
  - now rewrite IH, norm_matches, deriv_matches.
Qed.

Lemma matches_any (l : list rune) : matches (Star any_rune) l.
Proof.
  induction l as [|a l IH]; [constructor|].
  change (a :: l) with ([a] ++ l). constructor; [now constructor|exact IH].
Qed.

Lemma matches_lit (s : string) (l : list rune) : matches (lit s) l <-> l = ascii_runes s.
Proof.
  revert l. induction s as [|c s IH]; intros l; simpl.
  - split; [apply matches_Eps_inv|intros ->; constructor].
  - split.
    + intros H. apply matches_Cat_inv in H as (l1 & l2 & -> & H1 & H2).
      apply matches_Chr_inv in H1 as (a & -> & Ha). apply IH in H2 as ->.
      destruct a as [c'|]; [|discriminate]. apply Ascii.eqb_eq in Ha as ->. reflexivity.
    + intros ->. change (ascii_runes (String c s)) with ([RAscii c] ++ ascii_runes s).
      constructor; [|now apply IH]. constructor. apply Ascii.eqb_refl.
Qed.

(** What [MatchString] finds for a pattern that ends with a literal and
    starts with a starred class: the literal, anywhere. *)
Lemma search_literal (p : rune -> bool) (s : string) (l : list rune) :
  matches (Cat (Star any_rune) (Cat (Cat (Star (Chr p)) (lit s)) (Star any_rune))) l
  <-> exists l1 l2, l = l1 ++ ascii_runes s ++ l2.
Proof.
  split.
  - intros H. apply matches_Cat_inv in H as (la & l' & -> & _ & H).
    apply matches_Cat_inv in H as (lm & lb & -> & H & _).
    apply matches_Cat_inv in H as (ls & lj & -> & _ & H).
    apply matches_lit in H as ->. exists (la ++ ls), lb. now rewrite <- !app_assoc.
  - intros (l1 & l2 & ->). constructor; [apply matches_any|].
    constructor; [|apply matches_any].
    change (ascii_runes s) with ([] ++ ascii_runes s).
    constructor; [constructor|now apply matches_lit].
Qed.

(** ** Runes and bytes *)

Lemma ascii_width (c : ascii) (l : list ascii) :
  (byte_val c <? 128)%N = true -> rune_width (c :: l) = 1.
Proof. intros H. unfold rune_width, utf8_first. now rewrite H. Qed.

Lemma in_range_high (lo hi : N) (c : ascii) :
  (128 <= lo)%N -> in_range lo hi c = true -> (byte_val c <? 128)%N = false.
Proof.
  unfold in_range. intros Hlo H. apply andb_true_iff in H as [H _].
  apply N.leb_le in H. apply N.ltb_ge. lia.
Qed.

Lemma utf8_first_range (c : ascii) (n : nat) (lo hi : N) :
  utf8_first c = Some (n, lo, hi) -> n = 1 \/ (128 <= lo)%N.
Proof.
  unfold utf8_first.
  repeat match goal with
         | |- context [if ?b then _ else _] => destruct b
         end; intros [= <- <- <-]; auto; right; lia.
Qed.

(** The bytes that follow the first byte of a rune are none of ASCII. *)
Lemma rune_width_continues (c : ascii) (l : list ascii) :
  continues (rune_width (c :: l) - 1) l.
Proof.
  unfold rune_width. destruct (utf8_first c) as [[[n lo] hi]|] eqn:E; [|exact I].
  destruct (utf8_first_range c n lo hi E) as [->|Hlo]; [exact I|].
  destruct n as [|[|[|[|[|n]]]]]; try exact I.
  - destruct l as [|c1 l]; [exact I|].
    destruct (in_range lo hi c1) eqn:H1; [|exact I].
    simpl. split; [now apply (in_range_high lo hi)|exact I].
  - destruct l as [|c1 [|c2 l]]; try exact I.
    destruct (in_range lo hi c1) eqn:H1; [|exact I].
    destruct (is_cont c2) eqn:H2; [|exact I].
    simpl. split; [now apply (in_range_high lo hi)|].
    split; [apply (in_range_high 128 191); [lia|exact H2]|exact I].
  - destruct l as [|c1 [|c2 [|c3 l]]]; try exact I.
    destruct (in_range lo hi c1) eqn:H1; [|exact I].
    destruct (is_cont c2) eqn:H2; [|exact I].
    destruct (is_cont c3) eqn:H3; [|exact I].
    simpl. split; [now apply (in_range_high lo hi)|].
    split; [apply (in_range_high 128 191); [lia|exact H2]|].
    split; [apply (in_range_high 128 191); [lia|exact H3]|exact I].
Qed.

(** The runes of an ASCII text that is met between runes. *)
Lemma runes_from_ascii (j l : list ascii) :
  Forall (fun c => (byte_val c <? 128)%N = true) j ->
  runes_from 0 (j ++ l) = map RAscii j ++ runes_from 0 l.
Proof.
  induction 1 as [|c j Hc Hj IH]; [reflexivity|].
  change ((c :: j) ++ l) with (c :: (j ++ l)). cbn [runes_from map app].
  rewrite Hc, (ascii_width c _ Hc). cbn [Nat.sub]. now rewrite IH.
Qed.

Lemma runes_from_contains (j a b : list ascii) (skip : nat) :
  Forall (fun c => (byte_val c <? 128)%N = true) j -> j <> [] ->
  continues skip (a ++ j ++ b) ->
  exists l1 l2, runes_from skip (a ++ j ++ b) = l1 ++ map RAscii j ++ l2.
Proof.
  intros Hj Hne. revert skip. induction a as [|c a IH]; intros skip Hs.
  - simpl in *. destruct skip as [|k].
    + exists [], (runes_from 0 b). now rewrite runes_from_ascii.
    + destruct j as [|c j]; [contradiction|]. simpl in Hs. destruct Hs as [Hc _].
      apply List.Forall_cons_iff in Hj as [Hc' _]. congruence.
  - cbn [app runes_from]. destruct skip as [|k].
    + destruct (IH (rune_width (c :: a ++ j ++ b) - 1)) as (l1 & l2 & ->);
        [apply rune_width_continues|].
      eexists (_ :: l1), l2. reflexivity.
    + simpl in Hs. destruct Hs as [_ Hs]. now apply IH.
Qed.

(** An ASCII rune at the head of the runes is the first byte. *)
Lemma runes_from_head (l : list ascii) (c : ascii) (rest : list rune) :
  runes_from 0 l = RAscii c :: rest ->
  exists l', l = c :: l' /\ runes_from 0 l' = rest.
Proof.
  destruct l as [|c0 l]; [discriminate|]. cbn [runes_from].
  destruct (byte_val c0 <? 128)%N eqn:E; [|discriminate].
  rewrite (ascii_width c0 l E). simpl. intros [= -> <-]. eauto.
Qed.

Lemma runes_from_prefix (j l : list ascii) (rest : list rune) :
  runes_from 0 l = map RAscii j ++ rest ->
  exists l', l = j ++ l' /\ runes_from 0 l' = rest.
Proof.
  revert l. induction j as [|c j IH]; intros l H; [now exists l|].
  simpl in H. apply runes_from_head in H as (l1 & -> & H).
  apply IH in H as (l' & -> & H). now exists l'.
Qed.

Lemma runes_from_found (j l : list ascii) (skip : nat) (l1 l2 : list rune) :
  j <> [] ->
  runes_from skip l = l1 ++ map RAscii j ++ l2 ->
  exists a b, l = a ++ j ++ b.
Proof.
  intros Hne. revert skip l1. induction l as [|c l IH]; intros skip l1 H.
  - simpl in H. destruct l1, j; try discriminate. contradiction.
  - simpl in H. destruct skip as [|k].
    + destruct l1 as [|r l1].
      * change (RAscii <$> j) with (map RAscii j) in H.
        assert (H' : runes_from 0 (c :: l) = map RAscii j ++ l2) by exact H.
        apply runes_from_prefix in H' as (l' & -> & _). now exists [], l'.
      * injection H as _ H. apply IH in H as (a & b & ->). now exists (c :: a), b.
    + apply IH in H as (a & b & ->). now exists (c :: a), b.
Qed.

(** X17.  The pattern for JSON files accepts a name exactly when [.json]
    occurs in it, at its end or not. *)
Theorem json_files_have_the_extension_anywhere (name : string) :
  MatchString rJSONFiles name = true <-> exists a b, name = a +:+ ".json" +:+ b.
Proof.
  unfold MatchString, rJSONFiles, non_space. rewrite full_match_matches, search_literal.
  unfold runes, ascii_runes. split.
  - intros (l1 & l2 & H). apply runes_from_found in H as (a & b & H); [|discriminate].
    exists (string_of a), (string_of b).
    rewrite <- (string_of_bytes name), H, !string_of_app. reflexivity.
  - intros (a & b & ->). rewrite !bytes_of_app.
    apply runes_from_contains; [|discriminate|exact I].
    repeat constructor.
Qed.

(** ** Where the integration file is read *)

Section Integration_file.

Context {W : Type}.
Variable cl : Client W.
Variable Sprintf_other : Json.value -> string.
Variable fl : flags.
Variable root : node.

(** X18.  The first JSON file found is read directly below the
    integration folder, in whatever folder below it the walk has found
    it; when it cannot be read there, the step fails with the error of
    reading it and has made no call. *)
Theorem the_first_name_is_read_below_the_folder
    (overridesFile integrationFolder configVarsFolder : path) (pl : string) (g : bool)
    (first : string) (others : list string) (e : error) (w : W) :
  found_names rJSONFiles (visits root integrationFolder) = first :: others ->
  utils_ReadFile root (path_Join integrationFolder [first]) = inl e ->
  (stat_ok root overridesFile = true ->
   exists overrides, utils_ReadFile root overridesFile = inr overrides) ->
  let o := processIntegration cl Sprintf_other fl root overridesFile integrationFolder
             configVarsFolder pl g w in
  calls (trace_of o) = [] /\ world_of o = w /\ result_of o = inl e.
Proof.
  intros Hn Hr Ho. cbv zeta. unfold processIntegration, filepath_Walk. run.
  destruct (stat_ok root overridesFile).
  - destruct (Ho eq_refl) as [ob ->]. cbv beta iota.
    destruct (0 <? String.length ob)%nat; cbv beta iota;
      rewrite walk_collect, Hn; cbn [fst app]; rewrite Hr; cbv beta iota;
      cbn [trace_of world_of result_of fst snd app]; rewrite ?app_nil_r;
      repeat split; try apply (calls_logs _ _ (first :: others)).
  - cbn [Nat.ltb Nat.leb String.length]. cbv beta iota.
    rewrite walk_collect, Hn. cbn [fst app]. rewrite Hr. cbv beta iota.
    cbn [trace_of world_of result_of fst snd app]. rewrite ?app_nil_r.
    repeat split. apply (calls_logs _ _ (first :: others)).
Qed.



End Integration_file.

(** ** The publication *)

Section Publication.

Context {W : Type}.
Variable cl : Client W.
Variable Sprintf_other : Json.value -> string.
Variable fl : flags.
Variable root : node.

(** A call of a sequence whose first part makes none like it is a call
    of the second part. *)
Lemma call_past {A B} (bad : call -> bool) (c : call) (m : M W A) (k : A -> M W B)
    (w : W) :
  always (avoids bad) m -> bad c = true ->
  In c (calls (trace_of (bind m k w))) ->
  exists a w', result_of (m w) = inr a /\ In c (calls (trace_of (k a w'))).
Proof.
  intros Hm Hc. rewrite trace_bind, calls_app. intros H.
  apply in_app_or in H as [H|H].
  - apply (avoids_In _ _ _ (Hm w)) in H. congruence.
  - destruct (result_of (m w)) as [e|a]; [destruct H|eauto].
Qed.

Lemma no_calls_avoids (bad : call -> bool) (t : list event) : no_calls t -> avoids bad t.
Proof. unfold no_calls, avoids. now intros ->. Qed.

(** X19.  An integration is published under the name of the first JSON
    file found, without its extension, with the content of the file of
    that name followed by [-config.json] in the folder of configuration
    variables, or with nothing when that file is not there. *)
Theorem publication_carries_the_configuration_variables
    (overridesFile integrationFolder configVarsFolder : path) (pl : string) (g : bool)
    (w : W) (name version configVars : string) :
  In (integrations_Publish name version configVars)
    (calls (trace_of (processIntegration cl Sprintf_other fl root overridesFile
                        integrationFolder configVarsFolder pl g w))) ->
  exists first others,
    found_names rJSONFiles (visits root integrationFolder) = first :: others
    /\ name = getFilenameWithoutExtension first
    /\ configVars = config_variables root configVarsFolder name.
Proof.
  unfold processIntegration. intros H.
  apply (call_past is_publish) in H as (ob & w1 & _ & H); [| |reflexivity].
  2:{ repeat avoid_step. }
  apply (call_past is_publish) in H as (? & w2 & _ & H); [| |reflexivity].
  2:{ repeat avoid_step. }
  apply (call_past is_publish) in H as (r & w3 & Hr & H); [| |reflexivity].
  2:{ intros w'. apply no_calls_avoids, collect_no_calls. }
  unfold filepath_Walk in Hr. rewrite walk_collect in Hr. injection Hr as <-.
  cbn [fst app] in H.
  destruct (found_names rJSONFiles (visits root integrationFolder)) as [|first others];
    [destruct H|].
  exists first, others. split; [reflexivity|].
  apply (call_past is_publish) in H as (raw & w4 & _ & H); [| |reflexivity].
  2:{ repeat avoid_step. }
  apply (call_past is_publish) in H as (cm & w5 & _ & H); [| |reflexivity].
  2:{ intros w'. apply no_calls_avoids, processCodeFolders_no_calls. }
  apply (call_past is_publish) in H as (body & w6 & _ & H); [| |reflexivity].
  2:{ repeat avoid_step. }
  apply (call_past is_publish) in H as (? & w7 & _ & H); [| |reflexivity].
  2:{ repeat avoid_step. }
  apply (call_past is_publish) in H as (resp & w8 & _ & H); [| |reflexivity].
  2:{ repeat avoid_step. }
  apply (call_past is_publish) in H as (respBody & w9 & _ & H); [| |reflexivity].
  2:{ repeat avoid_step. }
  apply (call_past is_publish) in H as (ver & w10 & _ & H); [| |reflexivity].
  2:{ repeat avoid_step. }
  apply (call_past is_publish) in H as (? & w11 & _ & H); [| |reflexivity].
  2:{ unfold processTestCases, collect. repeat avoid_step. }
  apply (call_past is_publish) in H as (? & w12 & _ & H); [| |reflexivity].
  2:{ repeat avoid_step. }
  apply (call_past is_publish) in H as (cfg & w13 & Hcfg & H); [| |reflexivity].
  2:{ repeat avoid_step. }
  assert (Hc : cfg = config_variables root configVarsFolder
                       (getFilenameWithoutExtension first)).
  { unfold config_variables, file_text. cbv zeta. destruct (stat_ok root _).
    - rewrite lift_result in Hcfg. now rewrite Hcfg.
    - now injection Hcfg as <-. }
  rewrite trace_bind, calls_app in H. apply in_app_or in H as [H|H].
  - unfold invoke, trace_of in H. destruct (do_Publish cl w13 _ _ _). simpl in H.
    destruct H as [H|[]]. injection H as <- <- <-. auto.
  - exfalso. destruct (result_of (invoke _ _ _)) as [e|perr]; [exact H|].
    assert (Hrest : always (avoids is_publish)
      (@check W perr ;;;
       if negb (String.eqb pl "") then
         err <- invoke (apiclient_WriteResultsFile (outputGCSPath fl) "SUCCEEDED")
                  (fun w => do_WriteResultsFile cl w (outputGCSPath fl) "SUCCEEDED") ;;;
         check err
       else ret tt)).
    { repeat avoid_step. }
    apply (avoids_In _ _ _ (Hrest _)) in H. discriminate.
Qed.

End Publication.

(** ** Endpoint files *)

Lemma mapM_refused {A B} (f : A -> option B) (l : list A) (a : A) :
  In a l -> f a = None -> mapM f l = None.
Proof.
  intros Hin Hf. induction l as [|b l IH]; [destruct Hin|]. simpl.
  destruct Hin as [->|Hin].
  - now rewrite Hf.
  - rewrite (IH Hin). now destruct (f b).
Qed.

(** X20.  [getServiceAttachment] refuses an object with a member that is
    neither a string nor [null], whatever its [serviceAttachment] member
    is. *)
Theorem an_attachment_file_holds_strings_only
    (respBody : string) (members : list (string * Json.value))
    (key : string) (v : Json.value) :
  Json.parse respBody = Some (Json.Obj members) ->
  In (key, v) members -> Json.string_member v = None ->
  getServiceAttachment respBody = inl json_UnmarshalTypeError.
Proof.
  intros Hp Hin Hv. unfold getServiceAttachment, Json.Unmarshal_strings. rewrite Hp.
  rewrite (mapM_refused _ members (key, v) Hin); [reflexivity|].
  simpl. now rewrite Hv.
Qed.

(** ** Responses and files that are objects of strings *)

(** A literal of plain bytes is read as it stands. *)
Lemma string_body_plain (l acc rest : list ascii) :
  forallb plain_byte l = true ->
  Json.string_body 0 acc (l ++ dquote :: rest) = Some (string_of (rev acc ++ l), rest).
Proof.
  revert acc. induction l as [|c l IH]; intros acc H.
  - cbn [app Json.string_body]. change (Ascii.eqb dquote dquote) with true. cbv iota.
    now rewrite app_nil_r.
  - simpl in H. apply andb_true_iff in H as [Hc Hl].
    cbn [app Json.string_body]. unfold plain_byte in Hc.
    apply andb_true_iff in Hc as [Hc H4]. apply andb_true_iff in Hc as [Hc H3].
    apply andb_true_iff in Hc as [H1 H2].
    apply negb_true_iff in H1, H2, H3. rewrite H1, H2, H3, H4.
    rewrite IH by exact Hl. cbn [rev]. now rewrite <- app_assoc.
Qed.

Lemma bytes_quoted (s : string) (rest : list ascii) :
  bytes_of (quoted s) ++ rest = dquote :: bytes_of s ++ dquote :: rest.
Proof.
  unfold quoted. change (bytes_of (String dquote (s +:+ String dquote "")))
    with (dquote :: bytes_of (s +:+ String dquote "")).
  rewrite bytes_of_app. cbn [app]. now rewrite <- app_assoc.
Qed.

Lemma bytes_member (kv : string * string) (rest : list ascii) :
  bytes_of (member_text kv) ++ rest
  = dquote :: bytes_of (fst kv) ++ dquote :: ":"%char :: dquote
      :: bytes_of (snd kv) ++ dquote :: rest.
Proof.
  unfold member_text. rewrite !bytes_of_app, <- !app_assoc, bytes_quoted.
  cbn [app]. do 2 f_equal. change (bytes_of ":" ++ bytes_of (quoted kv.2) ++ rest)
    with (":"%char :: (bytes_of (quoted (snd kv)) ++ rest)).
  now rewrite bytes_quoted.
Qed.

(** The members of an object of plain texts, read one after the other. *)
Lemma parse_members_plain (members : list (string * string)) (kv : string * string)
    (fuel : nat) (depth : N) (acc : list (string * Json.value)) (rest : list ascii) :
  plain_members (kv :: members) = true -> length members + 2 <= fuel ->
  Json.parse_members fuel depth acc
    (bytes_of (String.concat "," (map member_text (kv :: members)))
       ++ "}"%char :: rest)
  = Some (Json.Obj (acc ++ map (fun kv => (fst kv, Json.Str (snd kv))) (kv :: members)),
          rest).
Proof.
  revert kv fuel acc. induction members as [|kv' members IH]; intros kv fuel acc Hp Hf.
  - destruct fuel as [|[|f]]; try (simpl in Hf; lia).
    simpl in Hp. rewrite andb_true_r in Hp. apply andb_true_iff in Hp as [Hk Hv].
    cbn [map String.concat]. rewrite bytes_member.
    cbn [Json.parse_members Json.skip_ws]. 
    change (Json.is_ws dquote) with false. cbv iota.
    change (Ascii.eqb dquote dquote) with true. cbv iota.
    rewrite (string_body_plain _ [] _ Hk). cbn [rev app].
    cbn [Json.skip_ws]. change (Json.is_ws ":") with false. cbv iota.
    change (Ascii.eqb ":" ":") with true. cbv iota.
    cbn [Json.parse_value Json.skip_ws]. change (Json.is_ws dquote) with false. cbv iota.
    change (Ascii.eqb dquote "{") with false. change (Ascii.eqb dquote "[") with false.
    cbv iota. change (Ascii.eqb dquote dquote) with true. cbv iota.
    rewrite (string_body_plain _ [] _ Hv). cbn [rev app].
    cbn [Json.skip_ws]. change (Json.is_ws "}") with false. cbv iota.
    change (Ascii.eqb "}" ",") with false. change (Ascii.eqb "}" "}") with true. cbv iota.
    now rewrite !string_of_bytes.
  - destruct fuel as [|[|f]]; try (simpl in Hf; lia).
    cbn [plain_members forallb] in Hp. apply andb_true_iff in Hp as [Hkv Hp].
    apply andb_true_iff in Hkv as [Hk Hv].
    change (String.concat "," (map member_text (kv :: kv' :: members)))
      with (member_text kv +:+ "," +:+ String.concat "," (map member_text (kv' :: members))).
    rewrite !bytes_of_app, <- !app_assoc, bytes_member.
    set (f0 := S f) in *.
    cbn [Json.parse_members Json.skip_ws].
    change (Json.is_ws dquote) with false. cbv iota.
    change (Ascii.eqb dquote dquote) with true. cbv iota.
    rewrite (string_body_plain _ [] _ Hk). cbn [rev app].
    cbn [Json.skip_ws]. change (Json.is_ws ":") with false. cbv iota.
    change (Ascii.eqb ":" ":") with true. cbv iota.
    unfold f0 at 1.
    cbn [Json.parse_value Json.skip_ws]. change (Json.is_ws dquote) with false. cbv iota.
    change (Ascii.eqb dquote "{") with false. change (Ascii.eqb dquote "[") with false.
    cbv iota. change (Ascii.eqb dquote dquote) with true. cbv iota.
    rewrite (string_body_plain _ [] _ Hv). cbn [rev app].
    change (bytes_of "," ++ ?x) with (","%char :: x).
    cbn [app Json.skip_ws]. change (Json.is_ws ",") with false. cbv iota.
    change (Ascii.eqb "," ",") with true. cbv iota.
    rewrite IH; [|exact Hp|unfold f0; simpl in Hf; simpl; lia].
    rewrite !string_of_bytes. cbn [map]. now rewrite <- app_assoc.
Qed.

Lemma fold_insert_lookup {A} (l : list (string * A)) (m : gmap string A) (key : string) :
  fold_left (fun m kv => <[fst kv := snd kv]> m) l m !! key
  = match binding key l with
    | Some v => Some v
    | None => m !! key
    end.
Proof.
  revert m. induction l as [|[k v] l IH]; intros m; [reflexivity|].
  cbn [fold_left binding fst snd]. rewrite IH.
  destruct (binding key l) as [v'|]; [reflexivity|].
  destruct (String.eqb_spec k key) as [->|Hne].
  - apply lookup_insert_eq.
  - now apply lookup_insert_ne.
Qed.

Lemma to_map_lookup {A} (l : list (string * A)) (key : string) :
  Json.to_map l !! key = binding key l.
Proof.
  unfold Json.to_map. rewrite fold_insert_lookup, lookup_empty. now destruct (binding key l).
Qed.

Lemma binding_map {A B} (f : A -> B) (l : list (string * A)) (key : string) :
  binding key (map (fun kv => (fst kv, f (snd kv))) l) = f <$> binding key l.
Proof.
  induction l as [|[k v] l IH]; [reflexivity|]. cbn [map binding fst snd]. rewrite IH.
  destruct (binding key l); [reflexivity|]. now destruct (String.eqb k key).
Qed.

Lemma member_text_length (kv : string * string) :
  1 <= length (bytes_of (member_text kv)).
Proof.
  pose proof (bytes_member kv []) as H. rewrite app_nil_r in H. rewrite H. simpl. lia.
Qed.

Lemma members_length (kv : string * string) (members : list (string * string)) :
  S (length members)
  <= length (bytes_of (String.concat "," (map member_text (kv :: members)))).
Proof.
  revert kv. induction members as [|kv' members IH]; intros kv.
  - cbn [map String.concat]. apply member_text_length.
  - change (String.concat "," (map member_text (kv :: kv' :: members)))
      with (member_text kv +:+ "," +:+ String.concat "," (map member_text (kv' :: members))).
    rewrite !bytes_of_app, !length_app. specialize (IH kv'). simpl in *. lia.
Qed.

(** An object of plain texts is read as the list of its members. *)
Lemma parse_object (members : list (string * string)) :
  plain_members members = true ->
  Json.parse (object_text members)
  = Some (Json.Obj (map (fun kv => (fst kv, Json.Str (snd kv))) members)).
Proof.
  intros Hp. destruct members as [|kv members]; [reflexivity|].
  unfold Json.parse, object_text.
  change (bytes_of ("{" +:+ ?s)) with ("{"%char :: bytes_of s).
  rewrite bytes_of_app.
  pose proof (members_length kv members) as Hlen.
  set (body := String.concat "," (map member_text (kv :: members))) in *.
  assert (Hhead : exists l', bytes_of body ++ bytes_of "}" = dquote :: l').
  { unfold body. change (String.concat "," (map member_text (kv :: members)))
      with (String.concat "," (member_text kv :: map member_text members)).
    destruct (map member_text members) as [|m ms]; cbn [String.concat].
    - rewrite bytes_member. eauto.
    - rewrite bytes_of_app, <- app_assoc, bytes_member. eauto. }
  destruct Hhead as [l' Hl'].
  set (n := length ("{"%char :: bytes_of body ++ bytes_of "}")).
  assert (Hn : length members + 2 <= n).
  { unfold n. cbn [length]. rewrite length_app. simpl. lia. }
  cbn [Json.parse_value Json.skip_ws]. change (Json.is_ws "{") with false. cbv iota.
  change (Ascii.eqb "{" "{") with true. cbv iota.
  change (Json.maxNestingDepth <? 0 + 1)%N with false. cbv iota.
  rewrite Hl'. cbn [Json.skip_ws]. change (Json.is_ws dquote) with false. cbv iota.
  change (Ascii.eqb dquote "}") with false. cbv iota. rewrite <- Hl'.
  change (bytes_of "}") with ["}"%char].
  unfold body. rewrite (parse_members_plain members kv n _ [] [] Hp Hn).
  reflexivity.
Qed.

Lemma string_of_nonempty (c : ascii) (l : list ascii) : string_of (c :: l) <> "".
Proof. discriminate. Qed.

Lemma filepath_Base_nonempty (path : string) : filepath_Base path <> "".
Proof.
  unfold filepath_Base. destruct path as [|c path]; [discriminate|].
  destruct (take_elem _ []) as [|c' l]; [discriminate|apply string_of_nonempty].
Qed.

Lemma take_elem_plain (l r acc : list ascii) :
  forallb (fun c => negb (is_sep c)) l = true ->
  take_elem (rev l ++ "/"%char :: r) acc = l ++ acc.
Proof.
  revert acc. induction l as [|c l IH] using rev_ind; intros acc H; [reflexivity|].
  rewrite forallb_app in H. apply andb_true_iff in H as [Hl Hc]. simpl in Hc.
  rewrite andb_true_r in Hc. apply negb_true_iff in Hc.
  rewrite rev_app_distr. cbn [rev app take_elem]. rewrite Hc.
  rewrite IH by exact Hl. now rewrite <- app_assoc.
Qed.

(** [filepath.Base] of a path that ends with a slash and a name. *)
Lemma filepath_Base_last (prefix name : string) :
  no_slash name = true -> name <> "" ->
  filepath_Base (prefix +:+ "/" +:+ name) = name.
Proof.
  intros Hs Hne. unfold filepath_Base.
  destruct (prefix +:+ "/" +:+ name) as [|c0 s0] eqn:E.
  { destruct prefix; discriminate. }
  rewrite <- E. rewrite !bytes_of_app, !rev_app_distr, <- app_assoc.
  change (rev (bytes_of "/")) with ["/"%char]. cbn [app].
  assert (Hd : drop_seps (rev (bytes_of name) ++ "/"%char :: rev (bytes_of prefix))
               = rev (bytes_of name) ++ "/"%char :: rev (bytes_of prefix)).
  { unfold no_slash in Hs. destruct name as [|c name]; [contradiction|].
    change (bytes_of (String c name)) with (c :: bytes_of name) in *.
    assert (Hlast : exists d l, rev (c :: bytes_of name) = d :: l /\ is_sep d = false).
    { destruct (rev (c :: bytes_of name)) as [|d l] eqn:Er.
      - apply (f_equal (@length ascii)) in Er. rewrite length_rev in Er. discriminate.
      - exists d, l. split; [reflexivity|].
        assert (Hin : In d (c :: bytes_of name)).
        { apply in_rev. rewrite Er. now left. }
        rewrite forallb_forall in Hs. apply Hs in Hin. now apply negb_true_iff in Hin. }
    destruct Hlast as (d & l & -> & Hd). cbn [app drop_seps]. now rewrite Hd. }
  rewrite Hd, take_elem_plain by exact Hs. rewrite app_nil_r.
  destruct (bytes_of name) as [|c l] eqn:En.
  - destruct name; [contradiction|discriminate].
  - rewrite <- En. apply string_of_bytes.
Qed.

Section Responses.

Variable other : Json.value -> string.

Lemma Unmarshal_any_object (members : list (string * string)) :
  plain_members members = true ->
  exists m, Json.Unmarshal_any (object_text members) = inr m
            /\ forall key, Json.index_any m key
                           = match binding key members with
                             | Some s => Json.Str s
                             | None => Json.Null
                             end.
Proof.
  intros Hp. unfold Json.Unmarshal_any. rewrite (parse_object _ Hp).
  assert (Hn : forallb (fun kv : string * Json.value => Json.numbers_in_range (snd kv))
                 (map (fun kv : string * string => (fst kv, Json.Str (snd kv))) members)
               = true).
  { clear Hp. induction members as [|kv l IH]; [reflexivity|exact IH]. }
  rewrite Hn. eexists. split; [reflexivity|]. intros key.
  unfold Json.index_any. rewrite to_map_lookup, (binding_map Json.Str).
  now destruct (binding key members).
Qed.

(** X21.  For a response that is an object of plain string members,
    whose [name] ends with a slash and a text without a slash,
    [getVersion] returns that text. *)
Theorem getVersion_returns_what_follows_the_last_slash
    (members : list (string * string)) (prefix version : string) :
  plain_members members = true ->
  binding "name" members = Some (prefix +:+ "/" +:+ version) ->
  no_slash version = true -> version <> "" ->
  getVersion other (object_text members) = inr version.
Proof.
  intros Hp Hb Hs Hne. unfold getVersion.
  destruct (Unmarshal_any_object members Hp) as (m & -> & Hm). rewrite Hm, Hb.
  assert (Hn : iface_is_empty_string (Json.Str (prefix +:+ "/" +:+ version)) = false).
  { destruct prefix; reflexivity. }
  rewrite Hn. cbn [fmt_Sprintf_s]. rewrite (filepath_Base_last _ _ Hs Hne).
  destruct (String.eqb_spec version "") as [E|_]; [contradiction|reflexivity].
Qed.

(** X22.  For a response that is an object of plain string members,
    [getVersion] returns the last element of the path in its last [name]
    member; the error "version not found" when that member is empty;
    and, without an error, the text that [fmt.Sprintf] prints for [nil]
    when there is no such member. *)
Theorem getVersion_of_string_members (members : list (string * string)) :
  plain_members members = true ->
  getVersion other (object_text members)
  = match binding "name" members with
    | Some "" => inl (errors_New "version not found")
    | Some name => inr (filepath_Base name)
    | None => inr "%!s(<nil>)"
    end.
Proof.
  intros Hp. unfold getVersion.
  destruct (Unmarshal_any_object members Hp) as (m & -> & Hm). rewrite Hm.
  destruct (binding "name" members) as [[|c name]|]; [reflexivity| |reflexivity].
  cbn [iface_is_empty_string fmt_Sprintf_s].
  destruct (String.eqb_spec (filepath_Base (String c name)) "") as [E|_]; [|reflexivity].
  now apply filepath_Base_nonempty in E.
Qed.

End Responses.

Lemma Unmarshal_strings_object (members : list (string * string)) :
  plain_members members = true ->
  exists m, Json.Unmarshal_strings (object_text members) = inr m
            /\ forall key, Json.index_string m key = default "" (binding key members).
Proof.
  intros Hp. unfold Json.Unmarshal_strings. rewrite (parse_object _ Hp).
  assert (Hm : mapM (fun kv : string * Json.value =>
                       pair (fst kv) <$> Json.string_member (snd kv))
                 (map (fun kv : string * string => (fst kv, Json.Str (snd kv))) members)
               = Some members).
  { clear Hp. induction members as [|[k v] l IH]; [reflexivity|].
    cbn [map mapM fst snd Json.string_member]. simpl. rewrite IH. reflexivity. }
  rewrite Hm. eexists. split; [reflexivity|]. intros key.
  unfold Json.index_string. now rewrite to_map_lookup.
Qed.

(** X23.  For a file that is an object of plain string members,
    [getServiceAttachment] returns its last [serviceAttachment] member,
    and the error "serviceAttachment not found" when that member is
    empty or is not there. *)
Theorem getServiceAttachment_of_string_members (members : list (string * string)) :
  plain_members members = true ->
  getServiceAttachment (object_text members)
  = match binding "serviceAttachment" members with
    | None | Some "" => inl (errors_New "serviceAttachment not found")
    | Some sa => inr sa
    end.
Proof.
  intros Hp. unfold getServiceAttachment.
  destruct (Unmarshal_strings_object members Hp) as (m & -> & Hm). rewrite !Hm.
  destruct (binding "serviceAttachment" members) as [[|c sa]|]; reflexivity.
Qed.

(** ** The theorems at work on the sample folders *)

(** C6 on the full sample folder: the lookup of its channel file. *)
Lemma sfdc_channel_lookup_witness :
  let cl := Sim.client true in
  let o := RunE cl Sim.other Sim.plain_flags (Sample.on_disk Sample.full_folder) [] in
  result_of (scaffold_folder cl Sim.plain_flags []) = inr "scaffold"
  /\ result_of o = inr tt
  /\ channel_lookups (trace_of o) = [sfdc_FindChannel "ch1" "i1"]
  /\ In (sfdc_FindChannel "ch1" "i1") (calls (trace_of o)).
Proof.
  cbv zeta.
  destruct (sfdc_channel_lookup_inverts_segments (Sim.client true) Sim.other Sim.plain_flags
              (Sample.on_disk Sample.full_folder) [] "scaffold" eq_refl)
    as (_ & E & H & _).
  assert (R : result_of (RunE (Sim.client true) Sim.other Sim.plain_flags
                           (Sample.on_disk Sample.full_folder) []) = inr tt)
    by (vm_compute; reflexivity).
  split; [reflexivity|]. split; [exact R|]. split.
  - rewrite (E R). vm_compute. reflexivity.
  - apply (H R (Sample.file_at ["scaffold"; "sfdcchannels"; "i1__ch1.json"]) "i1" "ch1").
    + vm_compute. right. left. reflexivity.
    + split; reflexivity.
    + vm_compute. reflexivity.
    + vm_compute. reflexivity.
Defined.


(** C10 on the auth config of the full sample folder, which the platform
    does not know: the lookup returns an error and the creation follows. *)
Lemma authconfig_lookup_error_witness :
  let cl := Sim.client true in
  let v := Sample.file_at ["authconfigs"; "a1.json"] in
  do_authconfigs_Find cl [] (getFilenameWithoutExtension (v_file v)) ""
  = ("", Some Sim.not_found)
  /\ exists t',
       trace_of (processAuthConfigs cl Sample.full_folder ["authconfigs"] [])
       = [] ++ creation_attempt "a1.json" (Sample.object1 "name" "a1") ++ t'.
Proof.
  cbv zeta. split; [reflexivity|].
  destruct (authconfig_lookup_error_is_discarded (Sim.client true) Sim.other Sim.plain_flags
              (Sample.on_disk Sample.full_folder)) as (H & _).
  exact (H Sample.full_folder ["authconfigs"] [Sample.dir_at ["authconfigs"]] []
           (Sample.file_at ["authconfigs"; "a1.json"]) [] [] [] (Some Sim.not_found)
           eq_refl eq_refl eq_refl (conj eq_refl eq_refl) eq_refl eq_refl).
Defined.

(** C8 on a code folder with a script of two lines and a transformer. *)
Lemma code_files_witness :
  let root := Sample.code_folder in
  exists codeMap,
    result_of (@processCodeFolders unit root ["javascript"] ["datatransformer"] tt)
      = inr codeMap
    /\ code_at codeMap "JavaScriptTask" (code_key "javascript_" "javascript_1.js")
       = Some (newline_escaped ("let a = 1;" +:+ String "010" "return a;"))
    /\ code_at codeMap "JsonnetMapperTask"
         (code_key "datatransformer_" "datatransformer_2.jsonnet")
       = Some (newline_escaped "local x = 1; x").
Proof.
  cbv zeta.
  destruct (code_files_are_inlined (W := unit) Sample.code_folder ["javascript"]
              ["datatransformer"] tt) as (Hok & Hstored & _ & _).
  cbv zeta in Hok, Hstored.
  assert (N1 : found_names rJavaScriptFiles (visits Sample.code_folder ["javascript"])
               = ["javascript_1.js"]) by (vm_compute; reflexivity).
  assert (N2 : found_names rJsonnetFiles (visits Sample.code_folder ["datatransformer"])
               = ["datatransformer_2.jsonnet"]) by (vm_compute; reflexivity).
  rewrite N1, N2 in Hok, Hstored.
  destruct Hok as [codeMap Hcm].
  { constructor; [|constructor]. eexists. vm_compute. reflexivity. }
  { constructor; [|constructor]. eexists. vm_compute. reflexivity. }
  exists codeMap. split; [exact Hcm|].
  destruct (Hstored codeMap Hcm) as (Hjs & Hjn). split.
  - destruct (Hjs "javascript_1.js") as (content & Hread & Hcode).
    + now left.
    + intros other [<-|[]] _. reflexivity.
    + assert (E : utils_ReadFile Sample.code_folder (path_Join ["javascript"] ["javascript_1.js"])
                  = inr ("let a = 1;" +:+ String "010" "return a;"))
        by (vm_compute; reflexivity).
      rewrite E in Hread. injection Hread as <-. exact Hcode.
  - destruct (Hjn "datatransformer_2.jsonnet") as (content & Hread & Hcode).
    + now left.
    + intros other [<-|[]] _. reflexivity.
    + assert (E : utils_ReadFile Sample.code_folder
                    (path_Join ["datatransformer"] ["datatransformer_2.jsonnet"])
                  = inr "local x = 1; x")
        by (vm_compute; reflexivity).
      rewrite E in Hread. injection Hread as <-. exact Hcode.
Defined.

(** C5 on a second run on the full sample folder, started in the state
    that a first run has left: every lookup finds its resource. *)
Lemma existing_resources_witness :
  let cl := Sim.client true in
  let disk := Sample.on_disk Sample.full_folder in
  let w1 := world_of (RunE cl Sim.other Sim.plain_flags disk []) in
  let v := Sample.file_at ["connectors"; "c1.json"] in
  (file_visit v
   /\ looked_up Sim.plain_flags Sample.full_folder Connector v = true
   /\ reported_existing cl Sim.plain_flags Connector w1 v = true
   /\ result_of (processConnectors_fn cl Sim.plain_flags Sample.full_folder
                   false false false v tt w1) = inr tt)
  /\ folder Sim.plain_flags <> ""
  /\ avoids is_guarded_create (trace_of (RunE cl Sim.other Sim.plain_flags disk w1)).
Proof.
  cbv zeta.
  destruct (existing_resources_are_not_created (Sim.client true) Sim.other
              Sim.plain_flags (Sample.on_disk Sample.full_folder)) as [Hfile Hrun].
  assert (Hv : file_visit (Sample.file_at ["connectors"; "c1.json"]))
    by (split; reflexivity).
  assert (Hl : looked_up Sim.plain_flags Sample.full_folder Connector
                 (Sample.file_at ["connectors"; "c1.json"]) = true)
    by (vm_compute; reflexivity).
  assert (Hr : reported_existing (Sim.client true) Sim.plain_flags Connector
                 (world_of (RunE (Sim.client true) Sim.other Sim.plain_flags
                              (Sample.on_disk Sample.full_folder) []))
                 (Sample.file_at ["connectors"; "c1.json"]) = true)
    by (vm_compute; reflexivity).
  assert (Hf : folder Sim.plain_flags <> "") by discriminate.
  split; [|split; [exact Hf|]].
  - split; [exact Hv|]. split; [exact Hl|]. split; [exact Hr|].
    refine (proj1 (Hfile Sample.full_folder Connector _ _ _ _ Hv Hl Hr)).
    unfold guarded_steps. do 4 right. left. reflexivity.
  - apply (Hrun _ Hf). clear Hfile Hrun Hv Hl Hr Hf. intros k v Hin [_ Hd] Hl'.
    destruct k; vm_compute in Hin;
      repeat match goal with
             | H : _ \/ _ |- _ => destruct H as [<-|H]
             | H : False |- _ => destruct H
             end;
      first [ vm_compute; reflexivity
            | vm_compute in Hl'; discriminate
            | vm_compute in Hd; discriminate ].
Defined.


(** ** The further properties at work *)

(** X2 at work: a folder and a pipeline at once. *)
Lemma Args_rejects_witness :
  Args (fun _ => None) (fun _ => None) "us-west1" "project" Cases.two_sources
  = ([apiclient_SetRegion "us-west1"],
     Some (fmt_Errorf "both folder and pipeline, release and outputGCSPath cannot be supplied")).
Proof.
  apply (Args_rejects_with_one_of_two_messages (fun _ => None) (fun _ => None)
           "us-west1" "project" Cases.two_sources).
  - reflexivity.
  - intros [(_ & H & _)|(H & _)]; discriminate.
Defined.

(** X3 at work: the flags of the sample runs, on the full sample folder. *)
Lemma accepted_folder_witness :
  snd (Args (fun _ => None) (fun _ => None) "us-west1" "project" Sim.plain_flags) = None
  /\ avoids is_release_call
       (trace_of (RunE (Sim.client true) Sim.other Sim.plain_flags
                    (Sample.on_disk Sample.full_folder) [])).
Proof.
  split; [reflexivity|].
  apply (accepted_folder_needs_no_release (Sim.client true) Sim.other Sim.plain_flags
           (Sample.on_disk Sample.full_folder)
           (fun _ => None) (fun _ => None) "us-west1" "project").
  - reflexivity.
  - discriminate.
Defined.

(** X4 at work: the name of a channel file. *)
Lemma drops_the_extension_witness :
  plain_ext "json" = true
  /\ getFilenameWithoutExtension "i1__ch1.json" = "i1__ch1".
Proof.
  split; [reflexivity|].
  apply (getFilenameWithoutExtension_drops_the_extension "i1__ch1" "json"). reflexivity.
Defined.

(** X11 at work: the integration of the sample folder, without a
    pipeline. *)
Lemma a_successful_step_witness :
  ends_published "" "" "sample"
    (calls (trace_of (processIntegration (Sim.client true) Sim.other Sim.plain_flags
                        Sample.integration_folder ["overrides"; "overrides.json"]
                        ["src"] ["config-variables"] "" false []))).
Proof.
  apply (a_successful_step_has_published (Sim.client true) Sim.other Sim.plain_flags
           Sample.integration_folder ["overrides"; "overrides.json"] ["src"]
           ["config-variables"] "" false "sample.json" [] []).
  - reflexivity.
  - reflexivity.
Defined.

(** X12 at work: the version of the configured sample folder. *)
Lemma the_version_witness :
  exists first others raw codeMap,
    found_names rJSONFiles (visits Cases.configured_folder ["src"]) = first :: others
    /\ "sample" = getFilenameWithoutExtension first
    /\ utils_ReadFile Cases.configured_folder (path_Join ["src"] [first]) = inr raw
    /\ result_of (@processCodeFolders Sim.state Cases.configured_folder
                    (path_Join ["src"] ["javascript"])
                    (path_Join ["src"] ["datatransformer"]) []) = inr codeMap
    /\ do_SetCode (Sim.client true) raw codeMap = inr "{}"
    /\ Sample.object1 "label" "x"
       = overrides_text Cases.configured_folder ["overrides"; "overrides.json"]
    /\ "" = "" /\ "" = userLabel Sim.plain_flags /\ false = false.
Proof.
  apply (the_version_is_created_from_the_first_file (Sim.client true) Sim.other
           Sim.plain_flags Cases.configured_folder ["overrides"; "overrides.json"]
           ["src"] ["config-variables"] "" false []
           "sample" "{}" (Sample.object1 "label" "x") "" "" false).
  vm_compute. left. reflexivity.
Defined.

(** X13 at work: the creation of the auth config of the full sample
    folder, refused. *)
Lemma first_failure_witness :
  processAuthConfigs (Sim.client false) Sample.full_folder ["authconfigs"] []
  = ([] ++ [Printf Info "Found configuration for authconfig: %s\n" [AStr "a1.json"];
            Call (authconfigs_Find "a1" "");
            Printf Info "Creating authconfig: %s\n" [AStr "a1.json"];
            Call (authconfigs_Create (Sample.object1 "name" "a1"))],
     [], inl Sim.refused).
Proof.
  apply (first_failure_ends_the_step (Sim.client false) Sim.plain_flags Sample.full_folder
           (processAuthConfigs (Sim.client false) Sample.full_folder)
           (processAuthConfigs_fn (Sim.client false) Sample.full_folder)
           ["authconfigs"] [Sample.dir_at ["authconfigs"]] []
           (Sample.file_at ["authconfigs"; "a1.json"]) [] [] []).
  - left. reflexivity.
  - reflexivity.
  - reflexivity.
  - reflexivity.
  - reflexivity.
Defined.

(** X14 at work: a file where the folder should be. *)
Lemma no_folder_witness :
  exists cause,
    RunE (Sim.client true) Sim.other Sim.plain_flags
      (Sample.on_disk (Sim.text "not a folder")) []
    = ([], [], inl (fmt_Errorf_w "problem with supplied path, %w" cause))
    /\ (cause = None
        <-> stat_ok_name (Sample.on_disk (Sim.text "not a folder") (folder Sim.plain_flags))
              (env_name Sim.plain_flags (folder Sim.plain_flags)) = true).
Proof.
  apply (a_path_that_is_no_folder_stops_the_run (Sim.client true) Sim.other
           Sim.plain_flags (Sample.on_disk (Sim.text "not a folder")) []).
  - discriminate.
  - reflexivity.
Defined.

(** X15 at work: the lookup of the channel of the full sample folder. *)
Lemma lookups_witness :
  file_visit (Sample.file_at ["sfdcchannels"; "i1__ch1.json"])
  /\ lookup_key (sfdc_FindChannel "ch1" "i1")
     = file_key Sim.plain_flags SfdcChannel
         (v_file (Sample.file_at ["sfdcchannels"; "i1__ch1.json"])).
Proof.
  apply (lookups_are_named_after_the_file (Sim.client true) Sim.plain_flags
           Sample.full_folder SfdcChannel
           (processSfdcChannels_fn (Sim.client true) Sim.plain_flags Sample.full_folder)
           (Sample.file_at ["sfdcchannels"; "i1__ch1.json"]) []
           (sfdc_FindChannel "ch1" "i1")).
  - do 6 right. left. reflexivity.
  - vm_compute. left. reflexivity.
  - reflexivity.
Defined.

(** X16 at work: the auth config of the full sample folder, refused. *)
Lemma creation_errors_witness :
  result_of (processAuthConfigs_fn (Sim.client false) Sample.full_folder
               (Sample.file_at ["authconfigs"; "a1.json"]) tt [])
  = inl Sim.refused.
Proof.
  destruct (creation_errors_of_four_kinds_are_returned (Sim.client false) Sim.plain_flags
              Sample.full_folder (Sample.file_at ["authconfigs"; "a1.json"]) []
              (Sample.object1 "name" "a1") Sim.refused)
    as [H _].
  - split; reflexivity.
  - reflexivity.
  - apply H; reflexivity.
Defined.

(** X18 at work: the Jsonnet file of a code folder is the first JSON
    file found, and is not there directly below [src]. *)
Lemma the_first_name_witness :
  let o := processIntegration (Sim.client true) Sim.other Sim.plain_flags
             Cases.jsonnet_folder ["overrides"; "overrides.json"] ["src"]
             ["config-variables"] "" false [] in
  calls (trace_of o) = [] /\ world_of o = []
  /\ result_of o
     = inl (fs_PathError "open" ["src"; "datatransformer_1.jsonnet"]
              "no such file or directory").
Proof.
  apply (the_first_name_is_read_below_the_folder (Sim.client true) Sim.other
           Sim.plain_flags Cases.jsonnet_folder ["overrides"; "overrides.json"] ["src"]
           ["config-variables"] "" false "datatransformer_1.jsonnet" ["sample.json"]).
  - reflexivity.
  - reflexivity.
  - discriminate.
Defined.

(** X19 at work: the publication of the configured sample folder. *)
Lemma publication_witness :
  exists first others,
    found_names rJSONFiles (visits Cases.configured_folder ["src"]) = first :: others
    /\ "sample" = getFilenameWithoutExtension first
    /\ Sample.object1 "region" "eu"
       = config_variables Cases.configured_folder ["config-variables"] "sample".
Proof.
  apply (publication_carries_the_configuration_variables (Sim.client true) Sim.other
           Sim.plain_flags Cases.configured_folder ["overrides"; "overrides.json"]
           ["src"] ["config-variables"] "" false [] "sample" "42"
           (Sample.object1 "region" "eu")).
  vm_compute. do 2 right. left. reflexivity.
Defined.

(** X20 at work: an endpoint file with a port number. *)
Lemma strings_only_witness :
  getServiceAttachment Cases.attachment_with_port = inl json_UnmarshalTypeError.
Proof.
  apply (an_attachment_file_holds_strings_only Cases.attachment_with_port
           [("serviceAttachment", Json.Str "sa"); ("port", Json.Number "443")]
           "port" (Json.Number "443")).
  - vm_compute. reflexivity.
  - right. left. reflexivity.
  - reflexivity.
Defined.

(** X21 at work: the version of a response. *)
Lemma last_slash_witness :
  getVersion Sim.other (object_text Cases.version_response) = inr "42".
Proof.
  apply (getVersion_returns_what_follows_the_last_slash Sim.other Cases.version_response
           "projects/p/locations/l/integrations/i/versions" "42").
  - reflexivity.
  - reflexivity.
  - reflexivity.
  - discriminate.
Defined.

(** X22 at work: a response without a name. *)
Lemma string_members_witness :
  getVersion Sim.other (object_text [("state", "DRAFT")]) = inr "%!s(<nil>)".
Proof.
  apply (getVersion_of_string_members Sim.other [("state", "DRAFT")]). reflexivity.
Defined.

(** X23 at work: an endpoint file. *)
Lemma attachment_witness :
  getServiceAttachment (object_text Cases.attachment_file) = inr "sa".
Proof.
  apply (getServiceAttachment_of_string_members Cases.attachment_file). reflexivity.
Defined.
